(** * CTK settings panel: property / QSettings synchronisation

    A shallow embedding of [Libs/Widgets/ctkSettingsPanel.cpp] and the
    properties of its public operations.

    The panel keeps a [QMap<QString, PropertyType>] registry.  Every entry
    points at a [QObject] property; the panel copies values between that
    property and an attached [QSettings] store, remembers a previous and a
    default value per key, emits [settingChanged(key, value)] and logs a
    warning when the store reports an error.

    Qt itself is not part of the repository.  The modules [QVariant],
    [QMetaProperty], [QObject] and [QSettings] below are a small executable
    model of the Qt collaborators the file talks to; everything after them
    is a translation of the C++ of the panel.  What the model of Qt leaves
    out:

    - [QVariant] has five of the variant types, and two variants are equal
      when they have the same type and payload; the conversions that
      [QVariant::operator==] and [QMetaProperty::write] try between
      different types are not modelled, so a declared property takes a value
      of its declared type only.
    - Objects are passive.  A write runs no setter code and emits no signal;
      the connection that [registerProperty] makes from the signal of the
      object to [updateSetting] is recorded, and the slot is not re-entered
      during a write.
    - A store is its entries in memory and its status.  Key normalisation,
      groups, and the synchronisation with the backend (which is what sets
      the status) are outside the panel and outside the model.
    - A [QString] is a Rocq string; [toLatin1()] is the identity.

    The last part of the definitions embeds the builder of the default
    module search path, [ctkCmdLineModuleDefaultPathBuilder], over an
    explicit record of what it reads from the process environment and the
    file system. *)

From Stdlib Require Import ZArith String Ascii DecimalString.
From stdpp Require Import base option list sorting gmap strings.

Local Open Scope string_scope.

(** ** Effects

    The C++ mutates objects, the store and the registry in place, and a
    failed [Q_ASSERT] stops a debug build.  Code with effects is a function
    from a state to either [None] (stopped at a failed assertion) or a
    result and the next state. *)

Definition Eff (S A : Type) : Type := S → option (A * S).

#[global] Instance Eff_ret {S} : MRet (Eff S) := λ A (a : A) (s : S), Some (a, s).

#[global] Instance Eff_bind {S} : MBind (Eff S) :=
  λ A B (k : A → Eff S B) (m : Eff S A) (s : S),
    match m s with
    | Some (a, s') => k a s'
    | None => None
    end.

(** Run an effect for its final state only. *)
Definition exec {S A} (m : Eff S A) (s : S) : option S := snd <$> m s.

(** A sub-computation on a component of the state ([get] reads the
    component, [put] writes it back). *)
Definition zoom {S T A} (get : S → T) (put : T → S → S) (m : Eff T A) : Eff S A :=
  λ s, match m (get s) with
       | Some (a, t) => Some (a, put t s)
       | None => None
       end.

(** Reading the state, and a total step on it. *)
Definition getState {S} : Eff S S := λ s, Some (s, s).
Definition step {S A} (f : S → A * S) : Eff S A := λ s, Some (f s).

(** [Q_ASSERT(cond)]: nothing when the build defines [QT_NO_DEBUG];
    otherwise a false condition ends the program. *)
Definition Q_ASSERT {S} (QT_NO_DEBUG : bool) (cond : bool) : Eff S unit :=
  λ s, if QT_NO_DEBUG || cond then Some ((), s) else None.

(** [foreach(const QString& key, keys) body]. *)
Fixpoint foreach {S A} (l : list A) (body : A → Eff S unit) : Eff S unit :=
  match l with
  | [] => mret ()
  | x :: l' => body x ;; foreach l' body
  end.

(** ** The Qt collaborators *)

Module QVariant.

(** The variant types that occur as settings.  [Invalid] is the
    default-constructed [QVariant()].  [operator==] and [operator!=] are
    equality of the constructor and its payload. *)
Inductive t : Type :=
| Invalid
| Bool (b : bool)
| Int (n : Z)
| String (s : string)
| StringList (l : list string).

#[global] Instance eq_dec : EqDecision t.
Proof. solve_decision. Defined.

Definition isValid (v : t) : bool :=
  match v with Invalid => false | _ => true end.

(** [QVariant::typeName()]; the null pointer for an invalid variant. *)
Definition typeName (v : t) : option string :=
  match v with
  | Invalid => None
  | Bool _ => Some "bool"
  | Int _ => Some "int"
  | String _ => Some "QString"
  | StringList _ => Some "QStringList"
  end.

End QVariant.

Module QMetaProperty.

(** A declared ([Q_PROPERTY]) property: its name and the name of its type. *)
Record t : Type := mk { name : string; typeName : string }.

End QMetaProperty.

Module QObject.

(** A live object: the declared properties of its meta-object, in index
    order, and the current values of its declared and dynamic properties. *)
Record t : Type := mk {
  metaObject : list QMetaProperty.t;
  values : gmap string QVariant.t
}.

(** An object with no declared and no dynamic property. *)
Definition bare : t := mk [] ∅.

(** Objects live at addresses; a [QObject*] is [None] for the null
    pointer.  An address that holds nothing behaves as a bare object. *)
Definition ptr : Type := option positive.
Abbreviation heap := (gmap positive t).

Definition at_ (h : heap) (a : positive) : t := default bare (h !! a).

(** [metaObject()->indexOfProperty(name)], as the property found. *)
Definition findProperty (o : t) (name : string) : option QMetaProperty.t :=
  List.find (λ mp, String.eqb (QMetaProperty.name mp) name) (metaObject o).

(** A declared property takes a value of its own type; a property declared
    with type [QVariant] takes every variant. *)
Definition canWrite (typeName : string) (v : QVariant.t) : bool :=
  String.eqb typeName "QVariant" ||
  match QVariant.typeName v with
  | Some n => String.eqb n typeName
  | None => false
  end.

(** [object->property(name)]. *)
Definition property (h : heap) (a : positive) (name : string) : QVariant.t :=
  default QVariant.Invalid (values (at_ h a) !! name).

(** [object->setProperty(name, value)].  A declared property is written
    and [true] returned when the value fits its type; it is left alone and
    [false] returned when it does not.  A name the meta-object does not
    list is a dynamic property: a valid value sets it, an invalid one
    removes it, and [false] is returned either way. *)
Definition setProperty (a : positive) (name : string) (v : QVariant.t)
  : heap → bool * heap :=
  λ h,
    let o := at_ h a in
    match findProperty o name with
    | Some mp =>
        if canWrite (QMetaProperty.typeName mp) v
        then (true, <[a := mk (metaObject o) (<[name := v]> (values o))]> h)
        else (false, h)
    | None =>
        if QVariant.isValid v
        then (false, <[a := mk (metaObject o) (<[name := v]> (values o))]> h)
        else (false, <[a := mk (metaObject o) (delete name (values o))]> h)
    end.

End QObject.

Module QSettings.

(** [QSettings::Status]. *)
Inductive Status : Type := NoError | AccessError | FormatError.

#[global] Instance Status_eq_dec : EqDecision Status.
Proof. solve_decision. Defined.

(** [static_cast<int>(status)]. *)
Definition code (s : Status) : Z :=
  match s with NoError => 0 | AccessError => 1 | FormatError => 2 end.

(** A store: its entries and the first error it has met.  [setValue]
    changes the entries in memory; the status is set when the store is
    synchronised with its backend, which happens outside the panel. *)
Record t : Type := mk {
  entries : gmap string QVariant.t;
  status : Status
}.

Definition fresh : t := mk ∅ NoError.

(** Stores live at addresses; a [QSettings*] is [None] for the null
    pointer.  An address that holds nothing behaves as a fresh store. *)
Definition ptr : Type := option positive.
Abbreviation heap := (gmap positive t).

Definition at_ (h : heap) (a : positive) : t := default fresh (h !! a).

Definition contains (h : heap) (a : positive) (key : string) : bool :=
  bool_decide (is_Some (entries (at_ h a) !! key)).

Definition value (h : heap) (a : positive) (key : string) : QVariant.t :=
  default QVariant.Invalid (entries (at_ h a) !! key).

Definition setValue (a : positive) (key : string) (v : QVariant.t) (h : heap) : heap :=
  let s := at_ h a in
  <[a := mk (<[key := v]> (entries s)) (status s)]> h.

End QSettings.

(** ** [PropertyType]: one registry entry *)

Definition isEmpty (s : string) : bool :=
  match s with EmptyString => true | _ => false end.

Module PropertyType.

(** [ctkSettingsPanel::SettingOptions] is a set of flags, kept as the
    integer that holds them; [OptionNone] is no flag. *)
Definition OptionNone : Z := 0.

Record t : Type := mk {
  Object : QObject.ptr;
  Property : string;
  PreviousValue : QVariant.t;
  DefaultValue : QVariant.t;
  Label : string;
  Options : Z
}.

(** [PropertyType::PropertyType()]. *)
Definition new : t :=
  mk None "" QVariant.Invalid QVariant.Invalid "" OptionNone.

Definition setPreviousValue (v : QVariant.t) (p : t) : t :=
  mk (Object p) (Property p) v (DefaultValue p) (Label p) (Options p).

(** [PropertyType::value() const]. *)
Definition value (p : t) (h : QObject.heap) : QVariant.t :=
  match Object p with
  | None => QVariant.Invalid
  | Some o =>
      if isEmpty (Property p) then QVariant.Invalid
      else QObject.property h o (Property p)
  end.

Section Build.

Variable QT_NO_DEBUG : bool.

(** [PropertyType::metaProperty()]: the first declared property, in
    index order, whose name is [Property]; [None] is the invalid
    [QMetaProperty()]. *)
Definition metaProperty (p : t) : Eff QObject.heap (option QMetaProperty.t) :=
  Q_ASSERT QT_NO_DEBUG (bool_decide (is_Some (Object p))) ;;
  h ← getState;
  mret (match Object p with
        | None => None
        | Some o =>
            List.find (λ mp, String.eqb (QMetaProperty.name mp) (Property p))
                      (QObject.metaObject (QObject.at_ h o))
        end).

(** [qstrcmp(mp.typeName(), "QStringList") == 0]; the type name of the
    invalid meta-property is the null pointer, which compares unequal. *)
Definition isStringListType (mp : option QMetaProperty.t) : bool :=
  match mp with
  | Some m => String.eqb (QMetaProperty.typeName m) "QStringList"
  | None => false
  end.

(** [PropertyType::setValue(const QVariant&)]. *)
Definition setValue (p : t) (val : QVariant.t) : Eff QObject.heap bool :=
  match Object p with
  | Some o =>
      if isEmpty (Property p) then
        Q_ASSERT QT_NO_DEBUG false ;; mret false
      else
        mp ← metaProperty p;
        let value :=
          if isStringListType mp && negb (QVariant.isValid val)
          then QVariant.StringList []
          else val in
        success ← step (QObject.setProperty o (Property p) value);
        Q_ASSERT QT_NO_DEBUG success ;;
        mret success
  | None =>
      Q_ASSERT QT_NO_DEBUG false ;; mret false
  end.

End Build.

End PropertyType.

(** ** [ctkSettingsPanel] *)

(** [QString::operator<], the order of the keys of a [QMap]. *)
Definition QString_le (a b : string) : Prop := String.leb a b = true.

#[global] Instance QString_le_dec : RelDecision QString_le.
Proof. intros a b. unfold QString_le. apply _. Defined.

Module ctkSettingsPanel.

(** [ctkSettingsPanelPrivate]. *)
Record Private : Type := mkPrivate {
  Settings : QSettings.ptr;
  Properties : gmap string PropertyType.t;
  SaveToSettingsWhenRegister : bool
}.

(** [ctkSettingsPanelPrivate::ctkSettingsPanelPrivate]. *)
Definition newPrivate : Private := mkPrivate None ∅ true.

(** What the panel can see and change: its private data, the live
    objects, the stores, and what it has sent out: the
    [settingChanged(key, value)] emissions, the warnings of the logger and
    the (sender, signal, key) connections to [updateSetting], each oldest
    first. *)
Record World : Type := mkWorld {
  d : Private;
  objects : QObject.heap;
  stores : QSettings.heap;
  emitted : list (string * QVariant.t);
  warnings : list string;
  connections : list (QObject.ptr * string * string)
}.

Definition setSettingsPtr (s : QSettings.ptr) (w : World) : World :=
  mkWorld (mkPrivate s (Properties (d w)) (SaveToSettingsWhenRegister (d w)))
          (objects w) (stores w) (emitted w) (warnings w) (connections w).

Definition setProperties (m : gmap string PropertyType.t) (w : World) : World :=
  mkWorld (mkPrivate (Settings (d w)) m (SaveToSettingsWhenRegister (d w)))
          (objects w) (stores w) (emitted w) (warnings w) (connections w).

Definition setObjects (h : QObject.heap) (w : World) : World :=
  mkWorld (d w) h (stores w) (emitted w) (warnings w) (connections w).

Definition setStores (h : QSettings.heap) (w : World) : World :=
  mkWorld (d w) (objects w) h (emitted w) (warnings w) (connections w).

(** [emit settingChanged(key, value)]. *)
Definition settingChanged (key : string) (v : QVariant.t) : Eff World unit :=
  λ w, Some ((), mkWorld (d w) (objects w) (stores w)
                         (emitted w ++ [(key, v)]) (warnings w) (connections w)).

(** [logger.warn(message)]. *)
Definition warn (msg : string) : Eff World unit :=
  λ w, Some ((), mkWorld (d w) (objects w) (stores w)
                         (emitted w) (warnings w ++ [msg]) (connections w)).

(** [connect(object, signal, signalMapper, SLOT(map()))] with
    [signalMapper->setMapping(object, key)]. *)
Definition connect (o : QObject.ptr) (signal key : string) : Eff World unit :=
  λ w, Some ((), mkWorld (d w) (objects w) (stores w)
                         (emitted w) (warnings w) (connections w ++ [(o, signal, key)])).

Definition gets {A} (f : World → A) : Eff World A := λ w, Some (f w, w).
Definition modify (f : World → World) : Eff World unit := λ w, Some ((), f w).

(** A method of a [PropertyType] run on the live objects. *)
Definition onObjects {A} (m : Eff QObject.heap A) : Eff World A :=
  zoom objects setObjects m.

(** [d->Properties.keys()]: the keys in ascending order. *)
Definition keys (m : gmap string PropertyType.t) : list string :=
  merge_sort QString_le (map_to_list m).*1.

(** [d->Properties[key]] on the non-const map: the entry of [key], which
    is first inserted, default-constructed, when the map has none. *)
Definition index (key : string) : Eff World PropertyType.t :=
  λ w, match Properties (d w) !! key with
       | Some p => Some (p, w)
       | None => Some (PropertyType.new,
                       setProperties (<[key := PropertyType.new]> (Properties (d w))) w)
       end.

(** [d->Properties[key]] on the const map, and [d->Properties.value(key)]:
    the entry of [key] or a default-constructed one; nothing is inserted. *)
Definition constIndex (m : gmap string PropertyType.t) (key : string) : PropertyType.t :=
  default PropertyType.new (m !! key).

(** Assignment through the reference [PropertyType& prop = d->Properties[key]]. *)
Definition assign (key : string) (p : PropertyType.t) : Eff World unit :=
  modify (λ w, setProperties (<[key := p]> (Properties (d w))) w).

(** The text the two [arg] calls make of the warning template: the status
    as a decimal integer for [%1], the key for [%2], which the template
    puts between double quotes. *)
Definition quote : string := String (ascii_of_nat 34) EmptyString.

Definition decimal (n : Z) : string := NilZero.string_of_int (Z.to_int n).

Definition writeError (status : QSettings.Status) (key : string) : string :=
  "Error #" ++ decimal (QSettings.code status) ++ " while writing setting "
    ++ quote ++ key ++ quote.

Section Build.

Variable QT_NO_DEBUG : bool.

(** [ctkSettingsPanel::setSetting]. *)
Definition setSetting (key : string) (newVal : QVariant.t) : Eff World unit :=
  settings ← gets (λ w, Settings (d w));
  match settings with
  | None => mret ()
  | Some s =>
      oldVal ← gets (λ w, QSettings.value (stores w) s key);
      modify (λ w, setStores (QSettings.setValue s key newVal (stores w)) w) ;;
      prop ← index key;
      onObjects (PropertyType.setValue QT_NO_DEBUG prop newVal) ;;
      status ← gets (λ w, QSettings.status (QSettings.at_ (stores w) s));
      (if decide (status ≠ QSettings.NoError)
       then warn (writeError status key)
       else mret ()) ;;
      if decide (oldVal ≠ newVal)
      then settingChanged key newVal
      else mret ()
  end.

(** [ctkSettingsPanel::updateSetting]. *)
Definition updateSetting (key : string) : Eff World unit :=
  settings ← gets (λ w, Settings (d w));
  match settings with
  | None => mret ()
  | Some _ =>
      prop ← index key;
      v ← gets (λ w, PropertyType.value prop (objects w));
      setSetting key v
  end.

(** [ctkSettingsPanel::updateProperties]. *)
Definition updateProperties : Eff World unit :=
  settings ← gets (λ w, Settings (d w));
  match settings with
  | None => mret ()
  | Some s =>
      ks ← gets (λ w, keys (Properties (d w)));
      foreach ks (λ key,
        has ← gets (λ w, QSettings.contains (stores w) s key);
        if has : bool then
          value ← gets (λ w, QSettings.value (stores w) s key);
          prop ← index key;
          onObjects (PropertyType.setValue QT_NO_DEBUG prop value) ;;
          assign key (PropertyType.setPreviousValue value prop)
        else
          updateSetting key)
  end.

(** [ctkSettingsPanel::setSettings]. *)
Definition setSettings (settings : QSettings.ptr) : Eff World unit :=
  current ← gets (λ w, Settings (d w));
  if decide (current = settings) then mret ()
  else
    modify (setSettingsPtr settings) ;;
    updateProperties.

(** [ctkSettingsPanel::registerProperty]. *)
Definition registerProperty (key : string) (object : QObject.ptr)
    (property signal label : string) (options : Z) : Eff World unit :=
  live ← gets (λ w, PropertyType.value
                      (PropertyType.mk object property QVariant.Invalid
                         QVariant.Invalid "" PropertyType.OptionNone)
                      (objects w));
  let prop := PropertyType.mk object property live live label options in
  settings ← gets (λ w, Settings (d w));
  prop ← match settings with
         | Some s =>
             has ← gets (λ w, QSettings.contains (stores w) s key);
             if has : bool then
               val ← gets (λ w, QSettings.value (stores w) s key);
               onObjects (PropertyType.setValue QT_NO_DEBUG prop val) ;;
               mret (PropertyType.setPreviousValue val prop)
             else mret prop
         | None => mret prop
         end;
  assign key prop ;;
  connect object signal key ;;
  save ← gets (λ w, SaveToSettingsWhenRegister (d w));
  if save : bool then updateSetting key else mret ().

(** [ctkSettingsPanel::resetSettings]. *)
Definition resetSettings : Eff World unit :=
  ks ← gets (λ w, keys (Properties (d w)));
  foreach ks (λ key,
    prop ← index key;
    setSetting key (PropertyType.PreviousValue prop)).

(** [ctkSettingsPanel::restoreDefaultSettings]. *)
Definition restoreDefaultSettings : Eff World unit :=
  ks ← gets (λ w, keys (Properties (d w)));
  foreach ks (λ key,
    prop ← index key;
    setSetting key (PropertyType.DefaultValue prop)).

End Build.

(** [ctkSettingsPanel::applySettings]. *)
Definition applySettings : Eff World unit :=
  ks ← gets (λ w, keys (Properties (d w)));
  foreach ks (λ key,
    prop ← index key;
    v ← gets (λ w, PropertyType.value prop (objects w));
    assign key (PropertyType.setPreviousValue v prop)).

(** [ctkSettingsPanel::defaultPropertyValue]. *)
Definition defaultPropertyValue (key : string) (w : World) : QVariant.t :=
  if bool_decide (is_Some (Properties (d w) !! key))
  then PropertyType.DefaultValue (constIndex (Properties (d w)) key)
  else QVariant.Invalid.

(** [ctkSettingsPanel::previousPropertyValue]. *)
Definition previousPropertyValue (key : string) (w : World) : QVariant.t :=
  if bool_decide (is_Some (Properties (d w) !! key))
  then PropertyType.PreviousValue (constIndex (Properties (d w)) key)
  else QVariant.Invalid.

(** [ctkSettingsPanel::propertyValue]. *)
Definition propertyValue (key : string) (w : World) : QVariant.t :=
  if bool_decide (is_Some (Properties (d w) !! key))
  then PropertyType.value (constIndex (Properties (d w)) key) (objects w)
  else QVariant.Invalid.

(** [ctkSettingsPanel::changedSettings]. *)
Definition changedSettings (w : World) : list string :=
  List.filter
    (λ key, let prop := constIndex (Properties (d w)) key in
            bool_decide (PropertyType.PreviousValue prop
                           ≠ PropertyType.value prop (objects w)))
    (keys (Properties (d w))).

(** [ctkSettingsPanel::settingLabel] and [ctkSettingsPanel::settingOptions]. *)
Definition settingLabel (key : string) (w : World) : string :=
  PropertyType.Label (constIndex (Properties (d w)) key).

Definition settingOptions (key : string) (w : World) : Z :=
  PropertyType.Options (constIndex (Properties (d w)) key).

(** [ctkSettingsPanel::settings]. *)
Definition settings (w : World) : QSettings.ptr := Settings (d w).

(** A panel just constructed, in a world of given objects and stores. *)
Definition newWorld (objs : QObject.heap) (sts : QSettings.heap) : World :=
  mkWorld newPrivate objs sts [] [] [].

End ctkSettingsPanel.

(** ** Notions used in the statements *)

Import ctkSettingsPanel.

(** The entry of a key once [applySettings] has committed it. *)
Definition committed (h : QObject.heap) (p : PropertyType.t) : PropertyType.t :=
  PropertyType.setPreviousValue (PropertyType.value p h) p.

(** The target of an entry takes the value as it is: the entry points at a
    live object, names a property the object declares, and the value fits
    the declared type. *)
Definition accepts (h : QObject.heap) (p : PropertyType.t) (v : QVariant.t) : bool :=
  match PropertyType.Object p with
  | Some o =>
      negb (isEmpty (PropertyType.Property p)) &&
      match QObject.findProperty (QObject.at_ h o) (PropertyType.Property p) with
      | Some mp => QObject.canWrite (QMetaProperty.typeName mp) v
      | None => false
      end
  | None => false
  end.

(** Two entries that track the same property of the same object. *)
Definition sameTarget (p q : PropertyType.t) : Prop :=
  PropertyType.Object p = PropertyType.Object q
  ∧ PropertyType.Property p = PropertyType.Property q.

#[global] Instance sameTarget_dec p q : Decision (sameTarget p q).
Proof. unfold sameTarget. apply _. Defined.

(** ** A concrete panel, for the examples

    One widget at address 1 with an [int] property [fontSize], now 12, and a
    [QStringList] property [paths], now the one path [/usr/lib]; one store at
    address 1, empty and without error. *)

Definition demoWidget : QObject.t :=
  QObject.mk [QMetaProperty.mk "fontSize" "int"; QMetaProperty.mk "paths" "QStringList"]
             (<["fontSize" := QVariant.Int 12]>
                (<["paths" := QVariant.StringList ["/usr/lib"]]> ∅)).

Definition demoObjects : QObject.heap := <[1%positive := demoWidget]> ∅.

Definition demoPaths : PropertyType.t :=
  PropertyType.mk (Some 1%positive) "paths" (QVariant.StringList ["/usr/lib"])
                  (QVariant.StringList ["/usr/lib"]) "Paths" PropertyType.OptionNone.

Definition demoFontSize : PropertyType.t :=
  PropertyType.mk (Some 1%positive) "fontSize" (QVariant.Int 12)
                  (QVariant.Int 12) "Font size" PropertyType.OptionNone.

(** Running a sequence of panel calls from a state; [None] once a call has
    stopped at a failed assertion. *)
Definition run (m : Eff World unit) (w : option World) : option World :=
  w ≫= exec m.

(** The registry after [d->Properties[key]] has been evaluated. *)
Definition touched (key : string) (m : gmap string PropertyType.t)
  : gmap string PropertyType.t :=
  match m !! key with
  | Some _ => m
  | None => <[key := PropertyType.new]> m
  end.

(** The state a completed [setSetting(key, newVal)] leaves, given the store
    [s] that is attached and the objects [h'] that the write to the target
    has left. *)
Definition afterSetSetting (s : positive) (key : string) (newVal : QVariant.t)
    (h' : QObject.heap) (w : World) : World :=
  mkWorld
    (mkPrivate (Settings (d w)) (touched key (Properties (d w)))
               (SaveToSettingsWhenRegister (d w)))
    h'
    (QSettings.setValue s key newVal (stores w))
    (emitted w ++ (if decide (QSettings.value (stores w) s key ≠ newVal)
                   then [(key, newVal)] else []))
    (warnings w ++ (if decide (QSettings.status (QSettings.at_ (stores w) s)
                                 ≠ QSettings.NoError)
                    then [writeError (QSettings.status (QSettings.at_ (stores w) s)) key]
                    else []))
    (connections w).

(** The demonstration panel once the store at address 1 is attached and
    [fontSize] registered under the key of the same name. *)
Definition demoRegistered : World :=
  mkWorld
    (mkPrivate (Some 1%positive) (<["fontSize" := demoFontSize]> ∅) true)
    demoObjects
    (<[1%positive := QSettings.mk (<["fontSize" := QVariant.Int 12]> ∅) QSettings.NoError]> ∅)
    [("fontSize", QVariant.Int 12)]
    []
    [(Some 1%positive, "valueChanged(int)", "fontSize")].

(** The same panel when its store has met an access error. *)
Definition demoFailing : World :=
  setStores
    (<[1%positive := QSettings.mk (<["fontSize" := QVariant.Int 12]> ∅)
                                  QSettings.AccessError]> ∅)
    demoRegistered.

(** The panel after [setSetting("fontSize", 14)] and [setSettings(0)]: the
    live value is 14, the recorded previous value 12, no store attached. *)
Definition demoDetached : World :=
  mkWorld
    (mkPrivate None (<["fontSize" := demoFontSize]> ∅) true)
    (<[1%positive := QObject.mk (QObject.metaObject demoWidget)
                       (<["fontSize" := QVariant.Int 14]> (QObject.values demoWidget))]> ∅)
    (<[1%positive := QSettings.mk (<["fontSize" := QVariant.Int 14]> ∅) QSettings.NoError]> ∅)
    [("fontSize", QVariant.Int 12); ("fontSize", QVariant.Int 14)]
    []
    [(Some 1%positive, "valueChanged(int)", "fontSize")].

(** The panel after [setSetting("fontSize", 14)] and a registration of the
    same property of the same widget under the second key [size]: two keys
    track one property, with recorded previous values 12 and 14. *)
Definition demoShared : World :=
  mkWorld
    (mkPrivate (Some 1%positive)
       (<["fontSize" := demoFontSize]>
          (<["size" := PropertyType.mk (Some 1%positive) "fontSize" (QVariant.Int 14)
                         (QVariant.Int 14) "Size" PropertyType.OptionNone]> ∅))
       true)
    (<[1%positive := QObject.mk (QObject.metaObject demoWidget)
                       (<["fontSize" := QVariant.Int 14]> (QObject.values demoWidget))]> ∅)
    (<[1%positive := QSettings.mk (<["fontSize" := QVariant.Int 14]>
                                     (<["size" := QVariant.Int 14]> ∅))
                                  QSettings.NoError]> ∅)
    [("fontSize", QVariant.Int 12); ("fontSize", QVariant.Int 14); ("size", QVariant.Int 14)]
    []
    [(Some 1%positive, "valueChanged(int)", "fontSize");
     (Some 1%positive, "valueChanged(int)", "size")].

(** A store that holds the invalid variant for the key [paths], and the
    panel after that store is attached and [paths] registered: the live
    value is the empty list, the recorded previous value the invalid
    variant. *)
Definition unsetPathsStore : QSettings.heap :=
  <[1%positive := QSettings.mk (<["paths" := QVariant.Invalid]> ∅) QSettings.NoError]> ∅.

Definition demoUnsetPaths : World :=
  mkWorld
    (mkPrivate (Some 1%positive)
       (<["paths" := PropertyType.mk (Some 1%positive) "paths" QVariant.Invalid
                       (QVariant.StringList ["/usr/lib"]) "Paths"
                       PropertyType.OptionNone]> ∅)
       true)
    (<[1%positive := QObject.mk (QObject.metaObject demoWidget)
                       (<["paths" := QVariant.StringList []]> (QObject.values demoWidget))]> ∅)
    (<[1%positive := QSettings.mk (<["paths" := QVariant.StringList []]> ∅)
                                  QSettings.NoError]> ∅)
    [("paths", QVariant.StringList [])]
    []
    [(Some 1%positive, "pathsChanged()", "paths")].

(** The entry [registerProperty] builds before it looks at the store: the
    live value of the target is both its default and its previous value. *)
Definition freshEntry (object : QObject.ptr) (property label : string) (options : Z)
    (h : QObject.heap) : PropertyType.t :=
  let live := PropertyType.value
                (PropertyType.mk object property QVariant.Invalid QVariant.Invalid
                                 "" PropertyType.OptionNone) h in
  PropertyType.mk object property live live label options.

(** The state of [registerProperty] when it reaches its last statement, the
    call of [updateSetting] under [SaveToSettingsWhenRegister]: the entry
    [prop] is in the registry, the objects are [h1], the connection is made. *)
Definition registeredWorld (key : string) (object : QObject.ptr) (signal : string)
    (prop : PropertyType.t) (h1 : QObject.heap) (w : World) : World :=
  mkWorld
    (mkPrivate (Settings (d w)) (<[key := prop]> (Properties (d w)))
               (SaveToSettingsWhenRegister (d w)))
    h1 (stores w) (emitted w) (warnings w)
    (connections w ++ [(object, signal, key)]).

(** A store with a value for [fontSize] before the widget is registered. *)
Definition savedFontSizeStore : QSettings.heap :=
  <[1%positive := QSettings.mk (<["fontSize" := QVariant.Int 18]> ∅) QSettings.NoError]> ∅.

Definition demoSaved : World :=
  setSettingsPtr (Some 1%positive) (newWorld demoObjects savedFontSizeStore).

(** ** The calls of the panel

    The public operations that change state, as a datatype, so that a
    statement can range over "any operation". *)

Inductive Operation : Type :=
| CallSetSettings (settings : QSettings.ptr)
| CallUpdateProperties
| CallUpdateSetting (key : string)
| CallSetSetting (key : string) (newVal : QVariant.t)
| CallRegisterProperty (key : string) (object : QObject.ptr)
                       (property signal label : string) (options : Z)
| CallApplySettings
| CallResetSettings
| CallRestoreDefaultSettings.

Definition call (QT_NO_DEBUG : bool) (op : Operation) : Eff World unit :=
  match op with
  | CallSetSettings s => setSettings QT_NO_DEBUG s
  | CallUpdateProperties => updateProperties QT_NO_DEBUG
  | CallUpdateSetting key => updateSetting QT_NO_DEBUG key
  | CallSetSetting key newVal => setSetting QT_NO_DEBUG key newVal
  | CallRegisterProperty key object property signal label options =>
      registerProperty QT_NO_DEBUG key object property signal label options
  | CallApplySettings => applySettings
  | CallResetSettings => resetSettings QT_NO_DEBUG
  | CallRestoreDefaultSettings => restoreDefaultSettings QT_NO_DEBUG
  end.

(** The default value of [key] that a completed call leaves, given the
    state [w] it started from: a registration of [key] captures the live
    value of the property it is given; every other call keeps what there is. *)
Definition defaultAfter (op : Operation) (key : string) (w : World) : QVariant.t :=
  match op with
  | CallRegisterProperty key' object property _ label options =>
      if decide (key = key')
      then PropertyType.value (freshEntry object property label options (objects w))
                              (objects w)
      else defaultPropertyValue key w
  | _ => defaultPropertyValue key w
  end.

(** Two states with the same default value for every key. *)
Definition sameDefaults (w w' : World) : Prop :=
  ∀ key, defaultPropertyValue key w' = defaultPropertyValue key w.

(** One round of the loop of [updateProperties], for the attached store [s]. *)
Definition updateOne (QT_NO_DEBUG : bool) (s : positive) (key : string) : Eff World unit :=
  has ← gets (λ w, QSettings.contains (stores w) s key);
  if has : bool then
    value ← gets (λ w, QSettings.value (stores w) s key);
    prop ← index key;
    onObjects (PropertyType.setValue QT_NO_DEBUG prop value) ;;
    assign key (PropertyType.setPreviousValue value prop)
  else
    updateSetting QT_NO_DEBUG key.

(** The entries of the store at address [s]. *)
Definition storeEntries (w : World) (s : positive) : gmap string QVariant.t :=
  QSettings.entries (QSettings.at_ (stores w) s).

(** What every completed [updateProperties] has done for the registered
    [key] with entry [p], from state [w] to state [w'], for the attached
    store [s]: a value the store held is kept there and is the recorded
    previous value; a key the store did not hold has been given a value and
    keeps its recorded previous value. *)
Definition recorded (s : positive) (key : string) (p : PropertyType.t)
    (w w' : World) : Prop :=
  match storeEntries w s !! key with
  | Some val =>
      previousPropertyValue key w' = val ∧ storeEntries w' s !! key = Some val
  | None =>
      previousPropertyValue key w' = PropertyType.PreviousValue p
      ∧ is_Some (storeEntries w' s !! key)
  end.

(** The invariant of the loop of [updateProperties] once the keys [done]
    have been handled, from the state [w] the loop started in. *)
Definition updating (s : positive) (w : World) (done : list string) (u : World) : Prop :=
  Settings (d u) = Some s
  ∧ (∀ k, is_Some (Properties (d u) !! k) ↔ is_Some (Properties (d w) !! k))
  ∧ (∀ k, previousPropertyValue k u
          = if decide (k ∈ done)
            then default (previousPropertyValue k w) (storeEntries w s !! k)
            else previousPropertyValue k w)
  ∧ (∀ k val, storeEntries w s !! k = Some val → storeEntries u s !! k = Some val)
  ∧ (∀ k, storeEntries w s !! k = None →
          if decide (k ∈ done) then is_Some (storeEntries u s !! k)
          else storeEntries u s !! k = None).

(** ** The elementary state changes of the panel

    Every operation is a sequence of the state changes below; they are named
    so that a statement about all operations can be proved change by
    change. *)

(** The state [applySettings] leaves: every entry has its live value as
    previous value. *)
Definition appliedWorld (w : World) : World :=
  mkWorld
    (mkPrivate (Settings (d w)) (committed (objects w) <$> Properties (d w))
               (SaveToSettingsWhenRegister (d w)))
    (objects w) (stores w) (emitted w) (warnings w) (connections w).

(** The state one round of [updateProperties] leaves for a key the store
    holds: the objects are [h'], the stored value is the previous value. *)
Definition pulledWorld (s : positive) (key : string) (h' : QObject.heap) (w : World)
  : World :=
  setProperties
    (<[key := PropertyType.setPreviousValue (QSettings.value (stores w) s key)
                (constIndex (Properties (d w)) key)]> (Properties (d w)))
    (setObjects h' w).

(** The first half of [registerProperty]: the entry it is about to assign
    and the objects after the stored value, if there is one, has been
    written to the target; [None] when that write stops at an assertion. *)
Definition registerStage (QT_NO_DEBUG : bool) (key : string) (object : QObject.ptr)
    (property label : string) (options : Z) (w : World)
  : option (PropertyType.t * QObject.heap) :=
  let prop := freshEntry object property label options (objects w) in
  match Settings (d w) with
  | Some s =>
      if QSettings.contains (stores w) s key then
        match PropertyType.setValue QT_NO_DEBUG prop
                (QSettings.value (stores w) s key) (objects w) with
        | Some (_, h1) =>
            Some (PropertyType.setPreviousValue (QSettings.value (stores w) s key) prop, h1)
        | None => None
        end
      else Some (prop, objects w)
  | None => Some (prop, objects w)
  end.

(** The store pointer a completed call leaves. *)
Definition settingsAfter (op : Operation) (w : World) : QSettings.ptr :=
  match op with
  | CallSetSettings s => s
  | _ => Settings (d w)
  end.

(** An entry tracks the property [n] of the object at [a]. *)
Definition tracks (p : PropertyType.t) (a : positive) (n : string) : Prop :=
  PropertyType.Object p = Some a ∧ PropertyType.Property p = n.

(** What a registration fixes for an entry, and only a registration can
    change: the target, the label and the options. *)
Definition binding (p : PropertyType.t) : QObject.ptr * string * string * Z :=
  (PropertyType.Object p, PropertyType.Property p,
   PropertyType.Label p, PropertyType.Options p).

(** The binding of [key] that a completed call leaves. *)
Definition bindingAfter (op : Operation) (key : string) (w : World)
  : QObject.ptr * string * string * Z :=
  match op with
  | CallRegisterProperty key' object property _ label options =>
      if decide (key = key') then (object, property, label, options)
      else binding (constIndex (Properties (d w)) key)
  | _ => binding (constIndex (Properties (d w)) key)
  end.

(** The operations that save or restore settings and need a store. *)
Definition needsStore (op : Operation) : bool :=
  match op with
  | CallUpdateProperties | CallUpdateSetting _ | CallSetSetting _ _
  | CallResetSettings | CallRestoreDefaultSettings => true
  | _ => false
  end.

(** The operations that go through [setSetting] only. *)
Definition savesOnly (op : Operation) : bool :=
  match op with
  | CallUpdateSetting _ | CallSetSetting _ _
  | CallResetSettings | CallRestoreDefaultSettings => true
  | _ => false
  end.

(** ** Relations between the state before and after a call *)

(** No registered key is lost. *)
Definition registryKept (w w' : World) : Prop :=
  ∀ key, is_Some (Properties (d w) !! key) → is_Some (Properties (d w') !! key).

(** The binding of [key] is the same. *)
Definition sameBinding (key : string) (w w' : World) : Prop :=
  binding (constIndex (Properties (d w')) key) = binding (constIndex (Properties (d w)) key).

(** The same store is attached. *)
Definition sameSettings (w w' : World) : Prop := Settings (d w') = Settings (d w).

(** Every key has the same entry, where a key without entry counts as
    having the default-constructed one. *)
Definition sameEntries (w w' : World) : Prop :=
  ∀ key, constIndex (Properties (d w')) key = constIndex (Properties (d w)) key.

(** No store is in an error state. *)
Definition noStoreError (w : World) : Prop :=
  ∀ a, QSettings.status (QSettings.at_ (stores w) a) = QSettings.NoError.

(** Without a store in an error state nothing has been logged. *)
Definition quiet (w w' : World) : Prop :=
  noStoreError w → noStoreError w' ∧ warnings w' = warnings w.

(** The same store is attached and, unless it is the one at [a], the store
    at [a] is the same. *)
Definition otherStoreKept (a : positive) (w w' : World) : Prop :=
  Settings (d w') = Settings (d w)
  ∧ (Settings (d w) ≠ Some a → stores w' !! a = stores w !! a).

(** No entry of the registry tracks the property [n] of the object at [a]. *)
Definition untracked (a : positive) (n : string) (w : World) : Prop :=
  ∀ key p, Properties (d w) !! key = Some p → ¬ tracks p a n.

(** A property that is not tracked stays untracked and keeps its value. *)
Definition untouched (a : positive) (n : string) (w w' : World) : Prop :=
  untracked a n w →
  untracked a n w'
  ∧ QObject.property (objects w') a n = QObject.property (objects w) a n.

(** The call registers the property [n] of the object at [a]. *)
Definition registersTarget (op : Operation) (a : positive) (n : string) : Prop :=
  match op with
  | CallRegisterProperty _ object property _ _ _ => object = Some a ∧ property = n
  | _ => False
  end.

(** The invariant of the loops of [resetSettings] and
    [restoreDefaultSettings], which call [setSetting(key, pick(entry))] for
    every key, once the keys [done] have been handled from the state [w]:
    the registry and the meta-objects are those of [w], the keys handled
    have the picked value in their property and in the store [s], the keys
    not yet handled have the stored value they had, and nothing has been
    emitted if the store held the picked value for every key. *)
Definition restoring (pick : PropertyType.t → QVariant.t) (s : positive) (w : World)
    (done : list string) (u : World) : Prop :=
  Properties (d u) = Properties (d w)
  ∧ Settings (d u) = Some s
  ∧ (∀ a, QObject.metaObject (QObject.at_ (objects u) a)
          = QObject.metaObject (QObject.at_ (objects w) a))
  ∧ (∀ k p, Properties (d w) !! k = Some p → k ∈ done →
            PropertyType.value p (objects u) = pick p
            ∧ QSettings.value (stores u) s k = pick p)
  ∧ (∀ k, k ∉ done → QSettings.value (stores u) s k = QSettings.value (stores w) s k)
  ∧ ((∀ k p, Properties (d w) !! k = Some p → QSettings.value (stores w) s k = pick p) →
     emitted u = emitted w).

(** Every registered key tracks a property that accepts the value picked
    from its entry, and no two keys track the same property. *)
Definition restorable (pick : PropertyType.t → QVariant.t) (w : World) : Prop :=
  (∀ key p, Properties (d w) !! key = Some p → accepts (objects w) p (pick p) = true)
  ∧ (∀ k1 k2 p1 p2, Properties (d w) !! k1 = Some p1 →
                    Properties (d w) !! k2 = Some p2 →
                    sameTarget p1 p2 → k1 = k2).

(** ** What goes to the property and to the store *)

(** The value [PropertyType::setValue(val)] hands to [setProperty] for the
    entry [p]: the empty string list in place of an invalid value when the
    meta-property of the entry has type [QStringList], and [val] itself
    otherwise. *)
Definition handedOver (h : QObject.heap) (p : PropertyType.t) (val : QVariant.t)
  : QVariant.t :=
  match PropertyType.Object p with
  | Some o =>
      if PropertyType.isStringListType
           (QObject.findProperty (QObject.at_ h o) (PropertyType.Property p))
         && negb (QVariant.isValid val)
      then QVariant.StringList []
      else val
  | None => val
  end.

(** What a round of [updateProperties] hands to the property of [key]: the
    stored value, through [setValue], when the store [s] holds one, and the
    live value of the property otherwise. *)
Definition pushed (s : positive) (w : World) (key : string) (p : PropertyType.t)
  : QVariant.t :=
  match storeEntries w s !! key with
  | Some val => handedOver (objects w) p val
  | None => PropertyType.value p (objects w)
  end.

(** The value the store holds for [key] after the round: the one it held,
    or the live value of the property. *)
Definition savedValue (s : positive) (w : World) (key : string) (p : PropertyType.t)
  : QVariant.t :=
  match storeEntries w s !! key with
  | Some val => val
  | None => PropertyType.value p (objects w)
  end.

(** The entry of [key] after the round: the stored value, when there is
    one, is its previous value. *)
Definition recordedEntry (s : positive) (w : World) (key : string) (p : PropertyType.t)
  : PropertyType.t :=
  match storeEntries w s !! key with
  | Some val => PropertyType.setPreviousValue val p
  | None => p
  end.

(** The registered [key] with entry [p] is synchronised with the store [s]
    in [w'], coming from [w].  When the store held a value: the live value
    is that value as [setValue] hands it over, the recorded previous value
    is the stored value, and the store still holds it.  When it did not: the
    live value is what it was and is now the stored value, and the recorded
    previous value is what it was. *)
Definition synchronised (s : positive) (key : string) (p : PropertyType.t)
    (w w' : World) : Prop :=
  match storeEntries w s !! key with
  | Some val =>
      propertyValue key w' = handedOver (objects w) p val
      ∧ previousPropertyValue key w' = val
      ∧ storeEntries w' s !! key = Some val
  | None =>
      propertyValue key w' = propertyValue key w
      ∧ previousPropertyValue key w' = PropertyType.PreviousValue p
      ∧ storeEntries w' s !! key = Some (propertyValue key w)
  end.

(** The store [s] can be attached to the registry of [w]: every registered
    key tracks a property that accepts what the round of the key hands to
    it, and no two keys track the same property. *)
Definition attachable (s : positive) (w : World) : Prop :=
  (∀ key p, Properties (d w) !! key = Some p →
            accepts (objects w) p (pushed s w key p) = true)
  ∧ (∀ k1 k2 p1 p2, Properties (d w) !! k1 = Some p1 →
                    Properties (d w) !! k2 = Some p2 →
                    sameTarget p1 p2 → k1 = k2).

(** The invariant of the loop of [updateProperties] over an attachable
    registry, once the keys [done] have been handled from the state [w]. *)
Definition attaching (s : positive) (w : World) (done : list string) (u : World) : Prop :=
  Settings (d u) = Some s
  ∧ (∀ a, QObject.metaObject (QObject.at_ (objects u) a)
          = QObject.metaObject (QObject.at_ (objects w) a))
  ∧ (∀ k, Properties (d u) !! k
          = (λ p, if decide (k ∈ done) then recordedEntry s w k p else p)
              <$> Properties (d w) !! k)
  ∧ (∀ k p, Properties (d w) !! k = Some p →
            PropertyType.value p (objects u)
            = if decide (k ∈ done) then pushed s w k p
              else PropertyType.value p (objects w))
  ∧ (∀ k p, Properties (d w) !! k = Some p → k ∈ done →
            storeEntries u s !! k = Some (savedValue s w k p))
  ∧ (∀ k, k ∉ done → storeEntries u s !! k = storeEntries w s !! k).

(** The state [w] with the status of the store at [s] replaced. *)
Definition withStatus (status : QSettings.Status) (s : positive) (w : World) : World :=
  setStores (<[s := QSettings.mk (storeEntries w s) status]> (stores w)) w.

(** [static_cast<int>(status)] in decimal. *)
Definition statusDigits (status : QSettings.Status) : string :=
  match status with
  | QSettings.NoError => "0"
  | QSettings.AccessError => "1"
  | QSettings.FormatError => "2"
  end.

(** ** More states of the demonstration panel *)

(** The store that holds the invalid variant for [paths] is attached and
    nothing is registered yet. *)
Definition demoUnsetPathsAttached : World :=
  setSettingsPtr (Some 1%positive) (newWorld demoObjects unsetPathsStore).

(** [demoUnsetPaths] when its store has met an access error. *)
Definition demoUnsetPathsFailing : World :=
  setStores
    (<[1%positive := QSettings.mk (<["paths" := QVariant.StringList []]> ∅)
                                  QSettings.AccessError]> ∅)
    demoUnsetPaths.

(** Both properties of the widget registered with the store attached, then
    changed with [setSetting]: the font size from 12 to 14, the paths from
    [/usr/lib] to [/opt/ctk]. *)
Definition demoTwoChanged : World :=
  mkWorld
    (mkPrivate (Some 1%positive)
       (<["fontSize" := demoFontSize]> (<["paths" := demoPaths]> ∅)) true)
    (<[1%positive := QObject.mk (QObject.metaObject demoWidget)
                       (<["fontSize" := QVariant.Int 14]>
                          (<["paths" := QVariant.StringList ["/opt/ctk"]]> ∅))]> ∅)
    (<[1%positive := QSettings.mk
                       (<["fontSize" := QVariant.Int 14]>
                          (<["paths" := QVariant.StringList ["/opt/ctk"]]> ∅))
                       QSettings.NoError]> ∅)
    [("fontSize", QVariant.Int 12); ("paths", QVariant.StringList ["/usr/lib"]);
     ("fontSize", QVariant.Int 14); ("paths", QVariant.StringList ["/opt/ctk"])]
    []
    [(Some 1%positive, "valueChanged(int)", "fontSize");
     (Some 1%positive, "pathsChanged()", "paths")].

(** Both properties registered while no store is attached; the store at
    address 1 holds 18 for [fontSize] and nothing for [paths]. *)
Definition demoTwoDetached : World :=
  mkWorld
    (mkPrivate None (<["fontSize" := demoFontSize]> (<["paths" := demoPaths]> ∅)) true)
    demoObjects savedFontSizeStore [] []
    [(Some 1%positive, "valueChanged(int)", "fontSize");
     (Some 1%positive, "pathsChanged()", "paths")].

(** [paths] registered while no store is attached; the store at address 1
    holds the invalid variant for [paths]. *)
Definition demoPathsDetached : World :=
  mkWorld
    (mkPrivate None (<["paths" := demoPaths]> ∅) true)
    demoObjects unsetPathsStore [] []
    [(Some 1%positive, "pathsChanged()", "paths")].

(** The font size registered under the two keys [fontSize] and [size] while
    no store is attached; the store at address 1 holds 18 for the first key
    and 20 for the second. *)
Definition twoSizesStore : QSettings.heap :=
  <[1%positive := QSettings.mk (<["fontSize" := QVariant.Int 18]>
                                  (<["size" := QVariant.Int 20]> ∅))
                               QSettings.NoError]> ∅.

Definition demoSharedDetached : World :=
  mkWorld
    (mkPrivate None
       (<["fontSize" := demoFontSize]>
          (<["size" := PropertyType.mk (Some 1%positive) "fontSize" (QVariant.Int 12)
                         (QVariant.Int 12) "Size" PropertyType.OptionNone]> ∅))
       true)
    demoObjects twoSizesStore [] []
    [(Some 1%positive, "valueChanged(int)", "fontSize");
     (Some 1%positive, "valueChanged(int)", "size")].

(** * [ctkCmdLineModuleDefaultPathBuilder]

    The builder of the list of directories in which command line modules
    are looked for.  What it reads from the process and the file system is
    gathered in an [Environment]. *)

Module ctkCmdLineModuleDefaultPathBuilder.

(** What [build()] asks of its surroundings: [getenv(name)] ([None] for
    [NULL]), [QDir(path).exists()], [QDir(path).canonicalPath()],
    [QDir::homePath()], [QDir::currentPath()],
    [QCoreApplication::applicationDirPath()] and [QDir::separator()]. *)
Record Environment : Type := mkEnvironment {
  getenv : string → option string;
  exists_ : string → bool;
  canonicalPath : string → string;
  homePath : string;
  currentPath : string;
  applicationDirPath : string;
  separator : ascii
}.

(** [ctkCmdLineModuleDefaultPathBuilderPrivate]. *)
Record Private : Type := mkPrivate {
  LoadFromHomeDir : bool;
  LoadFromCurrentDir : bool;
  LoadFromApplicationDir : bool;
  LoadFromCtkModuleLoadPath : bool
}.

(** The constructor: nothing is loaded. *)
Definition new : Private := mkPrivate false false false false.

Definition setLoadFromHomeDir (doLoad : bool) (p : Private) : Private :=
  mkPrivate doLoad (LoadFromCurrentDir p) (LoadFromApplicationDir p)
            (LoadFromCtkModuleLoadPath p).

Definition setLoadFromCurrentDir (doLoad : bool) (p : Private) : Private :=
  mkPrivate (LoadFromHomeDir p) doLoad (LoadFromApplicationDir p)
            (LoadFromCtkModuleLoadPath p).

Definition setLoadFromApplicationDir (doLoad : bool) (p : Private) : Private :=
  mkPrivate (LoadFromHomeDir p) (LoadFromCurrentDir p) doLoad
            (LoadFromCtkModuleLoadPath p).

Definition setLoadFromCtkModuleLoadPath (doLoad : bool) (p : Private) : Private :=
  mkPrivate (LoadFromHomeDir p) (LoadFromCurrentDir p) (LoadFromApplicationDir p)
            doLoad.

Definition suffix : string := "cli-modules".

(** [path + QDir::separator() + suffix]. *)
Definition inSuffix (env : Environment) (path : string) : string :=
  (path ++ String (separator env) EmptyString ++ suffix)%string.

(** [ctkCmdLineModuleDefaultPathBuilderPrivate::build]; [result << x]
    appends [x]. *)
Definition build (p : Private) (env : Environment) : list string :=
  let result : list string := [] in
  let result :=
    if LoadFromCtkModuleLoadPath p then
      match getenv env "CTK_MODULE_LOAD_PATH" with
      | Some ctkModuleLoadPath =>
          if exists_ env ctkModuleLoadPath
          then (result ++ [canonicalPath env ctkModuleLoadPath])%list
          else result
      | None => result
      end
    else result in
  let result :=
    if LoadFromHomeDir p then
      if exists_ env (homePath env)
      then ((result ++ [homePath env]) ++ [inSuffix env (homePath env)])%list
      else result
    else result in
  let result :=
    if LoadFromCurrentDir p then
      if exists_ env (currentPath env)
      then ((result ++ [currentPath env]) ++ [inSuffix env (currentPath env)])%list
      else result
    else result in
  let result :=
    if LoadFromApplicationDir p then
      ((result ++ [applicationDirPath env])
         ++ [inSuffix env (applicationDirPath env)])%list
    else result in
  result.

(** A demonstration environment: the variable is set to a directory that
    exists behind a symbolic link, the home directory exists, the current
    directory has been removed. *)
Definition demoEnvironment : Environment :=
  mkEnvironment
    (λ name, if String.eqb name "CTK_MODULE_LOAD_PATH" then Some "/opt/ctk/../ctk/modules"
             else None)
    (λ path, String.eqb path "/opt/ctk/../ctk/modules" || String.eqb path "/home/ctk")
    (λ path, if String.eqb path "/opt/ctk/../ctk/modules" then "/opt/ctk/modules" else path)
    "/home/ctk" "/tmp/gone" "/usr/bin" "/"%char.

End ctkCmdLineModuleDefaultPathBuilder.

(** * Properties *)

Local Open Scope list_scope.

(** ** Loops *)

Ltac eff_unfold :=
  unfold onObjects, assign in *;
  unfold mbind, Eff_bind, mret, Eff_ret, gets, modify, getState, step,
         zoom, warn, settingChanged, connect in *.

Section Foreach.

Context {S A : Type}.
Implicit Types (l : list A) (body : A → Eff S unit) (s : S).

Lemma foreach_nil body s : foreach [] body s = Some ((), s).
Proof. reflexivity. Qed.

Lemma foreach_cons x l body s :
  foreach (x :: l) body s =
  match body x s with
  | Some (_, s') => foreach l body s'
  | None => None
  end.
Proof.
  simpl. unfold mbind, Eff_bind.
  destruct (body x s) as [[[] s']|]; reflexivity.
Qed.

(** A loop that completes establishes, for the whole list, what every
    round establishes for the keys done so far. *)
Lemma foreach_partial (P : list A → S → Prop) l body :
  (∀ done x rest s s',
      l = done ++ x :: rest → P done s →
      body x s = Some ((), s') → P (done ++ [x]) s') →
  ∀ s s', P [] s → foreach l body s = Some ((), s') → P l s'.
Proof.
  intros Hstep.
  assert (G : ∀ rest done s s',
             l = done ++ rest → P done s →
             foreach rest body s = Some ((), s') → P (done ++ rest) s').
  { induction rest as [|x rest IH]; intros done s s' Hl HP Hrun.
    - rewrite foreach_nil in Hrun. inversion Hrun; subst.
      by rewrite app_nil_r.
    - rewrite foreach_cons in Hrun.
      destruct (body x s) as [[[] s1]|] eqn:Hb; [|done].
      replace (done ++ x :: rest) with ((done ++ [x]) ++ rest)
        by (by rewrite <- app_assoc).
      apply (IH (done ++ [x]) s1 s'); [by rewrite <- app_assoc| |done].
      by apply (Hstep done x rest s s1). }
  intros s s' HP Hrun. by apply (G l [] s s').
Qed.

(** A loop whose every round completes from a state that satisfies the
    invariant completes. *)
Lemma foreach_total (P : list A → S → Prop) l body :
  (∀ done x rest s,
      l = done ++ x :: rest → P done s →
      ∃ s', body x s = Some ((), s') ∧ P (done ++ [x]) s') →
  ∀ s, P [] s → ∃ s', foreach l body s = Some ((), s') ∧ P l s'.
Proof.
  intros Hstep.
  assert (G : ∀ rest done s,
             l = done ++ rest → P done s →
             ∃ s', foreach rest body s = Some ((), s') ∧ P (done ++ rest) s').
  { induction rest as [|x rest IH]; intros done s Hl HP.
    - exists s. rewrite app_nil_r. by split.
    - destruct (Hstep done x rest s Hl HP) as (s1 & Hb & HP1).
      destruct (IH (done ++ [x]) s1) as (s' & Hrun & HP');
        [by rewrite <- app_assoc|done|].
      exists s'. rewrite foreach_cons, Hb. split; [done|].
      by rewrite <- app_assoc in HP'. }
  intros s HP. by apply (G l [] s).
Qed.

End Foreach.

(** ** The keys of the registry *)

Lemma elem_of_keys (m : gmap string PropertyType.t) (key : string) :
  key ∈ keys m ↔ is_Some (m !! key).
Proof.
  unfold keys. rewrite merge_sort_Permutation.
  rewrite list_elem_of_fmap. split.
  - intros ([k p] & -> & Hin). apply elem_of_map_to_list in Hin. by exists p.
  - intros [p Hp]. exists (key, p). split; [done|].
    by apply elem_of_map_to_list.
Qed.

Lemma NoDup_keys (m : gmap string PropertyType.t) : NoDup (keys m).
Proof.
  unfold keys. rewrite merge_sort_Permutation. apply NoDup_fst_map_to_list.
Qed.


Lemma filter_none {A} (f : A → bool) (l : list A) :
  (∀ x, x ∈ l → f x = false) → List.filter f l = [].
Proof.
  induction l as [|x l IH]; intros Hf; [done|]. simpl.
  rewrite (Hf x) by apply list_elem_of_here.
  apply IH. intros y Hy. apply Hf. by apply list_elem_of_further.
Qed.

Lemma elem_of_app_singleton {A} (x y : A) (l : list A) :
  x ≠ y → x ∈ l ++ [y] ↔ x ∈ l.
Proof. intros Hne. rewrite elem_of_app, list_elem_of_singleton. tauto. Qed.

Lemma NoDup_middle_fresh {A} (done rest : list A) (x : A) :
  NoDup (done ++ x :: rest) → x ∉ done.
Proof.
  intros Hnd Hin. apply NoDup_app in Hnd as (_ & Hdis & _).
  apply (Hdis x Hin). apply list_elem_of_here.
Qed.

(** ** [PropertyType::value] does not read the recorded values *)

Lemma value_setPreviousValue v p h :
  PropertyType.value (PropertyType.setPreviousValue v p) h = PropertyType.value p h.
Proof. reflexivity. Qed.

(** ** [applySettings] *)

Lemma applySettings_spec (w : World) :
  ∃ w', applySettings w = Some ((), w')
        ∧ Properties (d w') = committed (objects w) <$> Properties (d w)
        ∧ Settings (d w') = Settings (d w)
        ∧ SaveToSettingsWhenRegister (d w') = SaveToSettingsWhenRegister (d w)
        ∧ objects w' = objects w ∧ stores w' = stores w
        ∧ emitted w' = emitted w ∧ warnings w' = warnings w
        ∧ connections w' = connections w.
Proof.
  set (m0 := Properties (d w)).
  set (P := λ (done : list string) (u : World),
         (∀ k, Properties (d u) !! k =
               if decide (k ∈ done) then committed (objects w) <$> m0 !! k
               else m0 !! k)
         ∧ Settings (d u) = Settings (d w)
         ∧ SaveToSettingsWhenRegister (d u) = SaveToSettingsWhenRegister (d w)
         ∧ objects u = objects w ∧ stores u = stores w
         ∧ emitted u = emitted w ∧ warnings u = warnings w
         ∧ connections u = connections w).
  unfold applySettings. eff_unfold. fold m0.
  match goal with
  | |- context [foreach ?l ?b _] =>
      destruct (foreach_total P l b) with (s := w) as (w' & Hrun & HP)
  end.
  - intros done x rest u Hl (Hm & Hs & Hsv & Ho & Hst & He & Hw & Hc).
    assert (x ∉ done) as Hx.
    { eapply NoDup_middle_fresh. rewrite <- Hl. apply NoDup_keys. }
    assert (is_Some (m0 !! x)) as [p Hp].
    { apply elem_of_keys. rewrite Hl. apply elem_of_app. right. apply list_elem_of_here. }
    unfold index. rewrite (Hm x), decide_False, Hp by done. simpl.
    eexists. split; [reflexivity|]. unfold P. simpl. repeat split; try done.
    intros k. destruct (decide (k = x)) as [->|Hne].
    + rewrite lookup_insert_eq, decide_True, Hp, Ho; [done|].
      apply elem_of_app. right. apply list_elem_of_here.
    + rewrite lookup_insert_ne by done. rewrite (Hm k).
      destruct (decide (k ∈ done)) as [Hin|Hnin].
      * rewrite decide_True; [done|]. apply elem_of_app. by left.
      * rewrite decide_False; [done|]. by rewrite elem_of_app_singleton.
  - unfold P. repeat split; done.
  - exists w'. split; [exact Hrun|].
    destruct HP as (Hm & Hrest). split; [|exact Hrest].
    apply map_eq. intros k. rewrite lookup_fmap, (Hm k).
    destruct (decide (k ∈ keys m0)) as [|Hnin]; [done|].
    destruct (m0 !! k) eqn:Hk; [|done].
    exfalso. apply Hnin. apply elem_of_keys. by exists t.
Qed.

(** ** [changedSettings] *)

Lemma elem_of_changedSettings (w : World) (key : string) :
  key ∈ changedSettings w ↔
  ∃ prop, Properties (d w) !! key = Some prop
          ∧ PropertyType.PreviousValue prop ≠ PropertyType.value prop (objects w).
Proof.
  unfold changedSettings. rewrite list_elem_of_In, filter_In, <- list_elem_of_In.
  rewrite elem_of_keys, bool_decide_eq_true. unfold constIndex. split.
  - intros [[p Hp] Hne]. exists p. split; [done|]. by rewrite Hp in Hne.
  - intros (p & Hp & Hne). rewrite Hp. split; [by exists p|done].
Qed.

Lemma NoDup_changedSettings (w : World) : NoDup (changedSettings w).
Proof.
  unfold changedSettings. apply NoDup_ListNoDup. apply List.NoDup_filter.
  apply NoDup_ListNoDup. apply NoDup_keys.
Qed.

Lemma changedSettings_nil (w : World) :
  (∀ key prop, Properties (d w) !! key = Some prop →
               PropertyType.PreviousValue prop = PropertyType.value prop (objects w)) →
  changedSettings w = [].
Proof.
  intros Hall. apply filter_none. intros key Hin.
  apply elem_of_keys in Hin as [p Hp]. unfold constIndex. rewrite Hp. simpl.
  apply bool_decide_eq_false. intros Hne. apply Hne. by apply (Hall key).
Qed.

(** C2. [changedSettings()] lists, once each, exactly the registered keys
    whose live property value differs from the recorded previous value; and
    from every state [applySettings()] completes and [changedSettings()]
    called right after it returns the empty list. *)
Theorem C2_changedSettings_exact_and_empty_after_apply :
  ∀ w : World,
    (∀ key, key ∈ changedSettings w ↔
            ∃ prop, Properties (d w) !! key = Some prop
                    ∧ PropertyType.PreviousValue prop
                        ≠ PropertyType.value prop (objects w))
    ∧ NoDup (changedSettings w)
    ∧ ∃ w', applySettings w = Some ((), w') ∧ changedSettings w' = [].
Proof.
  intros w. split; [apply elem_of_changedSettings|].
  split; [apply NoDup_changedSettings|].
  destruct (applySettings_spec w) as (w' & Hrun & Hm & _ & _ & Ho & _).
  exists w'. split; [done|]. apply changedSettings_nil.
  intros key prop. rewrite Hm, lookup_fmap, Ho.
  destruct (Properties (d w) !! key) as [p|]; [|done].
  simpl. intros [= <-]. unfold committed. by rewrite value_setPreviousValue.
Qed.

(** ** Writing a property of a live object *)

Lemma at_insert_eq (h : QObject.heap) a o : QObject.at_ (<[a := o]> h) a = o.
Proof. unfold QObject.at_. by rewrite lookup_insert_eq. Qed.

Lemma at_insert_ne (h : QObject.heap) a a' o :
  a ≠ a' → QObject.at_ (<[a := o]> h) a' = QObject.at_ h a'.
Proof. intros Hne. unfold QObject.at_. by rewrite lookup_insert_ne. Qed.

(** [setProperty] never changes a meta-object. *)
Lemma setProperty_metaObject a n v (h : QObject.heap) a' :
  QObject.metaObject (QObject.at_ (QObject.setProperty a n v h).2 a')
  = QObject.metaObject (QObject.at_ h a').
Proof.
  unfold QObject.setProperty.
  destruct (QObject.findProperty (QObject.at_ h a) n) as [mp|];
    [destruct (QObject.canWrite _ v)|destruct (QVariant.isValid v)]; simpl;
    try done;
    (destruct (decide (a = a')) as [->|Hne];
       [by rewrite at_insert_eq|by rewrite at_insert_ne]).
Qed.

(** [setProperty] changes no other property of any object. *)
Lemma setProperty_property_other a n v (h : QObject.heap) a' n' :
  a' ≠ a ∨ n' ≠ n →
  QObject.property (QObject.setProperty a n v h).2 a' n' = QObject.property h a' n'.
Proof.
  intros Hother. unfold QObject.setProperty, QObject.property.
  destruct (QObject.findProperty (QObject.at_ h a) n) as [mp|];
    [destruct (QObject.canWrite _ v)|destruct (QVariant.isValid v)]; simpl;
    try done;
    (destruct (decide (a = a')) as [->|Hne];
       [rewrite at_insert_eq; simpl;
        destruct Hother as [|Hn]; [done|];
        by rewrite ?lookup_insert_ne, ?lookup_delete_ne by done
       |by rewrite at_insert_ne]).
Qed.

(** A declared property takes the value that fits its type. *)
Lemma setProperty_declared a n v (h : QObject.heap) mp :
  QObject.findProperty (QObject.at_ h a) n = Some mp →
  QObject.canWrite (QMetaProperty.typeName mp) v = true →
  (QObject.setProperty a n v h).1 = true
  ∧ QObject.property (QObject.setProperty a n v h).2 a n = v.
Proof.
  intros Hf Hc. unfold QObject.setProperty, QObject.property.
  rewrite Hf, Hc. simpl. split; [done|].
  by rewrite at_insert_eq; simpl; rewrite lookup_insert_eq.
Qed.

(** [qstrcmp(typeName, "QStringList") == 0 && !value.isValid()] is false
    for a value that fits the declared type. *)
Lemma canWrite_not_normalised mp v :
  QObject.canWrite (QMetaProperty.typeName mp) v = true →
  PropertyType.isStringListType (Some mp) && negb (QVariant.isValid v) = false.
Proof.
  unfold QObject.canWrite, PropertyType.isStringListType.
  destruct v; simpl; rewrite ?andb_false_r; try done.
  rewrite orb_false_r. intros Hq%String.eqb_eq. by rewrite Hq.
Qed.

Section SetValue.

Variable QT_NO_DEBUG : bool.

(** [PropertyType::setValue] unfolded, for an entry with an object and a
    property name. *)
Lemma setValue_unfold p o val (h : QObject.heap) :
  PropertyType.Object p = Some o →
  isEmpty (PropertyType.Property p) = false →
  PropertyType.setValue QT_NO_DEBUG p val h =
  let mp := QObject.findProperty (QObject.at_ h o) (PropertyType.Property p) in
  let value := if PropertyType.isStringListType mp && negb (QVariant.isValid val)
               then QVariant.StringList [] else val in
  let r := QObject.setProperty o (PropertyType.Property p) value h in
  if QT_NO_DEBUG || r.1 then Some r else None.
Proof.
  intros Ho He. unfold PropertyType.setValue, PropertyType.metaProperty.
  rewrite Ho, He. eff_unfold. unfold Q_ASSERT.
  rewrite bool_decide_eq_true_2 by (by eexists). rewrite orb_true_r. simpl.
  unfold QObject.findProperty.
  destruct (QObject.setProperty o _ _ h) as [ok h'] eqn:Hset. simpl.
  by destruct (QT_NO_DEBUG || ok).
Qed.

(** An entry without an object or without a property name: a failed
    assertion in a debug build, [false] and no write otherwise. *)
Lemma setValue_no_target p val (h : QObject.heap) :
  PropertyType.Object p = None ∨ isEmpty (PropertyType.Property p) = true →
  PropertyType.setValue QT_NO_DEBUG p val h =
  if QT_NO_DEBUG then Some (false, h) else None.
Proof.
  intros Hnone. unfold PropertyType.setValue. eff_unfold. unfold Q_ASSERT.
  rewrite orb_false_r.
  destruct (PropertyType.Object p) as [o|];
    [destruct Hnone as [ | -> ]; [done|]|]; by destruct QT_NO_DEBUG.
Qed.

(** A write the target accepts succeeds in every build and leaves the
    value in the property. *)
Lemma setValue_accepts p val (h : QObject.heap) :
  accepts h p val = true →
  ∃ h', PropertyType.setValue QT_NO_DEBUG p val h = Some (true, h')
        ∧ PropertyType.value p h' = val
        ∧ (∀ a, QObject.metaObject (QObject.at_ h' a)
                = QObject.metaObject (QObject.at_ h a))
        ∧ (∀ q, ¬ sameTarget q p → PropertyType.value q h' = PropertyType.value q h).
Proof.
  unfold accepts. destruct (PropertyType.Object p) as [o|] eqn:Ho; [|done].
  destruct (isEmpty (PropertyType.Property p)) eqn:He; [done|]. simpl.
  destruct (QObject.findProperty _ _) as [mp|] eqn:Hf; [|done]. intros Hc.
  rewrite (setValue_unfold p o val h Ho He). simpl.
  rewrite Hf, (canWrite_not_normalised mp val Hc).
  destruct (setProperty_declared o _ val h mp Hf Hc) as [Hok Hval].
  exists (QObject.setProperty o (PropertyType.Property p) val h).2.
  rewrite Hok, orb_true_r. split; [|split; [|split]].
  - rewrite <- Hok. by destruct (QObject.setProperty _ _ _ _).
  - unfold PropertyType.value. by rewrite Ho, He.
  - intros a. apply setProperty_metaObject.
  - intros q Hq. unfold PropertyType.value.
    destruct (PropertyType.Object q) as [oq|] eqn:Hoq; [|done].
    destruct (isEmpty (PropertyType.Property q)); [done|].
    apply setProperty_property_other.
    destruct (decide (oq = o)) as [->|]; [|by left]. right.
    intros Hn. apply Hq. split; [by rewrite Ho, Hoq|done].
Qed.

(** Whatever a write does, it never changes a meta-object. *)
Lemma setValue_metaObject p val (h h' : QObject.heap) r a :
  PropertyType.setValue QT_NO_DEBUG p val h = Some (r, h') →
  QObject.metaObject (QObject.at_ h' a) = QObject.metaObject (QObject.at_ h a).
Proof.
  destruct (PropertyType.Object p) as [o|] eqn:Ho.
  - destruct (isEmpty (PropertyType.Property p)) eqn:He.
    + rewrite setValue_no_target by (by right).
      destruct QT_NO_DEBUG; [|done]. by intros [= _ <-].
    + rewrite (setValue_unfold p o val h Ho He). simpl.
      destruct (QT_NO_DEBUG || _); [|done]. intros [= Heq].
      match type of Heq with
      | QObject.setProperty ?o ?n ?v _ = _ =>
          pose proof (setProperty_metaObject o n v h a) as Hm
      end.
      by rewrite Heq in Hm.
  - rewrite setValue_no_target by (by left).
    destruct QT_NO_DEBUG; [|done]. by intros [= _ <-].
Qed.

End SetValue.

(** ** The string-list workaround of [PropertyType::setValue] *)

(** C8. For an entry that points at an object and names a property: when the
    declared type of the property is [QStringList], writing the invalid
    variant through [PropertyType::setValue] succeeds and leaves the empty
    string list in the live property; when the declared type is another one,
    [setValue] hands the value to [QObject::setProperty] as it is, and a
    value that fits the declared type is then the value of the live
    property. *)
Theorem C8_setValue_string_list_normalisation :
  ∀ (QT_NO_DEBUG : bool) (p : PropertyType.t) (o : positive)
    (mp : QMetaProperty.t) (h : QObject.heap),
    PropertyType.Object p = Some o →
    isEmpty (PropertyType.Property p) = false →
    QObject.findProperty (QObject.at_ h o) (PropertyType.Property p) = Some mp →
    (QMetaProperty.typeName mp = "QStringList" →
       ∃ h', PropertyType.setValue QT_NO_DEBUG p QVariant.Invalid h = Some (true, h')
             ∧ PropertyType.value p h' = QVariant.StringList [])
    ∧ (QMetaProperty.typeName mp ≠ "QStringList" →
       ∀ val,
         PropertyType.setValue QT_NO_DEBUG p val h
         = (let r := QObject.setProperty o (PropertyType.Property p) val h in
            if QT_NO_DEBUG || r.1 then Some r else None)
         ∧ (QObject.canWrite (QMetaProperty.typeName mp) val = true →
            ∃ h', PropertyType.setValue QT_NO_DEBUG p val h = Some (true, h')
                  ∧ PropertyType.value p h' = val)).
Proof.
  intros b p o mp h Ho He Hf. split.
  - intros Hty. rewrite (setValue_unfold b p o _ h Ho He). simpl.
    rewrite Hf. unfold PropertyType.isStringListType. rewrite Hty. simpl.
    destruct (setProperty_declared o (PropertyType.Property p)
                (QVariant.StringList []) h mp Hf) as [Hok Hval].
    { unfold QObject.canWrite. rewrite Hty. reflexivity. }
    destruct (QObject.setProperty o _ _ h) as [ok h'] eqn:Hset.
    simpl in Hok, Hval. subst ok. exists h'. rewrite orb_true_r. split; [done|].
    unfold PropertyType.value. by rewrite Ho, He.
  - intros Hty val.
    assert (PropertyType.isStringListType (Some mp) = false) as Hns.
    { unfold PropertyType.isStringListType. by apply String.eqb_neq. }
    split.
    + rewrite (setValue_unfold b p o _ h Ho He). simpl. by rewrite Hf, Hns.
    + intros Hc. destruct (setValue_accepts b p val h) as (h' & Hrun & Hval & _).
      { unfold accepts. by rewrite Ho, He, Hf. }
      by exists h'.
Qed.

Lemma C8_witness :
  PropertyType.Object demoPaths = Some 1%positive
  ∧ isEmpty (PropertyType.Property demoPaths) = false
  ∧ QObject.findProperty (QObject.at_ demoObjects 1) (PropertyType.Property demoPaths)
    = Some (QMetaProperty.mk "paths" "QStringList")
  ∧ ∃ h', PropertyType.setValue false demoPaths QVariant.Invalid demoObjects
          = Some (true, h')
          ∧ PropertyType.value demoPaths h' = QVariant.StringList [].
Proof.
  split; [reflexivity|]. split; [reflexivity|]. split; [reflexivity|].
  apply (C8_setValue_string_list_normalisation false demoPaths 1%positive
           (QMetaProperty.mk "paths" "QStringList") demoObjects);
    reflexivity.
Defined.

(** ** [setSetting] *)

Lemma store_at_setValue (h : QSettings.heap) s key v :
  QSettings.at_ (QSettings.setValue s key v h) s
  = QSettings.mk (<[key := v]> (QSettings.entries (QSettings.at_ h s)))
                 (QSettings.status (QSettings.at_ h s)).
Proof. unfold QSettings.setValue, QSettings.at_. by rewrite lookup_insert_eq. Qed.

Lemma store_value_setValue (h : QSettings.heap) s key v :
  QSettings.value (QSettings.setValue s key v h) s key = v.
Proof.
  unfold QSettings.value. rewrite store_at_setValue. simpl.
  by rewrite lookup_insert_eq.
Qed.

Lemma store_entries_setValue_ne (h : QSettings.heap) s key key' v :
  key ≠ key' →
  QSettings.entries (QSettings.at_ (QSettings.setValue s key v h) s) !! key'
  = QSettings.entries (QSettings.at_ h s) !! key'.
Proof.
  intros Hne. rewrite store_at_setValue. simpl. by rewrite lookup_insert_ne.
Qed.

Lemma touched_lookup key m :
  touched key m !! key = Some (constIndex m key).
Proof.
  unfold touched, constIndex. destruct (m !! key) as [p|] eqn:Hk; simpl.
  - done.
  - by rewrite lookup_insert_eq.
Qed.

Lemma touched_lookup_ne key key' m : key ≠ key' → touched key m !! key' = m !! key'.
Proof.
  intros Hne. unfold touched. destruct (m !! key); [done|].
  by rewrite lookup_insert_ne.
Qed.

Lemma touched_registered key m p : m !! key = Some p → touched key m = m.
Proof. intros Hk. unfold touched. by rewrite Hk. Qed.

Section SetSetting.

Variable QT_NO_DEBUG : bool.

(** Without a store [setSetting] returns at once. *)
Lemma setSetting_no_store key v w :
  Settings (d w) = None → setSetting QT_NO_DEBUG key v w = Some ((), w).
Proof. intros Hs. unfold setSetting. eff_unfold. by rewrite Hs. Qed.

(** With a store, [setSetting] completes exactly when the write to the
    target of the key does, and then leaves [afterSetSetting]. *)
Lemma setSetting_attached key v w s :
  Settings (d w) = Some s →
  setSetting QT_NO_DEBUG key v w =
  match PropertyType.setValue QT_NO_DEBUG (constIndex (Properties (d w)) key) v (objects w) with
  | Some (_, h') => Some ((), afterSetSetting s key v h' w)
  | None => None
  end.
Proof.
  intros Hs. unfold setSetting. eff_unfold. rewrite Hs. simpl.
  unfold index, constIndex, afterSetSetting, touched. simpl.
  destruct w as [[st m sv] objs sts em wa co]. simpl in *. subst st.
  destruct (m !! key) as [p|] eqn:Hk; simpl;
    (match goal with
     | |- context [PropertyType.setValue ?b ?q v objs] =>
         destruct (PropertyType.setValue b q v objs) as [[r h']|]; [|done]
     end;
     simpl; rewrite store_at_setValue; simpl;
     destruct (decide (QSettings.status _ ≠ _)); simpl;
     destruct (decide (QSettings.value _ _ _ ≠ _)); simpl;
     by rewrite ?app_nil_r).
Qed.

End SetSetting.

(** In a build without assertions every write returns. *)
Lemma setValue_release p val (h : QObject.heap) :
  ∃ r h', PropertyType.setValue true p val h = Some (r, h').
Proof.
  destruct (PropertyType.Object p) as [o|] eqn:Ho.
  - destruct (isEmpty (PropertyType.Property p)) eqn:He.
    + rewrite setValue_no_target by (by right). by eexists _, _.
    + rewrite (setValue_unfold true p o val h Ho He). simpl.
      destruct (QObject.setProperty _ _ _ _) as [r h']. by eexists _, _.
  - rewrite setValue_no_target by (by left). by eexists _, _.
Qed.

Lemma propertyValue_registered key p w :
  Properties (d w) !! key = Some p →
  propertyValue key w = PropertyType.value p (objects w).
Proof.
  intros Hk. unfold propertyValue, constIndex. rewrite Hk.
  by rewrite bool_decide_eq_true_2 by (by eexists).
Qed.

Lemma previousPropertyValue_registered key p w :
  Properties (d w) !! key = Some p →
  previousPropertyValue key w = PropertyType.PreviousValue p.
Proof.
  intros Hk. unfold previousPropertyValue, constIndex. rewrite Hk.
  by rewrite bool_decide_eq_true_2 by (by eexists).
Qed.

Lemma defaultPropertyValue_registered key p w :
  Properties (d w) !! key = Some p →
  defaultPropertyValue key w = PropertyType.DefaultValue p.
Proof.
  intros Hk. unfold defaultPropertyValue, constIndex. rewrite Hk.
  by rewrite bool_decide_eq_true_2 by (by eexists).
Qed.

(** [setSetting] on a registered key whose target accepts the value. *)
Lemma setSetting_accepted (QT_NO_DEBUG : bool) key v w s p :
  Settings (d w) = Some s →
  Properties (d w) !! key = Some p →
  accepts (objects w) p v = true →
  ∃ h', setSetting QT_NO_DEBUG key v w = Some ((), afterSetSetting s key v h' w)
        ∧ PropertyType.value p h' = v
        ∧ (∀ a, QObject.metaObject (QObject.at_ h' a)
                = QObject.metaObject (QObject.at_ (objects w) a))
        ∧ (∀ q, ¬ sameTarget q p →
                PropertyType.value q h' = PropertyType.value q (objects w)).
Proof.
  intros Hs Hk Hacc.
  destruct (setValue_accepts QT_NO_DEBUG p v (objects w) Hacc)
    as (h' & Hset & Hval & Hmeta & Hother).
  exists h'. rewrite (setSetting_attached QT_NO_DEBUG key v w s Hs).
  unfold constIndex. rewrite Hk. simpl. by rewrite Hset.
Qed.

(** The demonstration state is the one the panel reaches. *)
Lemma demoRegistered_reached :
  run (registerProperty false "fontSize" (Some 1%positive) "fontSize"
         "valueChanged(int)" "Font size" PropertyType.OptionNone)
      (run (setSettings false (Some 1%positive)) (Some (newWorld demoObjects ∅)))
  = Some demoRegistered.
Proof. vm_compute. reflexivity. Qed.

(** C1, as stated, fails on both counts.  After [setSetting("fontSize", 14)]
    on the registered key [fontSize], whose value and recorded previous
    value were 12, the live value is 14 and the recorded previous value is
    still 12.  After [setSetting("paths", QVariant())] on the registered key
    of a string-list property the live value is the empty list, not the
    invalid variant that was passed. *)
Lemma C1_counterexample :
  (Properties (d demoRegistered) !! "fontSize" = Some demoFontSize
   ∧ Settings (d demoRegistered) = Some 1%positive
   ∧ ∃ w', setSetting false "fontSize" (QVariant.Int 14) demoRegistered = Some ((), w')
           ∧ propertyValue "fontSize" w' = QVariant.Int 14
           ∧ previousPropertyValue "fontSize" w' = QVariant.Int 12
           ∧ previousPropertyValue "fontSize" w' ≠ QVariant.Int 14)
  ∧ (is_Some (Properties (d demoUnsetPaths) !! "paths")
     ∧ Settings (d demoUnsetPaths) = Some 1%positive
     ∧ ∃ w', setSetting false "paths" QVariant.Invalid demoUnsetPaths = Some ((), w')
             ∧ propertyValue "paths" w' = QVariant.StringList []
             ∧ propertyValue "paths" w' ≠ QVariant.Invalid).
Proof.
  split.
  - split; [reflexivity|]. split; [reflexivity|].
    eexists. split; [vm_compute; reflexivity|].
    split; [vm_compute; reflexivity|]. split; [vm_compute; reflexivity|].
    vm_compute. discriminate.
  - split; [by eexists|]. split; [reflexivity|].
    eexists. split; [vm_compute; reflexivity|].
    split; [vm_compute; reflexivity|]. vm_compute. discriminate.
Qed.

(** C1, amended. For every registered key whose target accepts the value
    [v], [setSetting(key, v)] with a store attached completes; afterwards the
    store holds [v] for the key, [propertyValue(key)] is [v], and
    [previousPropertyValue(key)] is what it was before the call. *)
Theorem C1_setSetting_writes_value_keeps_previous :
  ∀ (QT_NO_DEBUG : bool) (w : World) (key : string) (v : QVariant.t)
    (s : positive) (p : PropertyType.t),
    Settings (d w) = Some s →
    Properties (d w) !! key = Some p →
    accepts (objects w) p v = true →
    ∃ w', setSetting QT_NO_DEBUG key v w = Some ((), w')
          ∧ QSettings.value (stores w') s key = v
          ∧ propertyValue key w' = v
          ∧ previousPropertyValue key w' = previousPropertyValue key w.
Proof.
  intros b w key v s p Hs Hk Hacc.
  destruct (setSetting_accepted b key v w s p Hs Hk Hacc) as (h' & Hrun & Hval & _).
  exists (afterSetSetting s key v h' w). split; [done|].
  assert (Properties (d (afterSetSetting s key v h' w)) !! key = Some p) as Hk'.
  { simpl. by rewrite (touched_registered key _ p Hk). }
  split; [apply store_value_setValue|]. split.
  - by rewrite (propertyValue_registered key p _ Hk').
  - by rewrite (previousPropertyValue_registered key p _ Hk'),
               (previousPropertyValue_registered key p _ Hk).
Qed.

Lemma C1_witness :
  Settings (d demoRegistered) = Some 1%positive
  ∧ Properties (d demoRegistered) !! "fontSize" = Some demoFontSize
  ∧ accepts (objects demoRegistered) demoFontSize (QVariant.Int 14) = true
  ∧ ∃ w', setSetting false "fontSize" (QVariant.Int 14) demoRegistered = Some ((), w')
          ∧ QSettings.value (stores w') 1%positive "fontSize" = QVariant.Int 14
          ∧ propertyValue "fontSize" w' = QVariant.Int 14
          ∧ previousPropertyValue "fontSize" w'
            = previousPropertyValue "fontSize" demoRegistered.
Proof.
  split; [reflexivity|]. split; [reflexivity|]. split; [reflexivity|].
  apply (C1_setSetting_writes_value_keeps_previous false demoRegistered "fontSize"
           (QVariant.Int 14) 1%positive demoFontSize); reflexivity.
Defined.

(** C6. With a store attached, a [setSetting(key, newValue)] that completes
    appends the one notification [(key, newValue)] to what the panel has
    emitted when [newValue] differs from the value the store held for the key
    just before the write, and emits nothing when it is equal to it.  The
    call completes in every build without assertions, and in every build
    when the target of the key accepts the value. *)
Theorem C6_setSetting_emits_iff_stored_value_differs :
  ∀ (QT_NO_DEBUG : bool) (w : World) (key : string) (newValue : QVariant.t)
    (s : positive),
    Settings (d w) = Some s →
    (∀ w', setSetting QT_NO_DEBUG key newValue w = Some ((), w') →
           (QSettings.value (stores w) s key ≠ newValue →
              emitted w' = emitted w ++ [(key, newValue)])
           ∧ (QSettings.value (stores w) s key = newValue →
              emitted w' = emitted w))
    ∧ (QT_NO_DEBUG = true
       ∨ accepts (objects w) (constIndex (Properties (d w)) key) newValue = true →
       ∃ w', setSetting QT_NO_DEBUG key newValue w = Some ((), w')).
Proof.
  intros b w key v s Hs. rewrite (setSetting_attached b key v w s Hs). split.
  - intros w' Hrun.
    destruct (PropertyType.setValue b _ v (objects w)) as [[r h']|]; [|done].
    injection Hrun as <-. simpl.
    destruct (decide (QSettings.value (stores w) s key ≠ v)) as [Hne|Heq].
    + split; [done|]. intros Heq. by destruct Hne.
    + split; [intros Hne; by destruct Heq|]. intros _. apply app_nil_r.
  - intros [->|Hacc].
    + destruct (setValue_release (constIndex (Properties (d w)) key) v (objects w))
        as (r & h' & ->). by eexists.
    + destruct (setValue_accepts b _ v (objects w) Hacc) as (h' & -> & _).
      by eexists.
Qed.

Lemma C6_witness :
  Settings (d demoRegistered) = Some 1%positive
  ∧ ∀ w', setSetting false "fontSize" (QVariant.Int 14) demoRegistered = Some ((), w') →
          (QSettings.value (stores demoRegistered) 1%positive "fontSize" ≠ QVariant.Int 14 →
             emitted w' = emitted demoRegistered ++ [("fontSize", QVariant.Int 14)])
          ∧ (QSettings.value (stores demoRegistered) 1%positive "fontSize" = QVariant.Int 14 →
             emitted w' = emitted demoRegistered).
Proof.
  split; [reflexivity|].
  apply (C6_setSetting_emits_iff_stored_value_differs false demoRegistered "fontSize"
           (QVariant.Int 14) 1%positive). reflexivity.
Defined.

(** The text of the warning for the demonstration store. *)
Example writeError_demo :
  writeError QSettings.AccessError "fontSize"
  = ("Error #1 while writing setting " ++ quote ++ "fontSize" ++ quote)%string.
Proof. reflexivity. Qed.

(** ** [setSetting] on a key that was never registered *)

(** C9, as stated, fails in a build with assertions: [setSetting] on a key
    the registry does not hold stops at the failed [Q_ASSERT] of
    [PropertyType::setValue]; it does not return and emits nothing. *)
Lemma C9_counterexample :
  Properties (d demoRegistered) !! "language" = None
  ∧ Settings (d demoRegistered) = Some 1%positive
  ∧ QSettings.value (stores demoRegistered) 1%positive "language" ≠ QVariant.String "fr"
  ∧ setSetting false "language" (QVariant.String "fr") demoRegistered = None.
Proof.
  split; [reflexivity|]. split; [reflexivity|].
  split; [vm_compute; discriminate|]. vm_compute. reflexivity.
Qed.

(** C9, amended. For a key the registry does not hold and a store attached:
    in a build without assertions ([QT_NO_DEBUG]) [setSetting(key, v)]
    completes, the store holds [v] for the key, the notification [(key, v)]
    is emitted exactly when [v] differs from the value the store held, no
    object is changed, and the registry gains the default-constructed entry
    (null object) for the key, so the key is among the keys the
    whole-registry loops run over while [propertyValue(key)] is the invalid
    variant; in a build with assertions the call stops at the failed
    [Q_ASSERT]. *)
Theorem C9_setSetting_unregistered_key :
  ∀ (w : World) (key : string) (v : QVariant.t) (s : positive),
    Settings (d w) = Some s →
    Properties (d w) !! key = None →
    (∃ w', setSetting true key v w = Some ((), w')
           ∧ QSettings.value (stores w') s key = v
           ∧ emitted w'
             = emitted w ++ (if decide (QSettings.value (stores w) s key ≠ v)
                             then [(key, v)] else [])
           ∧ Properties (d w') = <[key := PropertyType.new]> (Properties (d w))
           ∧ PropertyType.Object PropertyType.new = None
           ∧ key ∈ keys (Properties (d w'))
           ∧ propertyValue key w' = QVariant.Invalid
           ∧ objects w' = objects w)
    ∧ setSetting false key v w = None.
Proof.
  intros w key v s Hs Hk. split.
  - rewrite (setSetting_attached true key v w s Hs).
    replace (constIndex (Properties (d w)) key) with PropertyType.new
      by (unfold constIndex; by rewrite Hk).
    rewrite setValue_no_target by (by left).
    eexists. split; [reflexivity|]. simpl.
    assert (touched key (Properties (d w))
            = <[key := PropertyType.new]> (Properties (d w))) as Ht.
    { unfold touched. by rewrite Hk. }
    split; [apply store_value_setValue|]. split; [done|]. split; [done|].
    split; [done|]. split.
    + apply elem_of_keys. rewrite Ht, lookup_insert_eq. by eexists.
    + split; [|done].
      rewrite (propertyValue_registered key PropertyType.new);
        [done|simpl; by rewrite Ht, lookup_insert_eq].
  - rewrite (setSetting_attached false key v w s Hs).
    replace (constIndex (Properties (d w)) key) with PropertyType.new
      by (unfold constIndex; by rewrite Hk).
    by rewrite setValue_no_target by (by left).
Qed.

Lemma C9_witness :
  Settings (d demoRegistered) = Some 1%positive
  ∧ Properties (d demoRegistered) !! "language" = None
  ∧ setSetting false "language" (QVariant.String "fr") demoRegistered = None.
Proof.
  split; [reflexivity|]. split; [reflexivity|].
  apply (C9_setSetting_unregistered_key demoRegistered "language"
           (QVariant.String "fr") 1%positive); reflexivity.
Defined.

(** ** [resetSettings] *)

Lemma demoDetached_reached :
  run (setSettings false None)
      (run (setSetting false "fontSize" (QVariant.Int 14)) (Some demoRegistered))
  = Some demoDetached.
Proof. vm_compute. reflexivity. Qed.

Lemma demoShared_reached :
  run (registerProperty false "size" (Some 1%positive) "fontSize"
         "valueChanged(int)" "Size" PropertyType.OptionNone)
      (run (setSetting false "fontSize" (QVariant.Int 14)) (Some demoRegistered))
  = Some demoShared.
Proof. vm_compute. reflexivity. Qed.

Lemma demoUnsetPaths_reached :
  run (registerProperty false "paths" (Some 1%positive) "paths"
         "pathsChanged()" "Paths" PropertyType.OptionNone)
      (run (setSettings false (Some 1%positive))
           (Some (newWorld demoObjects unsetPathsStore)))
  = Some demoUnsetPaths.
Proof. vm_compute. reflexivity. Qed.

(** Whether a target accepts a value depends on the meta-objects only. *)
Lemma accepts_metaObject (h h' : QObject.heap) p v :
  (∀ a, QObject.metaObject (QObject.at_ h' a) = QObject.metaObject (QObject.at_ h a)) →
  accepts h' p v = accepts h p v.
Proof.
  intros Hmeta. unfold accepts, QObject.findProperty.
  destruct (PropertyType.Object p) as [o|]; [|done]. by rewrite Hmeta.
Qed.

(** C5, as stated, fails in three ways.  Without a store [resetSettings()]
    does nothing, so a changed key stays changed; two keys that track one
    property cannot both be restored; and a recorded previous value that is
    invalid cannot be restored on a string-list property, where the write
    leaves the empty list. *)
Lemma C5_counterexample :
  (∃ w', resetSettings false demoDetached = Some ((), w')
         ∧ changedSettings w' = ["fontSize"])
  ∧ (∃ w', resetSettings false demoShared = Some ((), w')
           ∧ changedSettings w' = ["fontSize"])
  ∧ (∃ w', resetSettings false demoUnsetPaths = Some ((), w')
           ∧ changedSettings w' = ["paths"]).
Proof.
  split; [|split]; (eexists; split; [vm_compute; reflexivity|vm_compute; reflexivity]).
Qed.

(** C5, amended. With a store attached, when every registered key tracks a
    property that accepts the recorded previous value of the key and no two
    keys track the same property of the same object, [resetSettings()]
    completes; afterwards the live value and the stored value of every
    registered key are its recorded previous value, and [changedSettings()]
    returns the empty list. *)
Theorem C5_resetSettings_then_changedSettings_empty :
  ∀ (QT_NO_DEBUG : bool) (w : World) (s : positive),
    Settings (d w) = Some s →
    (∀ key p, Properties (d w) !! key = Some p →
              accepts (objects w) p (PropertyType.PreviousValue p) = true) →
    (∀ k1 k2 p1 p2, Properties (d w) !! k1 = Some p1 →
                    Properties (d w) !! k2 = Some p2 →
                    sameTarget p1 p2 → k1 = k2) →
    ∃ w', resetSettings QT_NO_DEBUG w = Some ((), w')
          ∧ (∀ key p, Properties (d w) !! key = Some p →
                      propertyValue key w' = PropertyType.PreviousValue p
                      ∧ QSettings.value (stores w') s key = PropertyType.PreviousValue p
                      ∧ previousPropertyValue key w' = PropertyType.PreviousValue p)
          ∧ changedSettings w' = [].
Proof.
  intros b w s Hs Hacc Hinj.
  set (m := Properties (d w)) in *.
  set (P := λ (done : list string) (u : World),
         Properties (d u) = m ∧ Settings (d u) = Some s
         ∧ (∀ a, QObject.metaObject (QObject.at_ (objects u) a)
                 = QObject.metaObject (QObject.at_ (objects w) a))
         ∧ (∀ k p, m !! k = Some p → k ∈ done →
                   PropertyType.value p (objects u) = PropertyType.PreviousValue p
                   ∧ QSettings.value (stores u) s k = PropertyType.PreviousValue p)).
  unfold resetSettings. eff_unfold. fold m.
  match goal with
  | |- context [foreach ?l ?body _] =>
      destruct (foreach_total P l body) with (s := w) as (w' & Hrun & HP)
  end.
  - intros done x rest u Hl (Hm & Hsu & Hmeta & Hdone).
    assert (x ∉ done) as Hx.
    { eapply NoDup_middle_fresh. rewrite <- Hl. apply NoDup_keys. }
    assert (is_Some (m !! x)) as [p Hp].
    { apply elem_of_keys. rewrite Hl. apply elem_of_app. right. apply list_elem_of_here. }
    unfold index. rewrite Hm, Hp.
    destruct (setSetting_accepted b x (PropertyType.PreviousValue p) u s p)
      as (h' & Hset & Hval & Hmeta' & Hother); [done|by rewrite Hm| |].
    { rewrite (accepts_metaObject (objects w)); [by apply (Hacc x)|done]. }
    exists (afterSetSetting s x (PropertyType.PreviousValue p) h' u).
    split; [exact Hset|]. unfold P. simpl.
    split; [rewrite Hm; by apply (touched_registered x m p)|].
    split; [done|]. split; [intros a; by rewrite Hmeta'|].
    intros k q Hq Hin. destruct (decide (k = x)) as [->|Hne].
    + assert (q = p) as -> by congruence.
      split; [done|apply store_value_setValue].
    + apply elem_of_app_singleton in Hin; [|done].
      destruct (Hdone k q Hq Hin) as [Hv Hst].
      split.
      * rewrite Hother; [done|]. intros Hsame. apply Hne. by apply (Hinj k x q p).
      * unfold QSettings.value in *. by rewrite store_entries_setValue_ne.
  - unfold P. split; [done|]. split; [done|]. split; [done|].
    intros k p _ Hin. by apply not_elem_of_nil in Hin.
  - exists w'. split; [exact Hrun|]. destruct HP as (Hm & _ & _ & Hdone).
    assert (∀ key p, m !! key = Some p →
              PropertyType.value p (objects w') = PropertyType.PreviousValue p
              ∧ QSettings.value (stores w') s key = PropertyType.PreviousValue p) as Hall.
    { intros key p Hp. apply Hdone; [done|]. apply elem_of_keys. by exists p. }
    split.
    + intros key p Hp. destruct (Hall key p Hp) as [Hv Hst].
      rewrite (propertyValue_registered key p), (previousPropertyValue_registered key p)
        by (by rewrite Hm).
      done.
    + apply changedSettings_nil. intros key p. rewrite Hm. intros Hp.
      symmetry. by apply (Hall key p).
Qed.



(** The one entry of the demonstration registry. *)
Lemma demoRegistered_entry key p :
  Properties (d demoRegistered) !! key = Some p → key = "fontSize" ∧ p = demoFontSize.
Proof.
  change (Properties (d demoRegistered))
    with (<["fontSize" := demoFontSize]> (∅ : gmap string PropertyType.t)).
  intros Hl. apply lookup_insert_Some in Hl.
  destruct Hl as [[<- <-]|[_ Hempty]]; [done|].
  by rewrite lookup_empty in Hempty.
Qed.

(** The entries of a registry of two keys. *)
Lemma two_entries (k1 k2 : string) (p1 p2 : PropertyType.t) key p :
  (<[k1 := p1]> (<[k2 := p2]> (∅ : gmap string PropertyType.t))) !! key = Some p →
  (key = k1 ∧ p = p1) ∨ (key = k2 ∧ p = p2).
Proof.
  intros Hl. apply lookup_insert_Some in Hl as [[<- <-]|[_ Hl]]; [by left|].
  apply lookup_insert_Some in Hl as [[<- <-]|[_ Hl]]; [by right|].
  by rewrite lookup_empty in Hl.
Qed.

Lemma demoTwoChanged_reached :
  run (setSetting false "paths" (QVariant.StringList ["/opt/ctk"]))
   (run (setSetting false "fontSize" (QVariant.Int 14))
     (run (registerProperty false "paths" (Some 1%positive) "paths" "pathsChanged()"
             "Paths" PropertyType.OptionNone)
       (run (registerProperty false "fontSize" (Some 1%positive) "fontSize"
               "valueChanged(int)" "Font size" PropertyType.OptionNone)
         (run (setSettings false (Some 1%positive)) (Some (newWorld demoObjects ∅))))))
  = Some demoTwoChanged.
Proof. vm_compute. reflexivity. Qed.

Lemma demoTwoChanged_entry key p :
  Properties (d demoTwoChanged) !! key = Some p →
  (key = "fontSize" ∧ p = demoFontSize) ∨ (key = "paths" ∧ p = demoPaths).
Proof. apply two_entries. Qed.

Lemma demoTwoChanged_own_targets k1 k2 p1 p2 :
  Properties (d demoTwoChanged) !! k1 = Some p1 →
  Properties (d demoTwoChanged) !! k2 = Some p2 →
  sameTarget p1 p2 → k1 = k2.
Proof.
  intros H1 H2 [_ Hname].
  apply demoTwoChanged_entry in H1 as [[-> ->]|[-> ->]];
    apply demoTwoChanged_entry in H2 as [[-> ->]|[-> ->]];
    first [reflexivity|discriminate Hname].
Qed.

Lemma C5_witness :
  Settings (d demoTwoChanged) = Some 1%positive
  ∧ changedSettings demoTwoChanged = ["fontSize"; "paths"]
  ∧ propertyValue "fontSize" demoTwoChanged = QVariant.Int 14
  ∧ ∃ w', resetSettings false demoTwoChanged = Some ((), w')
          ∧ propertyValue "fontSize" w' = QVariant.Int 12
          ∧ propertyValue "paths" w' = QVariant.StringList ["/usr/lib"]
          ∧ QSettings.value (stores w') 1 "fontSize" = QVariant.Int 12
          ∧ changedSettings w' = [].
Proof.
  split; [reflexivity|]. split; [vm_compute; reflexivity|].
  split; [vm_compute; reflexivity|].
  destruct (C5_resetSettings_then_changedSettings_empty false demoTwoChanged 1%positive)
    as (w' & Hrun & Hall & Hnone).
  - reflexivity.
  - intros key p Hp. apply demoTwoChanged_entry in Hp as [[-> ->]|[-> ->]]; reflexivity.
  - exact demoTwoChanged_own_targets.
  - exists w'. split; [exact Hrun|].
    destruct (Hall "fontSize" demoFontSize eq_refl) as (Hfont & Hstored & _).
    destruct (Hall "paths" demoPaths eq_refl) as (Hpaths & _).
    split; [exact Hfont|]. split; [exact Hpaths|]. split; [exact Hstored|exact Hnone].
Defined.

(** ** [updateSetting] and [registerProperty] *)

Lemma setProperties_id w : setProperties (Properties (d w)) w = w.
Proof. by destruct w as [[] ]. Qed.

Section Register.

Variable QT_NO_DEBUG : bool.

Lemma updateSetting_no_store key w :
  Settings (d w) = None → updateSetting QT_NO_DEBUG key w = Some ((), w).
Proof. intros Hs. unfold updateSetting. eff_unfold. by rewrite Hs. Qed.

(** With a store, [updateSetting(key)] is [setSetting] with the live value
    of the entry, which [d->Properties[key]] has inserted when it was
    missing. *)
Lemma updateSetting_attached key w s :
  Settings (d w) = Some s →
  updateSetting QT_NO_DEBUG key w =
  setSetting QT_NO_DEBUG key
    (PropertyType.value (constIndex (Properties (d w)) key) (objects w))
    (setProperties (touched key (Properties (d w))) w).
Proof.
  intros Hs. unfold updateSetting. eff_unfold. rewrite Hs.
  unfold index, constIndex, touched.
  destruct (Properties (d w) !! key) as [p|]; simpl; [|done].
  by rewrite setProperties_id.
Qed.

(** [registerProperty] unfolded: the store, when it is attached and holds
    the key, decides the previous value and is written to the target; then
    the entry is assigned, the signal connected and the setting saved. *)
Lemma registerProperty_unfold key object property signal label options w :
  registerProperty QT_NO_DEBUG key object property signal label options w =
  let prop := freshEntry object property label options (objects w) in
  match
    match Settings (d w) with
    | Some s =>
        if QSettings.contains (stores w) s key then
          match PropertyType.setValue QT_NO_DEBUG prop
                  (QSettings.value (stores w) s key) (objects w) with
          | Some (_, h1) =>
              Some (PropertyType.setPreviousValue (QSettings.value (stores w) s key) prop, h1)
          | None => None
          end
        else Some (prop, objects w)
    | None => Some (prop, objects w)
    end
  with
  | Some (prop', h1) =>
      if SaveToSettingsWhenRegister (d w)
      then updateSetting QT_NO_DEBUG key (registeredWorld key object signal prop' h1 w)
      else Some ((), registeredWorld key object signal prop' h1 w)
  | None => None
  end.
Proof.
  unfold registerProperty, freshEntry, registeredWorld. eff_unfold.
  destruct w as [[st m sv] objs sts em wa co]. simpl.
  destruct st as [s|]; simpl.
  - destruct (QSettings.contains sts s key); simpl; [|by destruct sv].
    match goal with
    | |- context [PropertyType.setValue ?b ?q ?v objs] =>
        destruct (PropertyType.setValue b q v objs) as [[r h1]|]; [|done]
    end.
    simpl. by destruct sv.
  - by destruct sv.
Qed.

End Register.

(** A completed [updateSetting] or [setSetting] on a registered key leaves
    the registry as it is. *)
Lemma setSetting_registry (QT_NO_DEBUG : bool) key v p w w' :
  Properties (d w) !! key = Some p →
  setSetting QT_NO_DEBUG key v w = Some ((), w') →
  Properties (d w') = Properties (d w).
Proof.
  intros Hk. destruct (Settings (d w)) as [s|] eqn:Hs.
  - rewrite (setSetting_attached QT_NO_DEBUG key v w s Hs).
    destruct (PropertyType.setValue _ _ _ _) as [[r h']|]; [|done].
    intros [= <-]. simpl. by apply (touched_registered key _ p).
  - rewrite setSetting_no_store by done. by intros [= <-].
Qed.

Lemma updateSetting_registry (QT_NO_DEBUG : bool) key p w w' :
  Properties (d w) !! key = Some p →
  updateSetting QT_NO_DEBUG key w = Some ((), w') →
  Properties (d w') = Properties (d w).
Proof.
  intros Hk. destruct (Settings (d w)) as [s|] eqn:Hs.
  - rewrite (updateSetting_attached QT_NO_DEBUG key w s Hs).
    rewrite (touched_registered key _ p Hk), setProperties_id.
    by apply (setSetting_registry QT_NO_DEBUG key _ p).
  - rewrite updateSetting_no_store by done. by intros [= <-].
Qed.

(** In the demonstration the default stays 12 while 18 comes from the store. *)
Example demoSaved_default :
  (defaultPropertyValue "fontSize"
     <$> run (registerProperty false "fontSize" (Some 1%positive) "fontSize"
                "valueChanged(int)" "Font size" PropertyType.OptionNone)
             (Some demoSaved))
  = Some (QVariant.Int 12).
Proof. vm_compute. reflexivity. Qed.

(** ** The default value of a key *)

Lemma defaultPropertyValue_constIndex key w :
  defaultPropertyValue key w
  = PropertyType.DefaultValue (constIndex (Properties (d w)) key).
Proof.
  unfold defaultPropertyValue, constIndex.
  destruct (Properties (d w) !! key) as [p|] eqn:Hk.
  - by rewrite bool_decide_eq_true_2 by (by eexists).
  - rewrite bool_decide_eq_false_2; [done|]. by intros [? ?].
Qed.

Lemma sameDefaults_refl w : sameDefaults w w.
Proof. by intros key. Qed.

Lemma sameDefaults_trans w1 w2 w3 :
  sameDefaults w1 w2 → sameDefaults w2 w3 → sameDefaults w1 w3.
Proof. intros H12 H23 key. by rewrite H23, H12. Qed.

Lemma sameDefaults_same_registry w w' :
  Properties (d w') = Properties (d w) → sameDefaults w w'.
Proof. intros Hm key. by rewrite !defaultPropertyValue_constIndex, Hm. Qed.

(** Evaluating [d->Properties[key]] keeps every default: the entry it may
    insert has the invalid default that an unregistered key reports. *)
Lemma sameDefaults_touched w w' key :
  Properties (d w') = touched key (Properties (d w)) → sameDefaults w w'.
Proof.
  intros Hm k. rewrite !defaultPropertyValue_constIndex, Hm.
  destruct (decide (key = k)) as [->|Hne].
  - unfold constIndex at 1. rewrite touched_lookup. simpl.
    unfold constIndex. by destruct (Properties (d w) !! k).
  - unfold constIndex. by rewrite touched_lookup_ne.
Qed.

(** Assigning a new previous value to an entry keeps every default. *)
Lemma sameDefaults_setPreviousValue w w' key p v :
  Properties (d w) !! key = Some p →
  Properties (d w') = <[key := PropertyType.setPreviousValue v p]> (Properties (d w)) →
  sameDefaults w w'.
Proof.
  intros Hk Hm k. rewrite !defaultPropertyValue_constIndex, Hm. unfold constIndex.
  destruct (decide (key = k)) as [->|Hne].
  - by rewrite lookup_insert_eq, Hk.
  - by rewrite lookup_insert_ne.
Qed.

Lemma foreach_sameDefaults {A} (l : list A) (body : A → Eff World unit) :
  (∀ x u u', body x u = Some ((), u') → sameDefaults u u') →
  ∀ w w', foreach l body w = Some ((), w') → sameDefaults w w'.
Proof.
  intros Hbody w w' Hrun.
  apply (foreach_partial (λ _ u, sameDefaults w u) l body) with (s := w); [|apply sameDefaults_refl|done].
  intros done x rest u u' _ Hu Hb. eapply sameDefaults_trans; [exact Hu|].
  by apply (Hbody x).
Qed.

Section Defaults.

Variable QT_NO_DEBUG : bool.

Lemma setSetting_sameDefaults key v w w' :
  setSetting QT_NO_DEBUG key v w = Some ((), w') → sameDefaults w w'.
Proof.
  destruct (Settings (d w)) as [s|] eqn:Hs.
  - rewrite (setSetting_attached QT_NO_DEBUG key v w s Hs).
    destruct (PropertyType.setValue _ _ _ _) as [[r h']|]; [|done].
    intros [= <-]. by apply (sameDefaults_touched _ _ key).
  - rewrite setSetting_no_store by done. intros [= <-]. apply sameDefaults_refl.
Qed.

Lemma updateSetting_sameDefaults key w w' :
  updateSetting QT_NO_DEBUG key w = Some ((), w') → sameDefaults w w'.
Proof.
  destruct (Settings (d w)) as [s|] eqn:Hs.
  - rewrite (updateSetting_attached QT_NO_DEBUG key w s Hs). intros Hrun.
    apply setSetting_sameDefaults in Hrun.
    eapply sameDefaults_trans; [|exact Hrun].
    by apply (sameDefaults_touched _ _ key).
  - rewrite updateSetting_no_store by done. intros [= <-]. apply sameDefaults_refl.
Qed.

(** The loop of [updateProperties] is a loop of [updateOne]. *)
Lemma updateProperties_attached w s :
  Settings (d w) = Some s →
  updateProperties QT_NO_DEBUG w
  = foreach (keys (Properties (d w))) (updateOne QT_NO_DEBUG s) w.
Proof. intros Hs. unfold updateProperties. eff_unfold. by rewrite Hs. Qed.

Lemma updateProperties_no_store w :
  Settings (d w) = None → updateProperties QT_NO_DEBUG w = Some ((), w).
Proof. intros Hs. unfold updateProperties. eff_unfold. by rewrite Hs. Qed.

(** One round: either the stored value is written to the target and becomes
    the previous value of the entry, or the live value is saved. *)
Lemma updateOne_unfold s key w :
  updateOne QT_NO_DEBUG s key w =
  if QSettings.contains (stores w) s key then
    match PropertyType.setValue QT_NO_DEBUG (constIndex (Properties (d w)) key)
            (QSettings.value (stores w) s key) (objects w) with
    | Some (_, h') =>
        Some ((), setProperties
                    (<[key := PropertyType.setPreviousValue
                                (QSettings.value (stores w) s key)
                                (constIndex (Properties (d w)) key)]>
                       (Properties (d w)))
                    (setObjects h' w))
    | None => None
    end
  else updateSetting QT_NO_DEBUG key w.
Proof.
  unfold updateOne. eff_unfold.
  destruct (QSettings.contains (stores w) s key); [|done].
  unfold index, constIndex.
  destruct (Properties (d w) !! key) as [p|] eqn:Hk; simpl.
  - by destruct (PropertyType.setValue _ _ _ _) as [[r h']|].
  - destruct (PropertyType.setValue _ _ _ _) as [[r h']|]; [|done].
    unfold setProperties, setObjects. simpl. by rewrite insert_insert_eq.
Qed.

Lemma updateOne_sameDefaults s key w w' :
  updateOne QT_NO_DEBUG s key w = Some ((), w') → sameDefaults w w'.
Proof.
  rewrite updateOne_unfold.
  destruct (QSettings.contains (stores w) s key).
  - destruct (PropertyType.setValue _ _ _ _) as [[r h']|]; [|done].
    intros [= <-] k. rewrite !defaultPropertyValue_constIndex. simpl.
    unfold constIndex. destruct (decide (key = k)) as [->|Hne].
    + by rewrite lookup_insert_eq.
    + by rewrite lookup_insert_ne.
  - apply updateSetting_sameDefaults.
Qed.

Lemma updateProperties_sameDefaults w w' :
  updateProperties QT_NO_DEBUG w = Some ((), w') → sameDefaults w w'.
Proof.
  destruct (Settings (d w)) as [s|] eqn:Hs.
  - rewrite (updateProperties_attached w s Hs).
    apply foreach_sameDefaults. intros x u u'. apply updateOne_sameDefaults.
  - rewrite updateProperties_no_store by done. intros [= <-]. apply sameDefaults_refl.
Qed.

Lemma setSettings_unfold settings w :
  setSettings QT_NO_DEBUG settings w =
  if decide (Settings (d w) = settings) then Some ((), w)
  else updateProperties QT_NO_DEBUG (setSettingsPtr settings w).
Proof.
  unfold setSettings. eff_unfold. by destruct (decide (Settings (d w) = settings)).
Qed.

Lemma setSettings_sameDefaults settings w w' :
  setSettings QT_NO_DEBUG settings w = Some ((), w') → sameDefaults w w'.
Proof.
  rewrite setSettings_unfold. destruct (decide _).
  - intros [= <-]. apply sameDefaults_refl.
  - intros Hrun. apply updateProperties_sameDefaults in Hrun.
    eapply sameDefaults_trans; [|exact Hrun]. by apply sameDefaults_same_registry.
Qed.

(** [resetSettings] and [restoreDefaultSettings] are loops of [setSetting]. *)
Lemma setSetting_loop_sameDefaults (pick : PropertyType.t → QVariant.t) l w w' :
  foreach l (λ key, prop ← index key; setSetting QT_NO_DEBUG key (pick prop)) w
  = Some ((), w') →
  sameDefaults w w'.
Proof.
  apply foreach_sameDefaults. intros x u u'. eff_unfold. unfold index.
  destruct (Properties (d u) !! x) as [p|] eqn:Hx.
  - apply setSetting_sameDefaults.
  - intros Hrun. apply setSetting_sameDefaults in Hrun.
    eapply sameDefaults_trans; [|exact Hrun].
    apply (sameDefaults_touched _ _ x). simpl. unfold touched. by rewrite Hx.
Qed.

Lemma resetSettings_sameDefaults w w' :
  resetSettings QT_NO_DEBUG w = Some ((), w') → sameDefaults w w'.
Proof. unfold resetSettings. eff_unfold. apply setSetting_loop_sameDefaults. Qed.

Lemma restoreDefaultSettings_sameDefaults w w' :
  restoreDefaultSettings QT_NO_DEBUG w = Some ((), w') → sameDefaults w w'.
Proof.
  unfold restoreDefaultSettings. eff_unfold. apply setSetting_loop_sameDefaults.
Qed.

End Defaults.

Lemma applySettings_sameDefaults w w' :
  applySettings w = Some ((), w') → sameDefaults w w'.
Proof.
  destruct (applySettings_spec w) as (w1 & Hrun & Hm & _). rewrite Hrun.
  intros [= <-] key. rewrite !defaultPropertyValue_constIndex, Hm.
  unfold constIndex. rewrite lookup_fmap.
  by destruct (Properties (d w) !! key).
Qed.

(** What [registerProperty] leaves as the default of each key. *)
Lemma registerProperty_defaults (QT_NO_DEBUG : bool) key object property signal
    label options w w' k :
  registerProperty QT_NO_DEBUG key object property signal label options w = Some ((), w') →
  defaultPropertyValue k w'
  = if decide (k = key)
    then PropertyType.value (freshEntry object property label options (objects w))
                            (objects w)
    else defaultPropertyValue k w.
Proof.
  rewrite registerProperty_unfold. simpl.
  set (prop := freshEntry object property label options (objects w)).
  intros Hrun.
  assert (∃ prop' h1,
             PropertyType.DefaultValue prop' = PropertyType.DefaultValue prop
             ∧ sameDefaults (registeredWorld key object signal prop' h1 w) w')
    as (prop' & h1 & Hd & Hsame).
  { destruct (Settings (d w)) as [s|];
      [destruct (QSettings.contains (stores w) s key);
       [destruct (PropertyType.setValue _ _ _ _) as [[r h1]|]; [|done]|]|];
      (eexists _, _; split;
       [|destruct (SaveToSettingsWhenRegister (d w));
         [eapply updateSetting_sameDefaults; exact Hrun
         |injection Hrun as <-; apply sameDefaults_refl]];
       reflexivity). }
  rewrite (Hsame k), defaultPropertyValue_constIndex. simpl. unfold constIndex.
  destruct (decide (k = key)) as [->|Hne].
  - rewrite lookup_insert_eq. simpl. rewrite Hd. reflexivity.
  - rewrite lookup_insert_ne by done.
    by rewrite defaultPropertyValue_constIndex.
Qed.

(** C3, as stated, fails: a second [registerProperty] for the same key
    captures the default again.  After [setSetting("fontSize", 14)], whose
    default was captured as 12, registering [fontSize] again makes the
    default 14. *)
Lemma C3_counterexample :
  defaultPropertyValue "fontSize" demoRegistered = QVariant.Int 12
  ∧ ∃ w1 w2,
      setSetting false "fontSize" (QVariant.Int 14) demoRegistered = Some ((), w1)
      ∧ registerProperty false "fontSize" (Some 1%positive) "fontSize"
          "valueChanged(int)" "Font size" PropertyType.OptionNone w1 = Some ((), w2)
      ∧ defaultPropertyValue "fontSize" w2 = QVariant.Int 14
      ∧ defaultPropertyValue "fontSize" w2 ≠ defaultPropertyValue "fontSize" demoRegistered.
Proof.
  split; [vm_compute; reflexivity|].
  eexists _, _. split; [vm_compute; reflexivity|].
  split; [vm_compute; reflexivity|]. split; [vm_compute; reflexivity|].
  vm_compute. discriminate.
Qed.

(** C3, amended. The default value of a key is captured by every
    [registerProperty] call for that key, the first and each later one, from
    the live value of the property at that time (read before a stored value
    is applied); no other operation of the panel, and no registration of
    another key, changes it. *)
Theorem C3_default_value_set_by_each_registration_only :
  ∀ (QT_NO_DEBUG : bool) (op : Operation) (w w' : World) (key : string),
    call QT_NO_DEBUG op w = Some ((), w') →
    defaultPropertyValue key w' = defaultAfter op key w.
Proof.
  intros b op w w' key Hrun.
  destruct op as [s| |k|k v|k object property signal label options| | |]; simpl in *.
  - by apply (setSettings_sameDefaults b s).
  - by apply (updateProperties_sameDefaults b).
  - by apply (updateSetting_sameDefaults b k).
  - by apply (setSetting_sameDefaults b k v).
  - by apply (registerProperty_defaults b k object property signal label options w w').
  - by apply applySettings_sameDefaults.
  - by apply (resetSettings_sameDefaults b).
  - by apply (restoreDefaultSettings_sameDefaults b).
Qed.

Lemma C3_witness :
  ∃ w', call false (CallRegisterProperty "fontSize" (Some 1%positive) "fontSize"
                      "valueChanged(int)" "Font size" PropertyType.OptionNone)
             demoDetached = Some ((), w')
        ∧ defaultPropertyValue "fontSize" w' = QVariant.Int 14.
Proof.
  eexists. split.
  - vm_compute. reflexivity.
  - rewrite (C3_default_value_set_by_each_registration_only false
               (CallRegisterProperty "fontSize" (Some 1%positive) "fontSize"
                  "valueChanged(int)" "Font size" PropertyType.OptionNone)
               demoDetached _ "fontSize");
      [vm_compute; reflexivity|vm_compute; reflexivity].
Defined.

(** ** Builds without assertions: every call returns *)

Lemma setSetting_release key v w : ∃ w', setSetting true key v w = Some ((), w').
Proof.
  destruct (Settings (d w)) as [s|] eqn:Hs.
  - rewrite (setSetting_attached true key v w s Hs).
    destruct (setValue_release (constIndex (Properties (d w)) key) v (objects w))
      as (r & h' & ->). by eexists.
  - rewrite setSetting_no_store by done. by eexists.
Qed.

Lemma updateSetting_release key w : ∃ w', updateSetting true key w = Some ((), w').
Proof.
  destruct (Settings (d w)) as [s|] eqn:Hs.
  - rewrite (updateSetting_attached true key w s Hs). apply setSetting_release.
  - rewrite updateSetting_no_store by done. by eexists.
Qed.

Lemma updateOne_release s key w : ∃ w', updateOne true s key w = Some ((), w').
Proof.
  rewrite updateOne_unfold. destruct (QSettings.contains (stores w) s key).
  - destruct (setValue_release (constIndex (Properties (d w)) key)
                (QSettings.value (stores w) s key) (objects w)) as (r & h' & ->).
    by eexists.
  - apply updateSetting_release.
Qed.

Lemma foreach_release {A} (l : list A) (body : A → Eff World unit) :
  (∀ x u, ∃ u', body x u = Some ((), u')) →
  ∀ w, ∃ w', foreach l body w = Some ((), w').
Proof.
  intros Hbody w.
  destruct (foreach_total (λ _ _, True) l body) with (s := w) as (w' & Hrun & _);
    [|done|by exists w'].
  intros done x rest u _ _. destruct (Hbody x u) as [u' Hu]. by exists u'.
Qed.

Lemma updateProperties_release w : ∃ w', updateProperties true w = Some ((), w').
Proof.
  destruct (Settings (d w)) as [s|] eqn:Hs.
  - rewrite (updateProperties_attached true w s Hs).
    apply foreach_release. intros x u. apply updateOne_release.
  - rewrite updateProperties_no_store by done. by eexists.
Qed.

Lemma setSettings_release s w : ∃ w', setSettings true s w = Some ((), w').
Proof.
  rewrite setSettings_unfold. destruct (decide _); [by eexists|].
  apply updateProperties_release.
Qed.

Lemma setSetting_loop_release (pick : PropertyType.t → QVariant.t) l w :
  ∃ w', foreach l (λ key, prop ← index key; setSetting true key (pick prop)) w
        = Some ((), w').
Proof.
  apply foreach_release. intros x u. eff_unfold. unfold index.
  destruct (Properties (d u) !! x); apply setSetting_release.
Qed.

Lemma registerProperty_release key object property signal label options w :
  ∃ w', registerProperty true key object property signal label options w = Some ((), w').
Proof.
  rewrite registerProperty_unfold. simpl.
  destruct (Settings (d w)) as [s|];
    [destruct (QSettings.contains (stores w) s key);
     [match goal with
      | |- context [PropertyType.setValue true ?q ?v ?h] =>
          destruct (setValue_release q v h) as (r & h1 & ->)
      end|]|];
    (destruct (SaveToSettingsWhenRegister (d w));
     [apply updateSetting_release|by eexists]).
Qed.

(** In a build without assertions every operation completes from every
    state. *)
Lemma call_release (op : Operation) (w : World) :
  ∃ w', call true op w = Some ((), w').
Proof.
  destruct op as [s| |k|k v|k object property signal label options| | |]; simpl.
  - apply setSettings_release.
  - apply updateProperties_release.
  - apply updateSetting_release.
  - apply setSetting_release.
  - apply registerProperty_release.
  - destruct (applySettings_spec w) as (w' & Hrun & _). by exists w'.
  - unfold resetSettings. eff_unfold. apply setSetting_loop_release.
  - unfold restoreDefaultSettings. eff_unfold. apply setSetting_loop_release.
Qed.

(** ** [updateProperties] and [setSettings] *)

Lemma previousPropertyValue_constIndex key w :
  previousPropertyValue key w
  = PropertyType.PreviousValue (constIndex (Properties (d w)) key).
Proof.
  unfold previousPropertyValue, constIndex.
  destruct (Properties (d w) !! key) as [p|] eqn:Hk.
  - by rewrite bool_decide_eq_true_2 by (by eexists).
  - rewrite bool_decide_eq_false_2; [done|]. by intros [? ?].
Qed.

Lemma contains_storeEntries w s key :
  QSettings.contains (stores w) s key = bool_decide (is_Some (storeEntries w s !! key)).
Proof. reflexivity. Qed.

Lemma value_storeEntries w s key val :
  storeEntries w s !! key = Some val → QSettings.value (stores w) s key = val.
Proof. unfold storeEntries, QSettings.value. by intros ->. Qed.

Lemma storeEntries_afterSetSetting s key v h' w :
  storeEntries (afterSetSetting s key v h' w) s = <[key := v]> (storeEntries w s).
Proof. unfold storeEntries. simpl. by rewrite store_at_setValue. Qed.

Lemma decide_elem_of_snoc {A} `{EqDecision A} {B} (x y : A) (l : list A) (a b : B) :
  x ≠ y →
  (if decide (x ∈ l ++ [y]) then a else b) = (if decide (x ∈ l) then a else b).
Proof.
  intros Hne. destruct (decide (x ∈ l)) as [Hin|Hnin].
  - rewrite decide_True; [done|]. apply elem_of_app. by left.
  - rewrite decide_False; [done|]. by rewrite elem_of_app_singleton.
Qed.

Lemma decide_elem_of_snoc_last {A} `{EqDecision A} {B} (x : A) (l : list A) (a b : B) :
  (if decide (x ∈ l ++ [x]) then a else b) = a.
Proof.
  rewrite decide_True; [done|]. apply elem_of_app. right. apply list_elem_of_here.
Qed.

(** One round of the loop keeps the invariant. *)
Lemma updateOne_updating (QT_NO_DEBUG : bool) s w done x u u' :
  x ∉ done →
  is_Some (Properties (d w) !! x) →
  updating s w done u →
  updateOne QT_NO_DEBUG s x u = Some ((), u') →
  updating s w (done ++ [x]) u'.
Proof.
  intros Hx Hreg (Hs & Hdom & Hprev & Hkept & Hnew).
  assert (is_Some (Properties (d u) !! x)) as [p Hp] by (by apply Hdom).
  rewrite updateOne_unfold, contains_storeEntries.
  destruct (storeEntries w s !! x) as [val|] eqn:Hstored.
  - (* the store holds the key: its value goes to the target and is recorded *)
    rewrite (Hkept x val Hstored).
    rewrite bool_decide_eq_true_2 by (by eexists).
    rewrite (value_storeEntries u s x val) by (by apply Hkept).
    destruct (PropertyType.setValue _ _ _ _) as [[r h']|]; [|done].
    intros [= <-]. unfold updating. simpl.
    split; [done|]. split; [|split; [|split]].
    + intros k. destruct (decide (x = k)) as [<-|Hne].
      * rewrite lookup_insert_eq. split; [done|by eexists].
      * rewrite lookup_insert_ne by done. apply Hdom.
    + intros k. destruct (decide (k = x)) as [->|Hne].
      * rewrite decide_elem_of_snoc_last, Hstored.
        rewrite previousPropertyValue_constIndex. simpl.
        unfold constIndex at 1. by rewrite lookup_insert_eq.
      * rewrite decide_elem_of_snoc by done. rewrite <- Hprev.
        rewrite !previousPropertyValue_constIndex. simpl.
        unfold constIndex. by rewrite lookup_insert_ne.
    + exact Hkept.
    + intros k Hk. assert (k ≠ x) as Hne by congruence.
      rewrite decide_elem_of_snoc by done. by apply Hnew.
  - (* the store lacks the key: the live value is saved *)
    pose proof (Hnew x Hstored) as Hnone. rewrite decide_False in Hnone by done.
    rewrite Hnone. rewrite bool_decide_eq_false_2 by (by intros [? ?]).
    rewrite (updateSetting_attached QT_NO_DEBUG x u s Hs).
    rewrite (touched_registered x _ p Hp), setProperties_id.
    rewrite (setSetting_attached QT_NO_DEBUG x _ u s Hs).
    destruct (PropertyType.setValue _ _ _ _) as [[r h']|]; [|done].
    intros [= <-]. unfold updating.
    assert (Properties (d (afterSetSetting s x
               (PropertyType.value (constIndex (Properties (d u)) x) (objects u)) h' u))
            = Properties (d u)) as Hm.
    { simpl. by apply (touched_registered x _ p). }
    split; [done|]. split; [|split; [|split]].
    + intros k. rewrite Hm. apply Hdom.
    + intros k. rewrite previousPropertyValue_constIndex, Hm.
      rewrite <- previousPropertyValue_constIndex, Hprev.
      destruct (decide (k = x)) as [->|Hne].
      * rewrite decide_elem_of_snoc_last, Hstored. by rewrite decide_False.
      * by rewrite decide_elem_of_snoc.
    + intros k v Hk. assert (x ≠ k) as Hne by congruence.
      rewrite storeEntries_afterSetSetting, lookup_insert_ne by done. by apply Hkept.
    + intros k Hk. rewrite storeEntries_afterSetSetting.
      destruct (decide (k = x)) as [->|Hne].
      * rewrite decide_elem_of_snoc_last, lookup_insert_eq. by eexists.
      * rewrite decide_elem_of_snoc, lookup_insert_ne by done. by apply Hnew.
Qed.

(** A completed [updateProperties] with the store [s] attached has
    recorded every registered key and registered nothing new. *)
Lemma updateProperties_records (QT_NO_DEBUG : bool) s w w' :
  Settings (d w) = Some s →
  updateProperties QT_NO_DEBUG w = Some ((), w') →
  Settings (d w') = Some s
  ∧ (∀ key, is_Some (Properties (d w') !! key) ↔ is_Some (Properties (d w) !! key))
  ∧ (∀ key p, Properties (d w) !! key = Some p → recorded s key p w w').
Proof.
  intros Hs. rewrite (updateProperties_attached QT_NO_DEBUG w s Hs). intros Hrun.
  assert (updating s w (keys (Properties (d w))) w') as (Hs' & Hdom & Hprev & Hkept & Hnew).
  { apply (foreach_partial (updating s w) (keys (Properties (d w)))
             (updateOne QT_NO_DEBUG s)) with (s := w); [| |exact Hrun].
    - intros done x rest u u' Hl Hinv Hstep.
      apply (updateOne_updating QT_NO_DEBUG s w done x u u'); [| |done|done].
      + eapply NoDup_middle_fresh. rewrite <- Hl. apply NoDup_keys.
      + apply elem_of_keys. rewrite Hl. apply elem_of_app. right. apply list_elem_of_here.
    - unfold updating. split; [done|]. split; [done|]. split; [done|].
      split; [done|]. intros k Hk. by rewrite decide_False by apply not_elem_of_nil. }
  split; [done|]. split; [done|].
  intros key p Hp. unfold recorded.
  assert (key ∈ keys (Properties (d w))) as Hin by (apply elem_of_keys; by exists p).
  pose proof (Hprev key) as Hpk. rewrite decide_True in Hpk by done.
  destruct (storeEntries w s !! key) as [val|] eqn:Hstored.
  - split; [exact Hpk|by apply Hkept].
  - split.
    + rewrite Hpk. simpl. by apply previousPropertyValue_registered.
    + pose proof (Hnew key Hstored) as Hn. by rewrite decide_True in Hn.
Qed.

(** ** What [setValue] hands over *)

(** A value the target accepts is handed over as it is. *)
Lemma handedOver_accepted (h : QObject.heap) p val :
  accepts h p val = true → handedOver h p val = val.
Proof.
  unfold accepts, handedOver.
  destruct (PropertyType.Object p) as [o|]; [|done].
  destruct (isEmpty (PropertyType.Property p)); [done|]. simpl.
  destruct (QObject.findProperty _ _) as [mp|]; [|done].
  intros Hc. by rewrite (canWrite_not_normalised mp val Hc).
Qed.

(** The invalid value is handed to a declared string-list property as the
    empty list, which the property accepts. *)
Lemma handedOver_string_list (h : QObject.heap) p o mp :
  PropertyType.Object p = Some o →
  isEmpty (PropertyType.Property p) = false →
  QObject.findProperty (QObject.at_ h o) (PropertyType.Property p) = Some mp →
  QMetaProperty.typeName mp = "QStringList" →
  handedOver h p QVariant.Invalid = QVariant.StringList []
  ∧ accepts h p (QVariant.StringList []) = true.
Proof.
  intros Ho He Hf Hty. unfold handedOver, accepts. rewrite Ho, He, Hf. simpl.
  unfold QObject.canWrite. rewrite Hty. by split.
Qed.

Lemma handedOver_metaObject (h h' : QObject.heap) p val :
  (∀ a, QObject.metaObject (QObject.at_ h' a) = QObject.metaObject (QObject.at_ h a)) →
  handedOver h' p val = handedOver h p val.
Proof.
  intros Hmeta. unfold handedOver, QObject.findProperty.
  destruct (PropertyType.Object p) as [o|]; [|done]. by rewrite Hmeta.
Qed.

(** When the target accepts what is handed over, the write succeeds in
    every build and leaves exactly that in the property. *)
Lemma setValue_handedOver (QT_NO_DEBUG : bool) p val (h : QObject.heap) :
  accepts h p (handedOver h p val) = true →
  ∃ h', PropertyType.setValue QT_NO_DEBUG p val h = Some (true, h')
        ∧ PropertyType.value p h' = handedOver h p val
        ∧ (∀ a, QObject.metaObject (QObject.at_ h' a)
                = QObject.metaObject (QObject.at_ h a))
        ∧ (∀ q, ¬ sameTarget q p → PropertyType.value q h' = PropertyType.value q h).
Proof.
  unfold accepts, handedOver.
  destruct (PropertyType.Object p) as [o|] eqn:Ho; [|done].
  destruct (isEmpty (PropertyType.Property p)) eqn:He; [done|]. simpl.
  destruct (QObject.findProperty _ _) as [mp|] eqn:Hf; [|done].
  set (v := if PropertyType.isStringListType (Some mp) && negb (QVariant.isValid val)
            then QVariant.StringList [] else val).
  intros Hc. rewrite (setValue_unfold QT_NO_DEBUG p o val h Ho He). simpl.
  rewrite Hf. fold v.
  destruct (setProperty_declared o _ v h mp Hf Hc) as [Hok Hval].
  exists (QObject.setProperty o (PropertyType.Property p) v h).2.
  rewrite Hok, orb_true_r. split; [|split; [|split]].
  - rewrite <- Hok. by destruct (QObject.setProperty _ _ _ _).
  - unfold PropertyType.value. by rewrite Ho, He.
  - intros a. apply setProperty_metaObject.
  - intros q Hq. unfold PropertyType.value.
    destruct (PropertyType.Object q) as [oq|] eqn:Hoq; [|done].
    destruct (isEmpty (PropertyType.Property q)); [done|].
    apply setProperty_property_other.
    destruct (decide (oq = o)) as [->|]; [|by left]. right.
    intros Hn. apply Hq. split; [by rewrite Ho, Hoq|done].
Qed.

(** ** [registerProperty] when the store holds a value *)

Lemma demoUnsetPathsAttached_reached :
  run (setSettings false (Some 1%positive)) (Some (newWorld demoObjects unsetPathsStore))
  = Some demoUnsetPathsAttached.
Proof. vm_compute. reflexivity. Qed.

(** C4, as stated, fails: the store holds the invalid variant for [paths];
    registering the string-list property [paths] makes the stored value the
    recorded previous value, but what is written onto the live property is
    the empty list, not the stored value. *)
Lemma C4_counterexample :
  Settings (d demoUnsetPathsAttached) = Some 1%positive
  ∧ QSettings.entries (QSettings.at_ (stores demoUnsetPathsAttached) 1) !! "paths"
    = Some QVariant.Invalid
  ∧ ∃ w', registerProperty false "paths" (Some 1%positive) "paths" "pathsChanged()"
            "Paths" PropertyType.OptionNone demoUnsetPathsAttached = Some ((), w')
          ∧ previousPropertyValue "paths" w' = QVariant.Invalid
          ∧ propertyValue "paths" w' = QVariant.StringList []
          ∧ propertyValue "paths" w' ≠ QVariant.Invalid.
Proof.
  split; [reflexivity|]. split; [reflexivity|].
  eexists. split; [vm_compute; reflexivity|].
  split; [vm_compute; reflexivity|]. split; [vm_compute; reflexivity|].
  vm_compute. discriminate.
Qed.

(** C4, amended. When a store is attached and already holds a value for the
    key, every [registerProperty] call for the key that completes leaves the
    stored value as the recorded previous value, and the live value read
    before as the default.  The stored value goes to the live property
    through [PropertyType::setValue]: when the property accepts what is
    handed over, the call completes and the live value is the stored value,
    except that an invalid stored value on a property of declared type
    [QStringList] is written as the empty list. *)
Theorem C4_registerProperty_stored_value_takes_precedence :
  ∀ (QT_NO_DEBUG : bool) (w : World) (key : string) (object : QObject.ptr)
    (property signal label : string) (options : Z) (s : positive) (val : QVariant.t),
    Settings (d w) = Some s →
    QSettings.entries (QSettings.at_ (stores w) s) !! key = Some val →
    (∀ w', registerProperty QT_NO_DEBUG key object property signal label options w
           = Some ((), w') →
           previousPropertyValue key w' = val
           ∧ defaultPropertyValue key w'
             = PropertyType.value (freshEntry object property label options (objects w))
                                  (objects w))
    ∧ (accepts (objects w) (freshEntry object property label options (objects w))
         (handedOver (objects w) (freshEntry object property label options (objects w)) val)
       = true →
       ∃ w', registerProperty QT_NO_DEBUG key object property signal label options w
             = Some ((), w')
             ∧ propertyValue key w'
               = handedOver (objects w)
                   (freshEntry object property label options (objects w)) val
             ∧ previousPropertyValue key w' = val)
    ∧ (accepts (objects w) (freshEntry object property label options (objects w)) val
       = true →
       handedOver (objects w) (freshEntry object property label options (objects w)) val
       = val)
    ∧ (∀ o mp, object = Some o →
               isEmpty property = false →
               QObject.findProperty (QObject.at_ (objects w) o) property = Some mp →
               QMetaProperty.typeName mp = "QStringList" →
               val = QVariant.Invalid →
               handedOver (objects w)
                 (freshEntry object property label options (objects w)) val
               = QVariant.StringList []
               ∧ accepts (objects w) (freshEntry object property label options (objects w))
                   (QVariant.StringList []) = true).
Proof.
  intros b w key object property signal label options s val Hs Hval.
  set (prop := freshEntry object property label options (objects w)) in *.
  set (prop' := PropertyType.setPreviousValue val prop).
  split; [|split; [|split]].
  - rewrite registerProperty_unfold. simpl. fold prop. rewrite Hs.
    assert (QSettings.contains (stores w) s key = true) as ->.
    { unfold QSettings.contains. apply bool_decide_eq_true_2. by exists val. }
    assert (QSettings.value (stores w) s key = val) as ->.
    { unfold QSettings.value. by rewrite Hval. }
    intros w'. destruct (PropertyType.setValue b prop val (objects w)) as [[r h1]|]; [|done].
    set (w1 := registeredWorld key object signal prop' h1 w).
    assert (Properties (d w1) !! key = Some prop') as Hk1.
    { simpl. apply lookup_insert_eq. }
    intros Hrun.
    assert (Properties (d w') !! key = Some prop') as Hk'.
    { destruct (SaveToSettingsWhenRegister (d w)).
      - by rewrite (updateSetting_registry b key prop' w1 w' Hk1 Hrun).
      - by injection Hrun as <-. }
    rewrite (previousPropertyValue_registered key prop' _ Hk'),
            (defaultPropertyValue_registered key prop' _ Hk').
    split; reflexivity.
  - intros Hacc.
    rewrite registerProperty_unfold. simpl. fold prop. rewrite Hs.
    assert (QSettings.contains (stores w) s key = true) as ->.
    { unfold QSettings.contains. apply bool_decide_eq_true_2. by exists val. }
    assert (QSettings.value (stores w) s key = val) as ->.
    { unfold QSettings.value. by rewrite Hval. }
    destruct (setValue_handedOver b prop val (objects w) Hacc)
      as (h1 & Hset & Hlive & Hmeta & _).
    rewrite Hset.
    change (PropertyType.setPreviousValue val prop) with prop'.
    set (w1 := registeredWorld key object signal prop' h1 w).
    assert (Properties (d w1) !! key = Some prop') as Hk1.
    { simpl. apply lookup_insert_eq. }
    destruct (SaveToSettingsWhenRegister (d w)).
    + rewrite (updateSetting_attached b key w1 s Hs).
      rewrite (touched_registered key _ prop' Hk1), setProperties_id.
      unfold constIndex. rewrite Hk1. simpl.
      replace (PropertyType.value prop' h1) with (handedOver (objects w) prop val)
        by (symmetry; exact Hlive).
      destruct (setSetting_accepted b key (handedOver (objects w) prop val)
                  w1 s prop' Hs Hk1) as (h2 & Hrun & Hlive2 & _).
      { simpl. rewrite (accepts_metaObject (objects w)); [exact Hacc|exact Hmeta]. }
      eexists. split; [exact Hrun|].
      match goal with
      | |- propertyValue key ?w2 = _ ∧ _ =>
          assert (Properties (d w2) !! key = Some prop') as Hk2
      end.
      { simpl. rewrite (touched_registered key _ prop'); [|apply lookup_insert_eq].
        apply lookup_insert_eq. }
      rewrite (propertyValue_registered key prop' _ Hk2),
              (previousPropertyValue_registered key prop' _ Hk2).
      split; [exact Hlive2|reflexivity].
    + exists w1. split; [reflexivity|].
      rewrite (propertyValue_registered key prop' _ Hk1),
              (previousPropertyValue_registered key prop' _ Hk1).
      split; [exact Hlive|reflexivity].
  - apply handedOver_accepted.
  - intros o mp -> He Hf Hty ->.
    apply (handedOver_string_list (objects w) prop o mp); done.
Qed.

Lemma C4_witness :
  (Settings (d demoSaved) = Some 1%positive
   ∧ QSettings.entries (QSettings.at_ (stores demoSaved) 1) !! "fontSize"
     = Some (QVariant.Int 18)
   ∧ PropertyType.value
       (freshEntry (Some 1%positive) "fontSize" "Font size" PropertyType.OptionNone
          (objects demoSaved)) (objects demoSaved) = QVariant.Int 12
   ∧ ∃ w', registerProperty false "fontSize" (Some 1%positive) "fontSize"
             "valueChanged(int)" "Font size" PropertyType.OptionNone demoSaved
           = Some ((), w')
           ∧ propertyValue "fontSize" w' = QVariant.Int 18
           ∧ previousPropertyValue "fontSize" w' = QVariant.Int 18
           ∧ defaultPropertyValue "fontSize" w' = QVariant.Int 12)
  ∧ (Settings (d demoUnsetPathsAttached) = Some 1%positive
     ∧ QSettings.entries (QSettings.at_ (stores demoUnsetPathsAttached) 1) !! "paths"
       = Some QVariant.Invalid
     ∧ ∃ w', registerProperty false "paths" (Some 1%positive) "paths" "pathsChanged()"
               "Paths" PropertyType.OptionNone demoUnsetPathsAttached = Some ((), w')
             ∧ propertyValue "paths" w' = QVariant.StringList []
             ∧ previousPropertyValue "paths" w' = QVariant.Invalid).
Proof.
  split.
  - split; [reflexivity|]. split; [reflexivity|]. split; [reflexivity|].
    destruct (C4_registerProperty_stored_value_takes_precedence false
                demoSaved "fontSize" (Some 1%positive) "fontSize" "valueChanged(int)"
                "Font size" PropertyType.OptionNone 1%positive (QVariant.Int 18))
      as (Hdone & Hwritten & _); [reflexivity|reflexivity|].
    destruct (Hwritten eq_refl) as (w' & Hrun & Hlive & Hprev).
    exists w'. split; [exact Hrun|]. split; [exact Hlive|]. split; [exact Hprev|].
    exact (proj2 (Hdone w' Hrun)).
  - split; [reflexivity|]. split; [reflexivity|].
    destruct (C4_registerProperty_stored_value_takes_precedence false
                demoUnsetPathsAttached "paths" (Some 1%positive) "paths" "pathsChanged()"
                "Paths" PropertyType.OptionNone 1%positive QVariant.Invalid)
      as (_ & Hwritten & _); [reflexivity|reflexivity|].
    destruct (Hwritten eq_refl) as (w' & Hrun & Hlive & Hprev).
    exists w'. split; [exact Hrun|]. split; [exact Hlive|exact Hprev].
Defined.

(** With 18 stored for the integer property [fontSize], the live value and
    the previous value become 18 and the default stays 12. *)
Example demoSaved_registered :
  let w := run (registerProperty false "fontSize" (Some 1%positive) "fontSize"
                  "valueChanged(int)" "Font size" PropertyType.OptionNone)
               (Some demoSaved) in
  (propertyValue "fontSize" <$> w) = Some (QVariant.Int 18)
  ∧ (previousPropertyValue "fontSize" <$> w) = Some (QVariant.Int 18)
  ∧ (defaultPropertyValue "fontSize" <$> w) = Some (QVariant.Int 12).
Proof. vm_compute. repeat split; reflexivity. Qed.

(** ** [setSetting] when the store is in an error state *)

Lemma storeEntries_withStatus status s w :
  storeEntries (withStatus status s w) s = storeEntries w s.
Proof. unfold storeEntries, withStatus, QSettings.at_. simpl. by rewrite lookup_insert_eq. Qed.

Lemma status_withStatus status s w :
  QSettings.status (QSettings.at_ (stores (withStatus status s w)) s) = status.
Proof. unfold withStatus, QSettings.at_. simpl. by rewrite lookup_insert_eq. Qed.

Lemma value_withStatus status s w key :
  QSettings.value (stores (withStatus status s w)) s key = QSettings.value (stores w) s key.
Proof.
  change (default QVariant.Invalid (storeEntries (withStatus status s w) s !! key)
          = default QVariant.Invalid (storeEntries w s !! key)).
  by rewrite storeEntries_withStatus.
Qed.

Lemma decimal_status status : decimal (QSettings.code status) = statusDigits status.
Proof. by destruct status. Qed.

Lemma demoUnsetPathsFailing_reached :
  demoUnsetPathsFailing = withStatus QSettings.AccessError 1 demoUnsetPaths.
Proof. vm_compute. reflexivity. Qed.

(** C7, as stated, fails: with the store in an error state the call returns
    and logs the warning, but the live property does not always hold the new
    value afterwards.  The invalid value set on the registered string-list
    property [paths] leaves the empty list; and in a build without
    assertions a value set on a key that is not registered reaches no
    object at all. *)
Lemma C7_counterexample :
  (Settings (d demoUnsetPathsFailing) = Some 1%positive
   ∧ QSettings.status (QSettings.at_ (stores demoUnsetPathsFailing) 1)
     = QSettings.AccessError
   ∧ ∃ w', setSetting false "paths" QVariant.Invalid demoUnsetPathsFailing = Some ((), w')
           ∧ warnings w'
             = [("Error #1 while writing setting " ++ quote ++ "paths" ++ quote)%string]
           ∧ propertyValue "paths" w' = QVariant.StringList []
           ∧ propertyValue "paths" w' ≠ QVariant.Invalid)
  ∧ (Settings (d demoFailing) = Some 1%positive
     ∧ QSettings.status (QSettings.at_ (stores demoFailing) 1) = QSettings.AccessError
     ∧ ∃ w', setSetting true "language" (QVariant.String "fr") demoFailing = Some ((), w')
             ∧ warnings w'
               = [("Error #1 while writing setting " ++ quote ++ "language" ++ quote)%string]
             ∧ objects w' = objects demoFailing
             ∧ propertyValue "language" w' ≠ QVariant.String "fr").
Proof.
  split.
  - split; [reflexivity|]. split; [reflexivity|].
    eexists. split; [vm_compute; reflexivity|].
    split; [vm_compute; reflexivity|]. split; [vm_compute; reflexivity|].
    vm_compute. discriminate.
  - split; [reflexivity|]. split; [reflexivity|].
    eexists. split; [vm_compute; reflexivity|].
    split; [vm_compute; reflexivity|]. split; [vm_compute; reflexivity|].
    vm_compute. discriminate.
Qed.

(** C7, amended. When the attached store is in an error state, [setSetting]
    returns in exactly the cases in which it returns with the same store
    without error, and a call that returns differs from that one only in the
    warning [Error #<code> while writing setting "<key>"] (code 1 for an
    access error, 2 for a format error) it appends to the log: objects,
    registry, emissions and store entries are the same, so the store error
    has no effect on the write to the live property and nothing is raised
    or returned.  For a registered key whose target accepts the value the
    call returns and the live value is the new value.  (The target is a
    passive object: the write does not call back into the panel, so one
    call logs one warning.) *)
Theorem C7_setSetting_store_error_is_logged_only :
  ∀ (QT_NO_DEBUG : bool) (w : World) (key : string) (v : QVariant.t) (s : positive),
    Settings (d w) = Some s →
    QSettings.status (QSettings.at_ (stores w) s) ≠ QSettings.NoError →
    (∀ u0, setSetting QT_NO_DEBUG key v (withStatus QSettings.NoError s w) = Some ((), u0) →
           ∃ u, setSetting QT_NO_DEBUG key v w = Some ((), u)
                ∧ warnings u0 = warnings w
                ∧ warnings u
                  = warnings w
                    ++ [("Error #" ++ statusDigits (QSettings.status (QSettings.at_ (stores w) s))
                           ++ " while writing setting " ++ quote ++ key ++ quote)%string]
                ∧ objects u = objects u0
                ∧ Properties (d u) = Properties (d u0)
                ∧ emitted u = emitted u0
                ∧ storeEntries u s = storeEntries u0 s
                ∧ QSettings.status (QSettings.at_ (stores u) s)
                  = QSettings.status (QSettings.at_ (stores w) s))
    ∧ (∀ u, setSetting QT_NO_DEBUG key v w = Some ((), u) →
            ∃ u0, setSetting QT_NO_DEBUG key v (withStatus QSettings.NoError s w)
                  = Some ((), u0))
    ∧ (∀ p, Properties (d w) !! key = Some p →
            accepts (objects w) p v = true →
            ∃ u, setSetting QT_NO_DEBUG key v w = Some ((), u)
                 ∧ propertyValue key u = v).
Proof.
  intros b w key v s Hs Herr.
  set (w0 := withStatus QSettings.NoError s w).
  assert (Settings (d w0) = Some s) as Hs0 by done.
  rewrite (setSetting_attached b key v w s Hs), (setSetting_attached b key v w0 s Hs0).
  change (Properties (d w0)) with (Properties (d w)).
  change (objects w0) with (objects w).
  assert (QSettings.status (QSettings.at_ (stores w0) s) = QSettings.NoError) as Hst0
    by apply status_withStatus.
  assert (QSettings.value (stores w0) s key = QSettings.value (stores w) s key) as Hval0
    by apply value_withStatus.
  split; [|split].
  - intros u0.
    destruct (PropertyType.setValue b _ v (objects w)) as [[r h']|]; [|done].
    intros [= <-]. eexists. split; [reflexivity|].
    split; [|split; [|split; [|split; [|split; [|split]]]]].
    + unfold afterSetSetting. cbn [warnings]. rewrite Hst0.
      rewrite decide_False; [apply app_nil_r|]. by intros Hne.
    + unfold afterSetSetting. cbn [warnings]. rewrite decide_True by done.
      unfold writeError. by rewrite decimal_status.
    + done.
    + done.
    + unfold afterSetSetting. cbn [emitted]. by rewrite Hval0.
    + rewrite !storeEntries_afterSetSetting. unfold w0.
      by rewrite storeEntries_withStatus.
    + unfold afterSetSetting. cbn [stores]. by rewrite store_at_setValue.
  - intros u. destruct (PropertyType.setValue b _ v (objects w)) as [[r h']|]; [|done].
    intros _. by eexists.
  - intros p Hk Hacc.
    destruct (setValue_accepts b p v (objects w) Hacc) as (h' & Hset & Hval & _).
    unfold constIndex. rewrite Hk. simpl. rewrite Hset.
    eexists. split; [reflexivity|].
    rewrite (propertyValue_registered key p); [exact Hval|].
    simpl. by rewrite (touched_registered key _ p Hk).
Qed.

Lemma C7_witness :
  Settings (d demoFailing) = Some 1%positive
  ∧ QSettings.status (QSettings.at_ (stores demoFailing) 1) ≠ QSettings.NoError
  ∧ Properties (d demoFailing) !! "fontSize" = Some demoFontSize
  ∧ accepts (objects demoFailing) demoFontSize (QVariant.Int 14) = true
  ∧ (∃ u, setSetting false "fontSize" (QVariant.Int 14) demoFailing = Some ((), u)
          ∧ propertyValue "fontSize" u = QVariant.Int 14)
  ∧ ∃ u0 u,
      setSetting false "fontSize" (QVariant.Int 14)
        (withStatus QSettings.NoError 1 demoFailing) = Some ((), u0)
      ∧ setSetting false "fontSize" (QVariant.Int 14) demoFailing = Some ((), u)
      ∧ warnings u0 = []
      ∧ warnings u
        = [("Error #1 while writing setting " ++ quote ++ "fontSize" ++ quote)%string]
      ∧ objects u = objects u0.
Proof.
  assert (QSettings.status (QSettings.at_ (stores demoFailing) 1) ≠ QSettings.NoError)
    as Herr by (vm_compute; discriminate).
  split; [reflexivity|]. split; [exact Herr|].
  split; [reflexivity|]. split; [reflexivity|].
  destruct (C7_setSetting_store_error_is_logged_only false demoFailing "fontSize"
              (QVariant.Int 14) 1%positive eq_refl Herr) as (Hsame & _ & Hlive).
  split; [apply (Hlive demoFontSize); reflexivity|].
  assert (∃ u0, setSetting false "fontSize" (QVariant.Int 14)
                  (withStatus QSettings.NoError 1 demoFailing) = Some ((), u0)) as [u0 Hrun0].
  { eexists. vm_compute. reflexivity. }
  destruct (Hsame u0 Hrun0) as (u & Hrun & Hw0 & Hw & Ho & _).
  exists u0, u. split; [exact Hrun0|]. split; [exact Hrun|].
  split; [exact Hw0|]. split; [exact Hw|exact Ho].
Defined.

(** ** [setSettings]: attaching a store *)

Lemma value_recordedEntry s w k p h :
  PropertyType.value (recordedEntry s w k p) h = PropertyType.value p h.
Proof.
  unfold recordedEntry. destruct (storeEntries w s !! k); [|done].
  apply value_setPreviousValue.
Qed.

Lemma storeEntries_setSettingsPtr s0 w s :
  storeEntries (setSettingsPtr s0 w) s = storeEntries w s.
Proof. reflexivity. Qed.

(** One round of the loop over an attachable registry completes and keeps
    the invariant. *)
Lemma updateOne_attaching (QT_NO_DEBUG : bool) s w done x u :
  attachable s w →
  x ∉ done →
  is_Some (Properties (d w) !! x) →
  attaching s w done u →
  ∃ u', updateOne QT_NO_DEBUG s x u = Some ((), u') ∧ attaching s w (done ++ [x]) u'.
Proof.
  intros [Hacc Hinj] Hx [p Hp] (Hs & Hmeta & Hreg & Hlive & Hsaved & Hrest).
  assert (Properties (d u) !! x = Some p) as Hpu.
  { rewrite Hreg, Hp. simpl. by rewrite decide_False. }
  assert (PropertyType.value p (objects u) = PropertyType.value p (objects w)) as Hpv.
  { rewrite (Hlive x p Hp). by rewrite decide_False. }
  assert (∀ k q h', Properties (d w) !! k = Some q →
            PropertyType.value p h' = pushed s w x p →
            (∀ q', ¬ sameTarget q' p →
                   PropertyType.value q' h' = PropertyType.value q' (objects u)) →
            PropertyType.value q h'
            = if decide (k ∈ done ++ [x]) then pushed s w k q
              else PropertyType.value q (objects w)) as Hlive'.
  { intros k q h' Hq Hval Hother. destruct (decide (k = x)) as [->|Hne].
    - assert (q = p) as -> by congruence. by rewrite decide_elem_of_snoc_last.
    - rewrite decide_elem_of_snoc by done. rewrite Hother; [by apply Hlive|].
      intros Hst. apply Hne. by apply (Hinj k x q p). }
  assert (∀ k, k ∉ done ++ [x] → k ≠ x ∧ k ∉ done) as Hfresh.
  { intros k Hk. split.
    - intros ->. apply Hk. apply elem_of_app. right. apply list_elem_of_here.
    - intros Hin. apply Hk. apply elem_of_app. by left. }
  pose proof (Hacc x p Hp) as Hok. unfold pushed in Hok.
  rewrite updateOne_unfold, contains_storeEntries, (Hrest x Hx).
  destruct (storeEntries w s !! x) as [val|] eqn:Hstored.
  - (* the store holds the key: what it holds goes to the target *)
    rewrite bool_decide_eq_true_2 by (by eexists).
    rewrite (value_storeEntries u s x val) by (by rewrite Hrest).
    replace (constIndex (Properties (d u)) x) with p
      by (unfold constIndex; by rewrite Hpu).
    destruct (setValue_handedOver QT_NO_DEBUG p val (objects u))
      as (h' & Hset & Hval & Hmeta' & Hother).
    { rewrite (handedOver_metaObject (objects w) (objects u)) by exact Hmeta.
      rewrite (accepts_metaObject (objects w) (objects u)) by exact Hmeta.
      exact Hok. }
    rewrite (handedOver_metaObject (objects w) (objects u)) in Hval by exact Hmeta.
    rewrite Hset. eexists. split; [reflexivity|].
    split; [exact Hs|]. split; [|split; [|split; [|split]]].
    + intros a. etrans; [apply Hmeta'|apply Hmeta].
    + intros k.
      change (<[x := PropertyType.setPreviousValue val p]> (Properties (d u)) !! k
              = (λ q, if decide (k ∈ done ++ [x]) then recordedEntry s w k q else q)
                  <$> Properties (d w) !! k).
      destruct (decide (k = x)) as [->|Hne].
      * rewrite lookup_insert_eq, Hp. simpl. rewrite decide_elem_of_snoc_last.
        unfold recordedEntry. by rewrite Hstored.
      * rewrite lookup_insert_ne by done. rewrite Hreg.
        destruct (Properties (d w) !! k) as [q|]; simpl; [|done].
        by rewrite decide_elem_of_snoc.
    + intros k q Hq. apply (Hlive' k q h' Hq); [|exact Hother].
      unfold pushed. by rewrite Hstored.
    + intros k q Hq Hin.
      change (storeEntries u s !! k = Some (savedValue s w k q)).
      destruct (decide (k = x)) as [->|Hne].
      * assert (q = p) as -> by congruence.
        rewrite (Hrest x Hx). unfold savedValue. by rewrite Hstored.
      * apply (Hsaved k q Hq). by apply (elem_of_app_singleton k x done Hne).
    + intros k Hk. destruct (Hfresh k Hk) as [_ Hnin]. by apply Hrest.
  - (* the store lacks the key: the live value is saved *)
    rewrite bool_decide_eq_false_2 by (by intros [? ?]).
    rewrite (updateSetting_attached QT_NO_DEBUG x u s Hs).
    replace (constIndex (Properties (d u)) x) with p
      by (unfold constIndex; by rewrite Hpu).
    rewrite (touched_registered x _ p Hpu), setProperties_id.
    destruct (setSetting_accepted QT_NO_DEBUG x (PropertyType.value p (objects u)) u s p
                Hs Hpu) as (h' & Hrun & Hval & Hmeta' & Hother).
    { rewrite (accepts_metaObject (objects w) (objects u)) by exact Hmeta.
      rewrite Hpv. exact Hok. }
    rewrite Hrun. eexists. split; [reflexivity|].
    split; [exact Hs|]. split; [|split; [|split; [|split]]].
    + intros a. etrans; [apply Hmeta'|apply Hmeta].
    + intros k.
      change (touched x (Properties (d u)) !! k
              = (λ q, if decide (k ∈ done ++ [x]) then recordedEntry s w k q else q)
                  <$> Properties (d w) !! k).
      rewrite (touched_registered x _ p Hpu), Hreg.
      destruct (Properties (d w) !! k) as [q|]; simpl; [|done].
      destruct (decide (k = x)) as [->|Hne].
      * rewrite decide_elem_of_snoc_last, decide_False by done.
        unfold recordedEntry. by rewrite Hstored.
      * by rewrite decide_elem_of_snoc.
    + intros k q Hq. apply (Hlive' k q h' Hq); [|exact Hother].
      unfold pushed. rewrite Hstored. by rewrite Hval.
    + intros k q Hq Hin. rewrite storeEntries_afterSetSetting.
      destruct (decide (k = x)) as [->|Hne].
      * assert (q = p) as -> by congruence.
        rewrite lookup_insert_eq. unfold savedValue. by rewrite Hstored, Hpv.
      * rewrite lookup_insert_ne by done.
        apply (Hsaved k q Hq). by apply (elem_of_app_singleton k x done Hne).
    + intros k Hk. destruct (Hfresh k Hk) as [Hne Hnin].
      rewrite storeEntries_afterSetSetting, lookup_insert_ne by done. by apply Hrest.
Qed.

(** [updateProperties] over an attachable registry completes in every build
    and leaves every registered key synchronised with the store. *)
Lemma updateProperties_attaches (QT_NO_DEBUG : bool) s w :
  Settings (d w) = Some s →
  attachable s w →
  ∃ w', updateProperties QT_NO_DEBUG w = Some ((), w')
        ∧ ∀ key p, Properties (d w) !! key = Some p → synchronised s key p w w'.
Proof.
  intros Hs Hatt. rewrite (updateProperties_attached QT_NO_DEBUG w s Hs).
  destruct (foreach_total (attaching s w) (keys (Properties (d w)))
              (updateOne QT_NO_DEBUG s)) with (s := w)
    as (w' & Hrun & Hs' & Hmeta & Hreg & Hlive & Hsaved & Hrest).
  - intros done x rest u Hl Hinv.
    apply (updateOne_attaching QT_NO_DEBUG s w done x u); [done| | |done].
    + eapply NoDup_middle_fresh. rewrite <- Hl. apply NoDup_keys.
    + apply elem_of_keys. rewrite Hl. apply elem_of_app. right. apply list_elem_of_here.
  - split; [done|]. split; [done|]. split; [|split; [|split]].
    + intros k. destruct (Properties (d w) !! k); [|done].
      unfold fmap, option_fmap, option_map.
      by rewrite decide_False by apply not_elem_of_nil.
    + intros k p Hp. by rewrite decide_False by apply not_elem_of_nil.
    + intros k p Hp Hin. by apply not_elem_of_nil in Hin.
    + done.
  - exists w'. split; [exact Hrun|]. intros key p Hp.
    assert (key ∈ keys (Properties (d w))) as Hin by (apply elem_of_keys; by exists p).
    assert (Properties (d w') !! key = Some (recordedEntry s w key p)) as Hp'.
    { rewrite Hreg, Hp. simpl. by rewrite decide_True. }
    pose proof (Hlive key p Hp) as Hl. rewrite decide_True in Hl by done.
    pose proof (Hsaved key p Hp Hin) as Hsv.
    unfold synchronised.
    rewrite (propertyValue_registered key _ w' Hp'), value_recordedEntry, Hl.
    rewrite (previousPropertyValue_registered key _ w' Hp'), Hsv.
    rewrite (propertyValue_registered key p w Hp).
    unfold pushed, savedValue, recordedEntry.
    by destruct (storeEntries w s !! key).
Qed.

Lemma demoPathsDetached_reached :
  run (registerProperty false "paths" (Some 1%positive) "paths" "pathsChanged()"
         "Paths" PropertyType.OptionNone)
      (Some (newWorld demoObjects unsetPathsStore))
  = Some demoPathsDetached.
Proof. vm_compute. reflexivity. Qed.

Lemma demoSharedDetached_reached :
  run (registerProperty false "size" (Some 1%positive) "fontSize" "valueChanged(int)"
         "Size" PropertyType.OptionNone)
    (run (registerProperty false "fontSize" (Some 1%positive) "fontSize"
            "valueChanged(int)" "Font size" PropertyType.OptionNone)
         (Some (newWorld demoObjects twoSizesStore)))
  = Some demoSharedDetached.
Proof. vm_compute. reflexivity. Qed.

Lemma demoTwoDetached_reached :
  run (registerProperty false "paths" (Some 1%positive) "paths" "pathsChanged()"
         "Paths" PropertyType.OptionNone)
    (run (registerProperty false "fontSize" (Some 1%positive) "fontSize"
            "valueChanged(int)" "Font size" PropertyType.OptionNone)
         (Some (newWorld demoObjects savedFontSizeStore)))
  = Some demoTwoDetached.
Proof. vm_compute. reflexivity. Qed.

(** C10, as stated, fails in its last part: a completed [setSettings(s)]
    with a new store does not leave every registered key synchronised with
    it.  A string-list property whose stored value is invalid is left with
    the empty list while the store and the recorded previous value hold the
    invalid value, so the key counts as changed right after the call; and of
    two keys that track one property the first is left with the value
    stored for the second. *)
Lemma C10_counterexample :
  (Settings (d demoPathsDetached) ≠ Some 1%positive
   ∧ ∃ w', setSettings false (Some 1%positive) demoPathsDetached = Some ((), w')
           ∧ storeEntries w' 1 !! "paths" = Some QVariant.Invalid
           ∧ previousPropertyValue "paths" w' = QVariant.Invalid
           ∧ propertyValue "paths" w' = QVariant.StringList []
           ∧ changedSettings w' = ["paths"])
  ∧ (Settings (d demoSharedDetached) ≠ Some 1%positive
     ∧ ∃ w', setSettings false (Some 1%positive) demoSharedDetached = Some ((), w')
             ∧ storeEntries w' 1 !! "fontSize" = Some (QVariant.Int 18)
             ∧ previousPropertyValue "fontSize" w' = QVariant.Int 18
             ∧ propertyValue "fontSize" w' = QVariant.Int 20
             ∧ changedSettings w' = ["fontSize"]).
Proof.
  split.
  - split; [discriminate|].
    eexists. split; [vm_compute; reflexivity|].
    repeat (split; [vm_compute; reflexivity|]). vm_compute. reflexivity.
  - split; [discriminate|].
    eexists. split; [vm_compute; reflexivity|].
    repeat (split; [vm_compute; reflexivity|]). vm_compute. reflexivity.
Qed.

(** C10, amended. [setSettings(s)] with the store that is already attached
    returns the state it was given: registry, objects, stores and
    everything else untouched.  With another store (or none) the pointer is
    replaced and [updateProperties()] is run on the result, once; the call
    completes in every build without assertions; a completed call leaves
    [s] attached, registers no new key, changes nothing else when [s] is no
    store, and has recorded every registered key.  When [s] is a store that
    is attachable (every registered property accepts what its round hands
    to it and no two keys track one property) the call completes in every
    build and every registered key is synchronised: a stored value has been
    written to the live property, as [setValue] hands it over, and is the
    recorded previous value; the live value of a key the store lacked has
    been saved to the store. *)
Theorem C10_setSettings_noop_or_updateProperties :
  ∀ (QT_NO_DEBUG : bool) (w : World) (s : QSettings.ptr),
    (Settings (d w) = s → setSettings QT_NO_DEBUG s w = Some ((), w))
    ∧ (Settings (d w) ≠ s →
       setSettings QT_NO_DEBUG s w = updateProperties QT_NO_DEBUG (setSettingsPtr s w)
       ∧ (QT_NO_DEBUG = true → ∃ w', setSettings QT_NO_DEBUG s w = Some ((), w'))
       ∧ (∀ w', setSettings QT_NO_DEBUG s w = Some ((), w') →
                Settings (d w') = s
                ∧ (∀ key, is_Some (Properties (d w') !! key)
                          ↔ is_Some (Properties (d w) !! key))
                ∧ (s = None → w' = setSettingsPtr None w)
                ∧ (∀ sp key p, s = Some sp → Properties (d w) !! key = Some p →
                               recorded sp key p w w'))
       ∧ (∀ sp, s = Some sp → attachable sp w →
                ∃ w', setSettings QT_NO_DEBUG s w = Some ((), w')
                      ∧ ∀ key p, Properties (d w) !! key = Some p →
                                 synchronised sp key p w w')).
Proof.
  intros b w s. rewrite setSettings_unfold. split.
  - intros Hsame. by rewrite decide_True.
  - intros Hdiff. rewrite decide_False by done. split; [done|]. split; [|split].
    + intros ->. apply updateProperties_release.
    + intros w' Hrun. destruct s as [sp|].
      * destruct (updateProperties_records b sp (setSettingsPtr (Some sp) w) w')
          as (Hs' & Hdom & Hsync); [done|done|].
        split; [done|]. split; [exact Hdom|]. split; [done|].
        intros sp' key p [= <-] Hp. by apply (Hsync key p).
      * rewrite updateProperties_no_store in Hrun by done.
        injection Hrun as <-. split; [done|]. split; [done|]. split; [done|].
        intros sp key p Hsp. discriminate.
    + intros sp -> Hatt.
      apply (updateProperties_attaches b sp (setSettingsPtr (Some sp) w)); [done|].
      exact Hatt.
Qed.

Lemma demoTwoDetached_entry key p :
  Properties (d demoTwoDetached) !! key = Some p →
  (key = "fontSize" ∧ p = demoFontSize) ∨ (key = "paths" ∧ p = demoPaths).
Proof. apply two_entries. Qed.

Lemma demoTwoDetached_attachable : attachable 1 demoTwoDetached.
Proof.
  split.
  - intros key p Hp.
    apply demoTwoDetached_entry in Hp as [[-> ->]|[-> ->]]; vm_compute; reflexivity.
  - intros k1 k2 p1 p2 H1 H2 [_ Hname].
    apply demoTwoDetached_entry in H1 as [[-> ->]|[-> ->]];
      apply demoTwoDetached_entry in H2 as [[-> ->]|[-> ->]];
      first [reflexivity|discriminate Hname].
Qed.

Lemma C10_witness :
  Settings (d demoTwoDetached) ≠ Some 1%positive
  ∧ attachable 1 demoTwoDetached
  ∧ propertyValue "fontSize" demoTwoDetached = QVariant.Int 12
  ∧ storeEntries demoTwoDetached 1 !! "fontSize" = Some (QVariant.Int 18)
  ∧ storeEntries demoTwoDetached 1 !! "paths" = None
  ∧ ∃ w', setSettings false (Some 1%positive) demoTwoDetached = Some ((), w')
          ∧ propertyValue "fontSize" w' = QVariant.Int 18
          ∧ previousPropertyValue "fontSize" w' = QVariant.Int 18
          ∧ storeEntries w' 1 !! "fontSize" = Some (QVariant.Int 18)
          ∧ propertyValue "paths" w' = QVariant.StringList ["/usr/lib"]
          ∧ previousPropertyValue "paths" w' = QVariant.StringList ["/usr/lib"]
          ∧ storeEntries w' 1 !! "paths" = Some (QVariant.StringList ["/usr/lib"]).
Proof.
  assert (Settings (d demoTwoDetached) ≠ Some 1%positive) as Hdiff by discriminate.
  split; [exact Hdiff|]. split; [exact demoTwoDetached_attachable|].
  split; [reflexivity|]. split; [reflexivity|]. split; [reflexivity|].
  destruct (C10_setSettings_noop_or_updateProperties false demoTwoDetached (Some 1%positive))
    as [_ Hother].
  destruct (Hother Hdiff) as (_ & _ & _ & Hatt).
  destruct (Hatt 1%positive eq_refl demoTwoDetached_attachable) as (w' & Hrun & Hsync).
  exists w'. split; [exact Hrun|].
  destruct (Hsync "fontSize" demoFontSize eq_refl) as (Hf1 & Hf2 & Hf3).
  destruct (Hsync "paths" demoPaths eq_refl) as (Hp1 & Hp2 & Hp3).
  split; [exact Hf1|]. split; [exact Hf2|]. split; [exact Hf3|].
  split; [exact Hp1|]. split; [exact Hp2|exact Hp3].
Defined.

(** Attaching a store that holds 18 for [fontSize] to a panel that has the
    widget registered without a store: the widget and the previous value
    become 18 and nothing is emitted. *)
Example setSettings_demo :
  let registered :=
    run (registerProperty false "fontSize" (Some 1%positive) "fontSize"
           "valueChanged(int)" "Font size" PropertyType.OptionNone)
        (Some (newWorld demoObjects savedFontSizeStore)) in
  let attached := run (setSettings false (Some 1%positive)) registered in
  (propertyValue "fontSize" <$> registered) = Some (QVariant.Int 12)
  ∧ (propertyValue "fontSize" <$> attached) = Some (QVariant.Int 18)
  ∧ (previousPropertyValue "fontSize" <$> attached) = Some (QVariant.Int 18)
  ∧ (defaultPropertyValue "fontSize" <$> attached) = Some (QVariant.Int 12)
  ∧ (emitted <$> attached) = Some [].
Proof. vm_compute. repeat split; reflexivity. Qed.


(** * The default path builder *)

Module PathBuilder := ctkCmdLineModuleDefaultPathBuilder.

Ltac path_cases p env :=
  destruct p as [[] [] [] []]; unfold PathBuilder.build; simpl;
  repeat match goal with
         | |- context [match PathBuilder.getenv ?e ?n with _ => _ end] =>
             destruct (PathBuilder.getenv e n)
         | |- context [if PathBuilder.exists_ ?e ?x then _ else _] =>
             destruct (PathBuilder.exists_ e x)
         end;
  simpl.

(** X15. The sources are listed in one fixed order, whatever the order in
    which the flags were set: first the directory of [CTK_MODULE_LOAD_PATH],
    then the home, the current and the application directory.  The list a
    builder makes is the concatenation of the lists of the four builders
    that each have one of its flags and nothing else. *)
Theorem X15_build_lists_sources_in_fixed_order :
  ∀ (p : PathBuilder.Private) (env : PathBuilder.Environment),
    PathBuilder.build p env
    = PathBuilder.build
        (PathBuilder.setLoadFromCtkModuleLoadPath
           (PathBuilder.LoadFromCtkModuleLoadPath p) PathBuilder.new) env
      ++ PathBuilder.build
           (PathBuilder.setLoadFromHomeDir (PathBuilder.LoadFromHomeDir p) PathBuilder.new)
           env
      ++ PathBuilder.build
           (PathBuilder.setLoadFromCurrentDir (PathBuilder.LoadFromCurrentDir p)
              PathBuilder.new) env
      ++ PathBuilder.build
           (PathBuilder.setLoadFromApplicationDir (PathBuilder.LoadFromApplicationDir p)
              PathBuilder.new) env.
Proof. intros p env. path_cases p env; reflexivity. Qed.

(** X16. A builder lists at most seven directories, and an even number of
    them when [CTK_MODULE_LOAD_PATH] is not used: every other source gives
    the directory and its [cli-modules] subdirectory, or nothing. *)
Theorem X16_build_length :
  ∀ (p : PathBuilder.Private) (env : PathBuilder.Environment),
    (List.length (PathBuilder.build p env) ≤ 7)%nat
    ∧ (PathBuilder.LoadFromCtkModuleLoadPath p = false →
       Nat.even (List.length (PathBuilder.build p env)) = true).
Proof.
  intros p env. path_cases p env; (split; [lia|]); first [done|reflexivity].
Qed.

(** X17. The list is empty exactly when the application directory is not
    asked for and every other source that is asked for is missing: its
    directory does not exist or, for [CTK_MODULE_LOAD_PATH], the variable is
    not set. *)
Theorem X17_build_empty_iff :
  ∀ (p : PathBuilder.Private) (env : PathBuilder.Environment),
    PathBuilder.build p env = []
    ↔ PathBuilder.LoadFromApplicationDir p = false
      ∧ (PathBuilder.LoadFromHomeDir p = true →
         PathBuilder.exists_ env (PathBuilder.homePath env) = false)
      ∧ (PathBuilder.LoadFromCurrentDir p = true →
         PathBuilder.exists_ env (PathBuilder.currentPath env) = false)
      ∧ (PathBuilder.LoadFromCtkModuleLoadPath p = true →
         ∀ path, PathBuilder.getenv env "CTK_MODULE_LOAD_PATH" = Some path →
                 PathBuilder.exists_ env path = false).
Proof.
  intros p env. unfold PathBuilder.build.
  destruct p as [home cur app ctk]. simpl.
  destruct (PathBuilder.getenv env "CTK_MODULE_LOAD_PATH") as [ctkPath|];
    [destruct (PathBuilder.exists_ env ctkPath) eqn:Hctk|];
    destruct (PathBuilder.exists_ env (PathBuilder.homePath env));
    destruct (PathBuilder.exists_ env (PathBuilder.currentPath env));
    destruct home, cur, app, ctk; simpl;
    (split; [intros Hnil; try discriminate Hnil;
             repeat split; try done; intros _ path [= <-]; done
            |intros (Happ & Hhome & Hcur & Hc); try discriminate Happ;
             try (by specialize (Hhome eq_refl)); try (by specialize (Hcur eq_refl));
             try (specialize (Hc eq_refl ctkPath eq_refl); congruence);
             reflexivity]).
Qed.

(** X18. A source that is missing is skipped without a trace: when the home
    directory does not exist the home flag has no effect on the list, the
    same for the current directory, and the flag of [CTK_MODULE_LOAD_PATH]
    has no effect when the variable is not set or names a directory that
    does not exist. *)
Theorem X18_build_skips_missing_sources :
  ∀ (p : PathBuilder.Private) (env : PathBuilder.Environment) (doLoad : bool),
    (PathBuilder.exists_ env (PathBuilder.homePath env) = false →
     PathBuilder.build (PathBuilder.setLoadFromHomeDir doLoad p) env
     = PathBuilder.build p env)
    ∧ (PathBuilder.exists_ env (PathBuilder.currentPath env) = false →
       PathBuilder.build (PathBuilder.setLoadFromCurrentDir doLoad p) env
       = PathBuilder.build p env)
    ∧ ((∀ path, PathBuilder.getenv env "CTK_MODULE_LOAD_PATH" = Some path →
                PathBuilder.exists_ env path = false) →
       PathBuilder.build (PathBuilder.setLoadFromCtkModuleLoadPath doLoad p) env
       = PathBuilder.build p env).
Proof.
  intros p env doLoad. unfold PathBuilder.build.
  destruct p as [home cur app ctk]. simpl. split; [|split].
  - intros ->. by destruct doLoad, home.
  - intros ->. by destruct doLoad, cur.
  - intros Hmissing.
    destruct (PathBuilder.getenv env "CTK_MODULE_LOAD_PATH") as [ctkPath|].
    + rewrite (Hmissing ctkPath eq_refl). by destruct doLoad, ctk.
    + by destruct doLoad, ctk.
Qed.

Lemma X18_witness :
  PathBuilder.exists_ PathBuilder.demoEnvironment
    (PathBuilder.currentPath PathBuilder.demoEnvironment) = false
  ∧ PathBuilder.build (PathBuilder.setLoadFromCurrentDir true PathBuilder.new)
      PathBuilder.demoEnvironment
    = PathBuilder.build PathBuilder.new PathBuilder.demoEnvironment.
Proof.
  split; [reflexivity|].
  destruct (X18_build_skips_missing_sources PathBuilder.new PathBuilder.demoEnvironment true)
    as (_ & Hcurrent & _).
  apply Hcurrent. reflexivity.
Defined.

(** X19. The application directory is never checked for existence: asking
    for it always appends the directory and its [cli-modules] subdirectory,
    and they are the last two entries of the list. *)
Theorem X19_build_application_dir_always_last :
  ∀ (p : PathBuilder.Private) (env : PathBuilder.Environment),
    PathBuilder.build (PathBuilder.setLoadFromApplicationDir true p) env
    = PathBuilder.build (PathBuilder.setLoadFromApplicationDir false p) env
      ++ [PathBuilder.applicationDirPath env;
          PathBuilder.inSuffix env (PathBuilder.applicationDirPath env)].
Proof.
  intros p env. unfold PathBuilder.build. destruct p as [home cur app ctk]. simpl.
  by rewrite <- app_assoc.
Qed.

(** X20. When [CTK_MODULE_LOAD_PATH] is asked for, set, and names a
    directory that exists, the first entry of the list is the canonical path
    of that directory (not the text of the variable), and the rest is the
    list without that source. *)
Theorem X20_build_ctk_module_load_path_first :
  ∀ (p : PathBuilder.Private) (env : PathBuilder.Environment) (path : string),
    PathBuilder.getenv env "CTK_MODULE_LOAD_PATH" = Some path →
    PathBuilder.exists_ env path = true →
    PathBuilder.build (PathBuilder.setLoadFromCtkModuleLoadPath true p) env
    = PathBuilder.canonicalPath env path
      :: PathBuilder.build (PathBuilder.setLoadFromCtkModuleLoadPath false p) env.
Proof.
  intros p env path Hget Hex. unfold PathBuilder.build.
  destruct p as [home cur app ctk]. simpl. rewrite Hget, Hex. simpl.
  destruct home, cur, app;
    repeat match goal with
           | |- context [if PathBuilder.exists_ ?e ?x then _ else _] =>
               destruct (PathBuilder.exists_ e x)
           end; reflexivity.
Qed.

Lemma X20_witness :
  PathBuilder.getenv PathBuilder.demoEnvironment "CTK_MODULE_LOAD_PATH"
  = Some "/opt/ctk/../ctk/modules"
  ∧ PathBuilder.exists_ PathBuilder.demoEnvironment "/opt/ctk/../ctk/modules" = true
  ∧ PathBuilder.build
      (PathBuilder.setLoadFromCtkModuleLoadPath true
         (PathBuilder.setLoadFromHomeDir true PathBuilder.new))
      PathBuilder.demoEnvironment
    = PathBuilder.canonicalPath PathBuilder.demoEnvironment "/opt/ctk/../ctk/modules"
      :: PathBuilder.build
           (PathBuilder.setLoadFromCtkModuleLoadPath false
              (PathBuilder.setLoadFromHomeDir true PathBuilder.new))
           PathBuilder.demoEnvironment.
Proof.
  split; [reflexivity|]. split; [reflexivity|].
  apply (X20_build_ctk_module_load_path_first
           (PathBuilder.setLoadFromHomeDir true PathBuilder.new)
           PathBuilder.demoEnvironment "/opt/ctk/../ctk/modules"); reflexivity.
Defined.

(** The list for the demonstration environment with every flag set. *)
Example build_demo :
  PathBuilder.build (PathBuilder.mkPrivate true true true true) PathBuilder.demoEnvironment
  = ["/opt/ctk/modules"; "/home/ctk"; "/home/ctk/cli-modules";
     "/usr/bin"; "/usr/bin/cli-modules"].
Proof. reflexivity. Qed.

(** * More on the settings panel *)

(** ** Every operation as a sequence of elementary state changes *)

Lemma applySettings_unfold w : applySettings w = Some ((), appliedWorld w).
Proof.
  destruct (applySettings_spec w)
    as (w' & Hrun & Hm & Hs & Hsv & Ho & Hst & He & Hwa & Hc).
  rewrite Hrun. unfold appliedWorld.
  destruct w' as [[st m sv] objs sts em wa co]. simpl in *. by subst.
Qed.

Lemma registerProperty_staged (QT_NO_DEBUG : bool) key object property signal
    label options w :
  registerProperty QT_NO_DEBUG key object property signal label options w =
  match registerStage QT_NO_DEBUG key object property label options w with
  | Some (prop', h1) =>
      if SaveToSettingsWhenRegister (d w)
      then updateSetting QT_NO_DEBUG key (registeredWorld key object signal prop' h1 w)
      else Some ((), registeredWorld key object signal prop' h1 w)
  | None => None
  end.
Proof. apply registerProperty_unfold. Qed.

Lemma updateOne_staged (QT_NO_DEBUG : bool) s key w :
  updateOne QT_NO_DEBUG s key w =
  if QSettings.contains (stores w) s key then
    match PropertyType.setValue QT_NO_DEBUG (constIndex (Properties (d w)) key)
            (QSettings.value (stores w) s key) (objects w) with
    | Some (_, h') => Some ((), pulledWorld s key h' w)
    | None => None
    end
  else updateSetting QT_NO_DEBUG key w.
Proof. apply updateOne_unfold. Qed.

(** The store pointer is the same after a round of a loop. *)
Lemma setSetting_settings (QT_NO_DEBUG : bool) key v w w' :
  setSetting QT_NO_DEBUG key v w = Some ((), w') → Settings (d w') = Settings (d w).
Proof.
  destruct (Settings (d w)) as [s|] eqn:Hs.
  - rewrite (setSetting_attached QT_NO_DEBUG key v w s Hs).
    destruct (PropertyType.setValue _ _ _ _) as [[r h']|]; [|done].
    by intros [= <-].
  - rewrite setSetting_no_store by done. intros [= <-]. done.
Qed.

Lemma updateSetting_settings (QT_NO_DEBUG : bool) key w w' :
  updateSetting QT_NO_DEBUG key w = Some ((), w') → Settings (d w') = Settings (d w).
Proof.
  destruct (Settings (d w)) as [s|] eqn:Hs.
  - rewrite (updateSetting_attached QT_NO_DEBUG key w s Hs).
    intros Hrun. apply setSetting_settings in Hrun. by rewrite Hrun.
  - rewrite updateSetting_no_store by done. intros [= <-]. done.
Qed.

Lemma updateOne_settings (QT_NO_DEBUG : bool) s key w w' :
  updateOne QT_NO_DEBUG s key w = Some ((), w') → Settings (d w') = Settings (d w).
Proof.
  rewrite updateOne_staged. destruct (QSettings.contains (stores w) s key).
  - destruct (PropertyType.setValue _ _ _ _) as [[r h']|]; [|done].
    by intros [= <-].
  - apply updateSetting_settings.
Qed.

Section Steps.

(** A relation between the state before and the state after that is
    reflexive, transitive, and holds across the elementary changes. *)
Variable R : World → World → Prop.
Variable QT_NO_DEBUG : bool.

Hypothesis R_refl : ∀ w, R w w.
Hypothesis R_trans : ∀ w1 w2 w3, R w1 w2 → R w2 w3 → R w1 w3.

Hypothesis R_touch :
  ∀ key w, R w (setProperties (touched key (Properties (d w))) w).

Hypothesis R_save :
  ∀ s key v w r h',
    Settings (d w) = Some s →
    PropertyType.setValue QT_NO_DEBUG (constIndex (Properties (d w)) key) v (objects w)
    = Some (r, h') →
    R w (afterSetSetting s key v h' w).

Hypothesis R_pull :
  ∀ s key w r h',
    Settings (d w) = Some s →
    QSettings.contains (stores w) s key = true →
    PropertyType.setValue QT_NO_DEBUG (constIndex (Properties (d w)) key)
      (QSettings.value (stores w) s key) (objects w) = Some (r, h') →
    R w (pulledWorld s key h' w).

Hypothesis R_attach : ∀ s w, Settings (d w) ≠ s → R w (setSettingsPtr s w).

Hypothesis R_commit : ∀ w, R w (appliedWorld w).

Hypothesis R_register :
  ∀ key object property signal label options w prop' h1,
    registerStage QT_NO_DEBUG key object property label options w = Some (prop', h1) →
    R w (registeredWorld key object signal prop' h1 w).

Lemma foreach_steps {A} (l : list A) (body : A → Eff World unit) :
  (∀ x u u', body x u = Some ((), u') → R u u') →
  ∀ w w', foreach l body w = Some ((), w') → R w w'.
Proof.
  intros Hbody w w' Hrun.
  apply (foreach_partial (λ _ u, R w u) l body) with (s := w); [|apply R_refl|done].
  intros done x rest u u' _ Hu Hb. eapply R_trans; [exact Hu|]. by apply (Hbody x).
Qed.

Lemma setSetting_steps key v w w' :
  setSetting QT_NO_DEBUG key v w = Some ((), w') → R w w'.
Proof.
  destruct (Settings (d w)) as [s|] eqn:Hs.
  - rewrite (setSetting_attached QT_NO_DEBUG key v w s Hs).
    destruct (PropertyType.setValue _ _ _ _) as [[r h']|] eqn:Hset; [|done].
    intros [= <-]. by apply (R_save s key v w r h').
  - rewrite setSetting_no_store by done. intros [= <-]. apply R_refl.
Qed.

Lemma updateSetting_steps key w w' :
  updateSetting QT_NO_DEBUG key w = Some ((), w') → R w w'.
Proof.
  destruct (Settings (d w)) as [s|] eqn:Hs.
  - rewrite (updateSetting_attached QT_NO_DEBUG key w s Hs). intros Hrun.
    apply setSetting_steps in Hrun. eapply R_trans; [apply (R_touch key)|exact Hrun].
  - rewrite updateSetting_no_store by done. intros [= <-]. apply R_refl.
Qed.

Lemma setSetting_loop_steps (pick : PropertyType.t → QVariant.t) l w w' :
  foreach l (λ key, prop ← index key; setSetting QT_NO_DEBUG key (pick prop)) w
  = Some ((), w') →
  R w w'.
Proof.
  apply foreach_steps. intros x u u'. eff_unfold. unfold index.
  destruct (Properties (d u) !! x) as [p|] eqn:Hx.
  - apply setSetting_steps.
  - intros Hrun. apply setSetting_steps in Hrun.
    eapply R_trans; [apply (R_touch x)|].
    unfold touched. by rewrite Hx.
Qed.

Lemma updateOne_steps s key w w' :
  Settings (d w) = Some s →
  updateOne QT_NO_DEBUG s key w = Some ((), w') → R w w'.
Proof.
  intros Hs. rewrite updateOne_staged.
  destruct (QSettings.contains (stores w) s key) eqn:Hhas.
  - destruct (PropertyType.setValue _ _ _ _) as [[r h']|] eqn:Hset; [|done].
    intros [= <-]. by apply (R_pull s key w r h').
  - apply updateSetting_steps.
Qed.

Lemma updateProperties_steps w w' :
  updateProperties QT_NO_DEBUG w = Some ((), w') → R w w'.
Proof.
  destruct (Settings (d w)) as [s|] eqn:Hs.
  - rewrite (updateProperties_attached QT_NO_DEBUG w s Hs). intros Hrun.
    apply (foreach_partial (λ _ u, R w u ∧ Settings (d u) = Some s)
             (keys (Properties (d w))) (updateOne QT_NO_DEBUG s)) with (s := w) in Hrun;
      [by destruct Hrun| |by split].
    intros done x rest u u' _ [Hu Hsu] Hb. split.
    + eapply R_trans; [exact Hu|]. by apply (updateOne_steps s x).
    + apply updateOne_settings in Hb. by rewrite Hb.
  - rewrite updateProperties_no_store by done. intros [= <-]. apply R_refl.
Qed.

Lemma setSettings_steps s w w' :
  setSettings QT_NO_DEBUG s w = Some ((), w') → R w w'.
Proof.
  rewrite setSettings_unfold. destruct (decide _) as [|Hne].
  - intros [= <-]. apply R_refl.
  - intros Hrun. apply updateProperties_steps in Hrun.
    eapply R_trans; [by apply R_attach|exact Hrun].
Qed.

Lemma registerProperty_steps key object property signal label options w w' :
  registerProperty QT_NO_DEBUG key object property signal label options w = Some ((), w') →
  R w w'.
Proof.
  rewrite registerProperty_staged.
  destruct (registerStage _ _ _ _ _ _ _) as [[prop' h1]|] eqn:Hstage; [|done].
  pose proof (R_register key object property signal label options w prop' h1 Hstage) as Hr.
  destruct (SaveToSettingsWhenRegister (d w)).
  - intros Hrun. apply updateSetting_steps in Hrun. by eapply R_trans.
  - by intros [= <-].
Qed.

Lemma resetSettings_steps w w' :
  resetSettings QT_NO_DEBUG w = Some ((), w') → R w w'.
Proof. unfold resetSettings. eff_unfold. apply setSetting_loop_steps. Qed.

Lemma restoreDefaultSettings_steps w w' :
  restoreDefaultSettings QT_NO_DEBUG w = Some ((), w') → R w w'.
Proof. unfold restoreDefaultSettings. eff_unfold. apply setSetting_loop_steps. Qed.

Lemma applySettings_steps w w' : applySettings w = Some ((), w') → R w w'.
Proof. rewrite applySettings_unfold. intros [= <-]. apply R_commit. Qed.

(** What holds across every elementary change holds across every call. *)
Lemma call_steps op w w' : call QT_NO_DEBUG op w = Some ((), w') → R w w'.
Proof.
  destruct op as [s| |k|k v|k object property signal label options| | |]; simpl.
  - apply setSettings_steps.
  - apply updateProperties_steps.
  - apply updateSetting_steps.
  - apply setSetting_steps.
  - apply registerProperty_steps.
  - apply applySettings_steps.
  - apply resetSettings_steps.
  - apply restoreDefaultSettings_steps.
Qed.

End Steps.

(** ** The registry *)

Lemma constIndex_touched key k m :
  constIndex (touched key m) k = constIndex m k.
Proof.
  unfold constIndex. destruct (decide (key = k)) as [->|Hne].
  - rewrite touched_lookup. unfold constIndex. by destruct (m !! k).
  - by rewrite touched_lookup_ne.
Qed.

Lemma registryKept_refl w : registryKept w w.
Proof. by intros key. Qed.

Lemma registryKept_trans w1 w2 w3 :
  registryKept w1 w2 → registryKept w2 w3 → registryKept w1 w3.
Proof. intros H12 H23 key Hk. by apply H23, H12. Qed.

Lemma is_Some_touched (key k : string) (m : gmap string PropertyType.t) :
  is_Some (m !! k) → is_Some (touched key m !! k).
Proof.
  intros Hk. unfold touched. destruct (m !! key) eqn:Hkey; [done|].
  destruct (decide (key = k)) as [->|Hne].
  - rewrite lookup_insert_eq. by eexists.
  - by rewrite lookup_insert_ne.
Qed.

Lemma is_Some_insert_kept (key k : string) (p : PropertyType.t)
    (m : gmap string PropertyType.t) :
  is_Some (m !! k) → is_Some (<[key := p]> m !! k).
Proof.
  intros Hk. destruct (decide (key = k)) as [->|Hne].
  - rewrite lookup_insert_eq. by eexists.
  - by rewrite lookup_insert_ne.
Qed.

(** X1. No operation of the panel ever removes a key from the registry: a
    key that is registered before a call that completes is registered after
    it. *)
Theorem X1_registered_keys_are_never_removed :
  ∀ (QT_NO_DEBUG : bool) (op : Operation) (w w' : World) (key : string),
    call QT_NO_DEBUG op w = Some ((), w') →
    is_Some (Properties (d w) !! key) →
    is_Some (Properties (d w') !! key).
Proof.
  intros b op w w' key Hrun.
  apply (call_steps registryKept b registryKept_refl registryKept_trans) with (op := op);
    [..|exact Hrun].
  - intros k u x. simpl. apply is_Some_touched.
  - intros s k v u r h' _ _ x. simpl. apply is_Some_touched.
  - intros s k u r h' _ _ _ x. simpl. apply is_Some_insert_kept.
  - intros s u _ x. done.
  - intros u x. simpl. rewrite lookup_fmap. intros [p ->]. by eexists.
  - intros k object property signal label options u prop' h1 _ x. simpl.
    apply is_Some_insert_kept.
Qed.

Lemma X1_witness :
  ∃ w', call false CallResetSettings demoShared = Some ((), w')
        ∧ is_Some (Properties (d demoShared) !! "size")
        ∧ is_Some (Properties (d w') !! "size").
Proof.
  eexists. split; [vm_compute; reflexivity|]. split; [by eexists|].
  apply (X1_registered_keys_are_never_removed false CallResetSettings demoShared);
    [vm_compute; reflexivity|by eexists].
Defined.

(** ** The binding of a key: target, label and options *)

Lemma sameBinding_refl key w : sameBinding key w w.
Proof. reflexivity. Qed.

Lemma sameBinding_trans key w1 w2 w3 :
  sameBinding key w1 w2 → sameBinding key w2 w3 → sameBinding key w1 w3.
Proof. unfold sameBinding. intros H12 H23. by rewrite H23. Qed.

Lemma sameBinding_touch key k w :
  sameBinding key w (setProperties (touched k (Properties (d w))) w).
Proof. unfold sameBinding. simpl. by rewrite constIndex_touched. Qed.

Lemma sameBinding_save key s k v w h' : sameBinding key w (afterSetSetting s k v h' w).
Proof. unfold sameBinding. simpl. by rewrite constIndex_touched. Qed.

Lemma sameBinding_pull key s k h' w : sameBinding key w (pulledWorld s k h' w).
Proof.
  unfold sameBinding. simpl. unfold constIndex at 1.
  destruct (decide (k = key)) as [->|Hne].
  - by rewrite lookup_insert_eq.
  - by rewrite lookup_insert_ne.
Qed.

Lemma sameBinding_attach key s w : sameBinding key w (setSettingsPtr s w).
Proof. reflexivity. Qed.

Lemma sameBinding_commit key w : sameBinding key w (appliedWorld w).
Proof.
  unfold sameBinding. simpl. unfold constIndex. rewrite lookup_fmap.
  by destruct (Properties (d w) !! key).
Qed.

Lemma registerStage_binding (QT_NO_DEBUG : bool) key object property label options
    w prop' h1 :
  registerStage QT_NO_DEBUG key object property label options w = Some (prop', h1) →
  binding prop' = (object, property, label, options).
Proof.
  unfold registerStage.
  destruct (Settings (d w)) as [s|];
    [destruct (QSettings.contains (stores w) s key);
     [destruct (PropertyType.setValue _ _ _ _) as [[r h]|]; [|done]|]|];
    by intros [= <- _].
Qed.

Ltac sameBinding_steps :=
  first [ exact (sameBinding_refl _)
        | exact (sameBinding_trans _)
        | (intros; apply sameBinding_touch)
        | (intros; apply sameBinding_save)
        | (intros; apply sameBinding_pull)
        | (intros; apply sameBinding_attach)
        | (intros; apply sameBinding_commit) ].

(** X2. The target, the label and the options of a key are fixed by
    [registerProperty] and by nothing else: after a registration of the key
    they are the ones that were passed, and every other operation (and the
    registration of another key) leaves them as they are.  [settingLabel]
    and [settingOptions] report them. *)
Theorem X2_binding_changed_by_registration_only :
  ∀ (QT_NO_DEBUG : bool) (op : Operation) (w w' : World) (key : string),
    call QT_NO_DEBUG op w = Some ((), w') →
    binding (constIndex (Properties (d w')) key) = bindingAfter op key w
    ∧ settingLabel key w' = (bindingAfter op key w).1.2
    ∧ settingOptions key w' = (bindingAfter op key w).2.
Proof.
  intros b op w w' key Hrun.
  assert (binding (constIndex (Properties (d w')) key) = bindingAfter op key w) as Hb.
  { destruct op as [s| |k|k v|k object property signal label options| | |];
      simpl in Hrun |- *.
    - eapply (setSettings_steps (sameBinding key)); [sameBinding_steps..|exact Hrun].
    - eapply (updateProperties_steps (sameBinding key)); [sameBinding_steps..|exact Hrun].
    - eapply (updateSetting_steps (sameBinding key)); [sameBinding_steps..|exact Hrun].
    - eapply (setSetting_steps (sameBinding key)); [sameBinding_steps..|exact Hrun].
    - rewrite registerProperty_staged in Hrun.
      destruct (registerStage _ _ _ _ _ _ _) as [[prop' h1]|] eqn:Hstage; [|done].
      apply registerStage_binding in Hstage.
      assert (sameBinding key (registeredWorld k object signal prop' h1 w) w') as Hsame.
      { destruct (SaveToSettingsWhenRegister (d w)).
        - eapply (updateSetting_steps (sameBinding key));
            [sameBinding_steps..|exact Hrun].
        - injection Hrun as <-. apply sameBinding_refl. }
      unfold sameBinding in Hsame. rewrite Hsame. simpl. unfold constIndex.
      destruct (decide (key = k)) as [->|Hne].
      + by rewrite lookup_insert_eq.
      + by rewrite lookup_insert_ne.
    - eapply (applySettings_steps (sameBinding key)); [sameBinding_steps..|exact Hrun].
    - eapply (resetSettings_steps (sameBinding key)); [sameBinding_steps..|exact Hrun].
    - eapply (restoreDefaultSettings_steps (sameBinding key));
        [sameBinding_steps..|exact Hrun]. }
  split; [exact Hb|]. unfold settingLabel, settingOptions. rewrite <- Hb. by split.
Qed.

Lemma X2_witness :
  ∃ w', call false (CallRegisterProperty "fontSize" (Some 1%positive) "fontSize"
                      "valueChanged(int)" "Size of the font" 1)
             demoRegistered = Some ((), w')
        ∧ settingLabel "fontSize" demoRegistered = "Font size"
        ∧ settingLabel "fontSize" w' = "Size of the font"
        ∧ settingOptions "fontSize" w' = 1%Z.
Proof.
  eexists. split; [vm_compute; reflexivity|]. split; [reflexivity|].
  match goal with
  | |- context [settingOptions _ ?w'] =>
      destruct (X2_binding_changed_by_registration_only false
                  (CallRegisterProperty "fontSize" (Some 1%positive) "fontSize"
                     "valueChanged(int)" "Size of the font" 1)
                  demoRegistered w' "fontSize") as (_ & Hlabel & Hoptions);
        [vm_compute; reflexivity|]
  end.
  split; [exact Hlabel|exact Hoptions].
Defined.

(** ** The attached store *)

Lemma sameSettings_refl w : sameSettings w w.
Proof. reflexivity. Qed.

Lemma sameSettings_trans w1 w2 w3 :
  sameSettings w1 w2 → sameSettings w2 w3 → sameSettings w1 w3.
Proof. unfold sameSettings. intros H12 H23. by rewrite H23. Qed.

Ltac sameSettings_steps :=
  first [ exact sameSettings_refl
        | exact sameSettings_trans
        | (intros; reflexivity) ].

(** X3. Only [setSettings] changes which store is attached: after
    [setSettings(s)] it is [s], and after every other operation it is the
    store that was attached before. *)
Theorem X3_store_pointer_changed_by_setSettings_only :
  ∀ (QT_NO_DEBUG : bool) (op : Operation) (w w' : World),
    call QT_NO_DEBUG op w = Some ((), w') →
    settings w' = settingsAfter op w.
Proof.
  intros b op w w' Hrun. unfold settings.
  destruct op as [s| |k|k v|k object property signal label options| | |];
    simpl in Hrun |- *.
  - rewrite setSettings_unfold in Hrun. destruct (decide _) as [Hsame|Hne].
    + by injection Hrun as <-.
    + change s with (Settings (d (setSettingsPtr s w))).
      eapply (updateProperties_steps sameSettings); [sameSettings_steps..|exact Hrun].
  - eapply (updateProperties_steps sameSettings); [sameSettings_steps..|exact Hrun].
  - eapply (updateSetting_steps sameSettings); [sameSettings_steps..|exact Hrun].
  - eapply (setSetting_steps sameSettings); [sameSettings_steps..|exact Hrun].
  - eapply (registerProperty_steps sameSettings); [sameSettings_steps..|exact Hrun].
  - eapply (applySettings_steps sameSettings); [sameSettings_steps..|exact Hrun].
  - eapply (resetSettings_steps sameSettings); [sameSettings_steps..|exact Hrun].
  - eapply (restoreDefaultSettings_steps sameSettings); [sameSettings_steps..|exact Hrun].
Qed.

Lemma X3_witness :
  ∃ w', call false (CallSetSettings None) demoRegistered = Some ((), w')
        ∧ settings demoRegistered = Some 1%positive
        ∧ settings w' = None.
Proof.
  eexists. split; [vm_compute; reflexivity|]. split; [reflexivity|].
  apply (X3_store_pointer_changed_by_setSettings_only false (CallSetSettings None)
           demoRegistered).
  vm_compute. reflexivity.
Defined.

(** ** Without a store *)

Lemma foreach_fixed {S A} (l : list A) (body : A → Eff S unit) (s : S) :
  (∀ x, x ∈ l → body x s = Some ((), s)) → foreach l body s = Some ((), s).
Proof.
  induction l as [|x l IH]; intros Hbody; [done|].
  rewrite foreach_cons, (Hbody x) by apply list_elem_of_here.
  apply IH. intros y Hy. apply Hbody. by apply list_elem_of_further.
Qed.

Lemma setSetting_loop_no_store (QT_NO_DEBUG : bool)
    (pick : PropertyType.t → QVariant.t) w :
  Settings (d w) = None →
  foreach (keys (Properties (d w)))
    (λ key, prop ← index key; setSetting QT_NO_DEBUG key (pick prop)) w
  = Some ((), w).
Proof.
  intros Hs. apply foreach_fixed. intros x Hx.
  apply elem_of_keys in Hx as [p Hp]. eff_unfold. unfold index. rewrite Hp.
  by apply setSetting_no_store.
Qed.

(** X4. Without a store attached the operations that save or restore
    settings do nothing at all: [setSetting], [updateSetting],
    [updateProperties], [resetSettings] and [restoreDefaultSettings] complete
    in every build and return the state they were given, for registered and
    unregistered keys alike. *)
Theorem X4_no_store_no_effect :
  ∀ (QT_NO_DEBUG : bool) (op : Operation) (w : World),
    Settings (d w) = None →
    needsStore op = true →
    call QT_NO_DEBUG op w = Some ((), w).
Proof.
  intros b op w Hs Hop.
  destruct op as [s| |k|k v|k object property signal label options| | |];
    try discriminate Hop; simpl.
  - by apply updateProperties_no_store.
  - by apply updateSetting_no_store.
  - by apply setSetting_no_store.
  - unfold resetSettings. eff_unfold. by apply setSetting_loop_no_store.
  - unfold restoreDefaultSettings. eff_unfold. by apply setSetting_loop_no_store.
Qed.

Lemma X4_witness :
  Settings (d demoDetached) = None
  ∧ needsStore CallRestoreDefaultSettings = true
  ∧ call false CallRestoreDefaultSettings demoDetached = Some ((), demoDetached).
Proof.
  split; [reflexivity|]. split; [reflexivity|].
  apply (X4_no_store_no_effect false CallRestoreDefaultSettings demoDetached);
    reflexivity.
Defined.

(** ** The entries of the registry under [setSetting] *)

Lemma sameEntries_refl w : sameEntries w w.
Proof. by intros key. Qed.

Lemma sameEntries_trans w1 w2 w3 :
  sameEntries w1 w2 → sameEntries w2 w3 → sameEntries w1 w3.
Proof. intros H12 H23 key. by rewrite H23, H12. Qed.

Ltac sameEntries_steps :=
  first [ exact sameEntries_refl
        | exact sameEntries_trans
        | (intros; intros ?; simpl; apply constIndex_touched) ].

(** X5. [setSetting], [updateSetting], [resetSettings] and
    [restoreDefaultSettings] never change an entry of the registry: for
    every key the target, the recorded previous value, the default value,
    the label and the options are what they were (a key without entry
    reading as the default-constructed entry, which is the only thing these
    calls can add).  In particular [previousPropertyValue] and
    [defaultPropertyValue] answer as before. *)
Theorem X5_setSetting_paths_keep_every_entry :
  ∀ (QT_NO_DEBUG : bool) (op : Operation) (w w' : World) (key : string),
    savesOnly op = true →
    call QT_NO_DEBUG op w = Some ((), w') →
    constIndex (Properties (d w')) key = constIndex (Properties (d w)) key
    ∧ previousPropertyValue key w' = previousPropertyValue key w
    ∧ defaultPropertyValue key w' = defaultPropertyValue key w.
Proof.
  intros b op w w' key Hop Hrun.
  assert (sameEntries w w') as Hsame.
  { destruct op as [s| |k|k v|k object property signal label options| | |];
      try discriminate Hop; simpl in Hrun.
    - eapply (updateSetting_steps sameEntries); [sameEntries_steps..|exact Hrun].
    - eapply (setSetting_steps sameEntries); [sameEntries_steps..|exact Hrun].
    - eapply (resetSettings_steps sameEntries); [sameEntries_steps..|exact Hrun].
    - eapply (restoreDefaultSettings_steps sameEntries);
        [sameEntries_steps..|exact Hrun]. }
  split; [apply Hsame|].
  by rewrite !previousPropertyValue_constIndex, !defaultPropertyValue_constIndex, Hsame.
Qed.

Lemma X5_witness :
  ∃ w', savesOnly CallRestoreDefaultSettings = true
        ∧ call false CallRestoreDefaultSettings demoUnsetPaths = Some ((), w')
        ∧ previousPropertyValue "paths" w' = previousPropertyValue "paths" demoUnsetPaths.
Proof.
  eexists. split; [reflexivity|]. split; [vm_compute; reflexivity|].
  match goal with
  | |- previousPropertyValue _ ?w' = _ =>
      destruct (X5_setSetting_paths_keep_every_entry false CallRestoreDefaultSettings
                  demoUnsetPaths w' "paths") as (_ & Hprev & _);
        [reflexivity|vm_compute; reflexivity|exact Hprev]
  end.
Defined.

(** ** What [PropertyType::setValue] leaves alone *)

Lemma setValue_elsewhere (QT_NO_DEBUG : bool) p val (h h' : QObject.heap) r a n :
  PropertyType.setValue QT_NO_DEBUG p val h = Some (r, h') →
  ¬ tracks p a n →
  QObject.property h' a n = QObject.property h a n.
Proof.
  intros Hrun Hnot.
  destruct (PropertyType.Object p) as [o|] eqn:Ho.
  - destruct (isEmpty (PropertyType.Property p)) eqn:He.
    + rewrite setValue_no_target in Hrun by (by right).
      destruct QT_NO_DEBUG; [|done]. by injection Hrun as _ <-.
    + rewrite (setValue_unfold QT_NO_DEBUG p o val h Ho He) in Hrun. simpl in Hrun.
      destruct (QT_NO_DEBUG || _); [|done]. injection Hrun as Hrun.
      match type of Hrun with
      | QObject.setProperty ?o' ?n' ?v' _ = _ =>
          pose proof (setProperty_property_other o' n' v' h a n) as Hother
      end.
      rewrite Hrun in Hother. simpl in Hother. apply Hother.
      destruct (decide (a = o)) as [->|Hne]; [|by left]. right.
      intros ->. apply Hnot. by split.
  - rewrite setValue_no_target in Hrun by (by left).
    destruct QT_NO_DEBUG; [|done]. by injection Hrun as _ <-.
Qed.

(** X21. A write through [PropertyType::setValue] that returns changes at
    most the one property the entry names: every other property of every
    object reads as before, whether the write was accepted, refused or made
    a dynamic property.  For an entry without object or without property
    name the write returns only in a build without assertions, and then
    returns [false] and changes no object at all. *)
Theorem X21_setValue_changes_only_its_target :
  ∀ (QT_NO_DEBUG : bool) (p : PropertyType.t) (val : QVariant.t)
    (h h' : QObject.heap) (r : bool),
    PropertyType.setValue QT_NO_DEBUG p val h = Some (r, h') →
    (∀ a n, ¬ tracks p a n → QObject.property h' a n = QObject.property h a n)
    ∧ (PropertyType.Object p = None ∨ isEmpty (PropertyType.Property p) = true →
       QT_NO_DEBUG = true ∧ r = false ∧ h' = h).
Proof.
  intros b p val h h' r Hrun. split.
  - intros a n. by apply (setValue_elsewhere b p val h h' r).
  - intros Hnone. rewrite setValue_no_target in Hrun by done.
    destruct b; [|done]. by injection Hrun as <- <-.
Qed.

Lemma X21_witness :
  ∃ h', PropertyType.setValue false demoFontSize (QVariant.Int 14) demoObjects
        = Some (true, h')
        ∧ QObject.property h' 1 "paths" = QObject.property demoObjects 1 "paths".
Proof.
  eexists. split; [vm_compute; reflexivity|].
  match goal with
  | |- QObject.property ?h' _ _ = _ =>
      destruct (X21_setValue_changes_only_its_target false demoFontSize
                  (QVariant.Int 14) demoObjects h' true) as [Hother _];
        [vm_compute; reflexivity|]
  end.
  apply Hother. intros [_ Hname]. discriminate Hname.
Defined.

(** ** What the panel sends out *)

Lemma status_setValue (h : QSettings.heap) s key v a :
  QSettings.status (QSettings.at_ (QSettings.setValue s key v h) a)
  = QSettings.status (QSettings.at_ h a).
Proof.
  destruct (decide (s = a)) as [->|Hne].
  - by rewrite store_at_setValue.
  - unfold QSettings.setValue, QSettings.at_. by rewrite lookup_insert_ne.
Qed.

Lemma quiet_refl w : quiet w w.
Proof. by intros Hn. Qed.

Lemma quiet_trans w1 w2 w3 : quiet w1 w2 → quiet w2 w3 → quiet w1 w3.
Proof.
  intros H12 H23 Hn. destruct (H12 Hn) as [Hn2 Hw2].
  destruct (H23 Hn2) as [Hn3 Hw3]. split; [done|]. by rewrite Hw3.
Qed.

Lemma quiet_save s key v h' w : quiet w (afterSetSetting s key v h' w).
Proof.
  intros Hn. split.
  - intros a. simpl. rewrite status_setValue. apply Hn.
  - simpl. rewrite decide_False; [apply app_nil_r|]. intros Hne. apply Hne, Hn.
Qed.

Ltac quiet_steps :=
  first [ exact quiet_refl
        | exact quiet_trans
        | (intros; apply quiet_save)
        | (intros; intros ?; by split) ].

(** X7. A warning is only ever logged for a store in an error state: when
    no store is in one, no operation adds a warning (and none puts a store
    in an error state). *)
Theorem X7_no_warning_without_store_error :
  ∀ (QT_NO_DEBUG : bool) (op : Operation) (w w' : World),
    call QT_NO_DEBUG op w = Some ((), w') →
    noStoreError w →
    warnings w' = warnings w ∧ noStoreError w'.
Proof.
  intros b op w w' Hrun Hn.
  assert (quiet w w') as Hq.
  { eapply (call_steps quiet); [quiet_steps..|exact Hrun]. }
  destruct (Hq Hn) as [Hn' Hw]. by split.
Qed.

Lemma demoRegistered_noStoreError : noStoreError demoRegistered.
Proof.
  intros a. unfold demoRegistered, QSettings.at_. simpl.
  destruct (decide (a = 1%positive)) as [->|Hne].
  - by rewrite lookup_insert_eq.
  - by rewrite lookup_insert_ne, lookup_empty.
Qed.

Lemma X7_witness :
  ∃ w', call false (CallSetSetting "fontSize" (QVariant.Int 14)) demoRegistered
        = Some ((), w')
        ∧ warnings w' = warnings demoRegistered.
Proof.
  eexists. split; [vm_compute; reflexivity|].
  match goal with
  | |- warnings ?w' = _ =>
      destruct (X7_no_warning_without_store_error false
                  (CallSetSetting "fontSize" (QVariant.Int 14)) demoRegistered w')
        as [Hwarnings _];
        [vm_compute; reflexivity|exact demoRegistered_noStoreError|exact Hwarnings]
  end.
Defined.

(** ** The stores that are not attached *)

Lemma otherStoreKept_refl a w : otherStoreKept a w w.
Proof. by split. Qed.

Lemma otherStoreKept_trans a w1 w2 w3 :
  otherStoreKept a w1 w2 → otherStoreKept a w2 w3 → otherStoreKept a w1 w3.
Proof.
  intros [Hs Hk] [Hs' Hk']. split; [by rewrite Hs'|].
  intros Hne. rewrite Hk', Hk; [done|done|by rewrite Hs].
Qed.

Lemma otherStoreKept_save a s key v h' w :
  Settings (d w) = Some s → otherStoreKept a w (afterSetSetting s key v h' w).
Proof.
  intros Hs. split; [done|]. intros Hne. simpl. unfold QSettings.setValue.
  rewrite lookup_insert_ne; [done|]. intros ->. by apply Hne.
Qed.

Ltac otherStoreKept_steps :=
  first [ exact (otherStoreKept_refl _)
        | exact (otherStoreKept_trans _)
        | (intros; by apply otherStoreKept_save)
        | (intros; by split) ].

(** X8. The panel writes to the attached store only: a store that is not
    the attached one (after [setSettings(s)]: not [s]) is exactly what it
    was, entries and status, across every operation. *)
Theorem X8_only_the_attached_store_is_written :
  ∀ (QT_NO_DEBUG : bool) (op : Operation) (w w' : World) (a : positive),
    call QT_NO_DEBUG op w = Some ((), w') →
    settingsAfter op w ≠ Some a →
    stores w' !! a = stores w !! a.
Proof.
  intros b op w w' a Hrun Hne.
  destruct op as [s| |k|k v|k object property signal label options| | |];
    simpl in Hrun, Hne.
  - rewrite setSettings_unfold in Hrun. destruct (decide _) as [Hsame|Hdiff].
    + by injection Hrun as <-.
    + assert (otherStoreKept a (setSettingsPtr s w) w') as [_ Hk].
      { eapply (updateProperties_steps (otherStoreKept a));
          [otherStoreKept_steps..|exact Hrun]. }
      by apply Hk.
  - assert (otherStoreKept a w w') as [_ Hk]; [|by apply Hk].
    eapply (updateProperties_steps (otherStoreKept a));
      [otherStoreKept_steps..|exact Hrun].
  - assert (otherStoreKept a w w') as [_ Hk]; [|by apply Hk].
    eapply (updateSetting_steps (otherStoreKept a)); [otherStoreKept_steps..|exact Hrun].
  - assert (otherStoreKept a w w') as [_ Hk]; [|by apply Hk].
    eapply (setSetting_steps (otherStoreKept a)); [otherStoreKept_steps..|exact Hrun].
  - assert (otherStoreKept a w w') as [_ Hk]; [|by apply Hk].
    eapply (registerProperty_steps (otherStoreKept a));
      [otherStoreKept_steps..|exact Hrun].
  - assert (otherStoreKept a w w') as [_ Hk]; [|by apply Hk].
    eapply (applySettings_steps (otherStoreKept a)); [otherStoreKept_steps..|exact Hrun].
  - assert (otherStoreKept a w w') as [_ Hk]; [|by apply Hk].
    eapply (resetSettings_steps (otherStoreKept a)); [otherStoreKept_steps..|exact Hrun].
  - assert (otherStoreKept a w w') as [_ Hk]; [|by apply Hk].
    eapply (restoreDefaultSettings_steps (otherStoreKept a));
      [otherStoreKept_steps..|exact Hrun].
Qed.

Lemma X8_witness :
  ∃ w', call false (CallSetSetting "fontSize" (QVariant.Int 14)) demoRegistered
        = Some ((), w')
        ∧ settingsAfter (CallSetSetting "fontSize" (QVariant.Int 14)) demoRegistered
          ≠ Some 2%positive
        ∧ stores w' !! 2%positive = stores demoRegistered !! 2%positive.
Proof.
  eexists. split; [vm_compute; reflexivity|]. split; [discriminate|].
  apply (X8_only_the_attached_store_is_written false
           (CallSetSetting "fontSize" (QVariant.Int 14)) demoRegistered);
    [vm_compute; reflexivity|discriminate].
Defined.

(** ** The properties the panel does not track *)

Lemma untouched_refl a n w : untouched a n w w.
Proof. by intros Hu. Qed.

Lemma untouched_trans a n w1 w2 w3 :
  untouched a n w1 w2 → untouched a n w2 w3 → untouched a n w1 w3.
Proof.
  intros H12 H23 Hu. destruct (H12 Hu) as [Hu2 Hp2].
  destruct (H23 Hu2) as [Hu3 Hp3]. split; [done|]. by rewrite Hp3.
Qed.

Lemma not_tracks_new a n : ¬ tracks PropertyType.new a n.
Proof. by intros [Ho _]. Qed.

Lemma not_tracks_constIndex a n w key :
  untracked a n w → ¬ tracks (constIndex (Properties (d w)) key) a n.
Proof.
  intros Hu. unfold constIndex.
  destruct (Properties (d w) !! key) as [p|] eqn:Hk; simpl.
  - by apply (Hu key).
  - apply not_tracks_new.
Qed.

Lemma untracked_touched a n key w :
  untracked a n w → untracked a n (setProperties (touched key (Properties (d w))) w).
Proof.
  intros Hu k p. simpl. intros Hk.
  assert (p = constIndex (Properties (d w)) k) as ->.
  { pose proof (constIndex_touched key k (Properties (d w))) as Hc.
    unfold constIndex at 1 in Hc. by rewrite Hk in Hc. }
  by apply not_tracks_constIndex.
Qed.

Lemma untouched_touch a n key w :
  untouched a n w (setProperties (touched key (Properties (d w))) w).
Proof. intros Hu. split; [by apply untracked_touched|done]. Qed.

Lemma untouched_save (QT_NO_DEBUG : bool) a n s key v w r h' :
  PropertyType.setValue QT_NO_DEBUG (constIndex (Properties (d w)) key) v (objects w)
  = Some (r, h') →
  untouched a n w (afterSetSetting s key v h' w).
Proof.
  intros Hset Hu. split.
  - apply (untracked_touched a n key w Hu).
  - simpl. apply (setValue_elsewhere QT_NO_DEBUG _ v (objects w) h' r a n Hset).
    by apply not_tracks_constIndex.
Qed.

Lemma untouched_pull (QT_NO_DEBUG : bool) a n s key w r h' :
  PropertyType.setValue QT_NO_DEBUG (constIndex (Properties (d w)) key)
    (QSettings.value (stores w) s key) (objects w) = Some (r, h') →
  untouched a n w (pulledWorld s key h' w).
Proof.
  intros Hset Hu. split.
  - intros k p. simpl. destruct (decide (key = k)) as [->|Hne].
    + rewrite lookup_insert_eq. intros [= <-].
      by apply (not_tracks_constIndex a n w k).
    + rewrite lookup_insert_ne by done. apply Hu.
  - simpl. apply (setValue_elsewhere QT_NO_DEBUG _ _ (objects w) h' r a n Hset).
    by apply not_tracks_constIndex.
Qed.

Lemma untouched_commit a n w : untouched a n w (appliedWorld w).
Proof.
  intros Hu. split; [|done]. intros k p. simpl. rewrite lookup_fmap.
  destruct (Properties (d w) !! k) as [q|] eqn:Hk; [|done].
  simpl. intros [= <-]. by apply (Hu k q).
Qed.

Lemma untouched_register (QT_NO_DEBUG : bool) a n key object property signal
    label options w prop' h1 :
  ¬ (object = Some a ∧ property = n) →
  registerStage QT_NO_DEBUG key object property label options w = Some (prop', h1) →
  untouched a n w (registeredWorld key object signal prop' h1 w).
Proof.
  intros Hother Hstage Hu.
  assert (¬ tracks prop' a n) as Hnot.
  { apply registerStage_binding in Hstage. unfold binding in Hstage.
    injection Hstage as Ho Hp _ _. intros [Ho' Hp']. apply Hother. by split; congruence. }
  split.
  - intros k p. simpl. destruct (decide (key = k)) as [->|Hne].
    + rewrite lookup_insert_eq. by intros [= <-].
    + rewrite lookup_insert_ne by done. apply Hu.
  - simpl. unfold registerStage in Hstage.
    destruct (Settings (d w)) as [s|];
      [destruct (QSettings.contains (stores w) s key);
       [destruct (PropertyType.setValue _ _ _ _) as [[r h]|] eqn:Hset; [|done]|]|];
      injection Hstage as <- <-; try done.
    apply (setValue_elsewhere QT_NO_DEBUG _ _ (objects w) h r a n Hset).
    intros [Ho Hp]. apply Hother. by split.
Qed.

Ltac untouched_steps :=
  first [ exact (untouched_refl _ _)
        | exact (untouched_trans _ _)
        | (intros; apply untouched_touch)
        | (intros; eapply untouched_save; eassumption)
        | (intros; eapply untouched_pull; eassumption)
        | (intros; apply untouched_commit)
        | (intros; intros ?; by split) ].

(** X9. The panel writes to the properties it tracks and to no other: a
    property of an object that no entry of the registry tracks, and that is
    not the one being registered by the call, has the same value after every
    operation, and is still tracked by no entry. *)
Theorem X9_untracked_properties_are_never_written :
  ∀ (QT_NO_DEBUG : bool) (op : Operation) (w w' : World) (a : positive) (n : string),
    call QT_NO_DEBUG op w = Some ((), w') →
    untracked a n w →
    ¬ registersTarget op a n →
    QObject.property (objects w') a n = QObject.property (objects w) a n
    ∧ untracked a n w'.
Proof.
  intros b op w w' a n Hrun Hu Hop.
  assert (untouched a n w w') as Hsame.
  { destruct op as [s| |k|k v|k object property signal label options| | |];
      simpl in Hrun, Hop.
    - eapply (setSettings_steps (untouched a n) b); [untouched_steps..|exact Hrun].
    - eapply (updateProperties_steps (untouched a n) b); [untouched_steps..|exact Hrun].
    - eapply (updateSetting_steps (untouched a n) b); [untouched_steps..|exact Hrun].
    - eapply (setSetting_steps (untouched a n) b); [untouched_steps..|exact Hrun].
    - rewrite registerProperty_staged in Hrun.
      destruct (registerStage _ _ _ _ _ _ _) as [[prop' h1]|] eqn:Hstage; [|done].
      eapply untouched_trans;
        [exact (untouched_register b a n k object property signal label options
                  w prop' h1 Hop Hstage)|].
      destruct (SaveToSettingsWhenRegister (d w)).
      + eapply (updateSetting_steps (untouched a n) b); [untouched_steps..|exact Hrun].
      + injection Hrun as <-. apply untouched_refl.
    - eapply (applySettings_steps (untouched a n)); [untouched_steps..|exact Hrun].
    - eapply (resetSettings_steps (untouched a n) b); [untouched_steps..|exact Hrun].
    - eapply (restoreDefaultSettings_steps (untouched a n) b);
        [untouched_steps..|exact Hrun]. }
  destruct (Hsame Hu) as [Hu' Hp]. by split.
Qed.

Lemma demoRegistered_paths_untracked : untracked 1 "paths" demoRegistered.
Proof.
  intros key p Hp [_ Hname]. apply demoRegistered_entry in Hp as [_ ->].
  discriminate Hname.
Qed.

Lemma X9_witness :
  ∃ w', call false CallResetSettings demoRegistered = Some ((), w')
        ∧ QObject.property (objects w') 1 "paths"
          = QObject.property (objects demoRegistered) 1 "paths".
Proof.
  eexists. split; [vm_compute; reflexivity|].
  match goal with
  | |- QObject.property (objects ?w') _ _ = _ =>
      destruct (X9_untracked_properties_are_never_written false CallResetSettings
                  demoRegistered w' 1%positive "paths") as [Hsame _];
        [vm_compute; reflexivity|exact demoRegistered_paths_untracked
        |intros []|exact Hsame]
  end.
Defined.

(** ** [updateSetting]: saving the live value *)

Lemma propertyValue_constIndex key w :
  propertyValue key w = PropertyType.value (constIndex (Properties (d w)) key) (objects w).
Proof.
  unfold propertyValue, constIndex.
  destruct (Properties (d w) !! key) as [p|] eqn:Hk.
  - by rewrite bool_decide_eq_true_2 by (by eexists).
  - rewrite bool_decide_eq_false_2; [done|]. by intros [? ?].
Qed.

(** A completed [updateSetting] with a store, in full. *)
Lemma updateSetting_saves (QT_NO_DEBUG : bool) key w w' s :
  Settings (d w) = Some s →
  updateSetting QT_NO_DEBUG key w = Some ((), w') →
  ∃ h', w' = afterSetSetting s key (propertyValue key w) h'
               (setProperties (touched key (Properties (d w))) w).
Proof.
  intros Hs. rewrite (updateSetting_attached QT_NO_DEBUG key w s Hs).
  rewrite (setSetting_attached QT_NO_DEBUG key _ _ s) by done.
  destruct (PropertyType.setValue _ _ _ _) as [[r h']|]; [|done].
  intros [= <-]. exists h'. by rewrite propertyValue_constIndex.
Qed.

(** X10. With a store attached, an [updateSetting(key)] that completes
    leaves in the store, for the key, the live value the key had before the
    call (the invalid variant for a key that is not registered), changes no
    other entry of the store, and emits the notification for that value
    exactly when the store held a different one.  For a registered key whose
    target accepts its own live value the call completes in every build and
    the live value stays what it was. *)
Theorem X10_updateSetting_saves_the_live_value :
  ∀ (QT_NO_DEBUG : bool) (w : World) (key : string) (s : positive),
    Settings (d w) = Some s →
    (∀ w', updateSetting QT_NO_DEBUG key w = Some ((), w') →
           QSettings.value (stores w') s key = propertyValue key w
           ∧ (∀ k, k ≠ key → storeEntries w' s !! k = storeEntries w s !! k)
           ∧ emitted w'
             = emitted w
               ++ (if decide (QSettings.value (stores w) s key ≠ propertyValue key w)
                   then [(key, propertyValue key w)] else []))
    ∧ (∀ p, Properties (d w) !! key = Some p →
            accepts (objects w) p (PropertyType.value p (objects w)) = true →
            ∃ w', updateSetting QT_NO_DEBUG key w = Some ((), w')
                  ∧ propertyValue key w' = propertyValue key w).
Proof.
  intros b w key s Hs. split.
  - intros w' Hrun. destruct (updateSetting_saves b key w w' s Hs Hrun) as [h' ->].
    split; [apply store_value_setValue|]. split; [|done].
    intros k Hne. rewrite storeEntries_afterSetSetting.
    by rewrite lookup_insert_ne.
  - intros p Hk Hacc. rewrite (updateSetting_attached b key w s Hs).
    rewrite (touched_registered key _ p Hk), setProperties_id.
    unfold constIndex. rewrite Hk. simpl.
    destruct (setSetting_accepted b key (PropertyType.value p (objects w)) w s p Hs Hk Hacc)
      as (h' & Hrun & Hval & _).
    eexists. split; [exact Hrun|].
    rewrite (propertyValue_registered key p w Hk).
    rewrite (propertyValue_registered key p); [exact Hval|].
    simpl. by rewrite (touched_registered key _ p Hk).
Qed.

Lemma X10_witness :
  Settings (d demoShared) = Some 1%positive
  ∧ Properties (d demoShared) !! "size"
    = Some (PropertyType.mk (Some 1%positive) "fontSize" (QVariant.Int 14)
              (QVariant.Int 14) "Size" PropertyType.OptionNone)
  ∧ ∃ w', updateSetting false "size" demoShared = Some ((), w')
          ∧ propertyValue "size" w' = propertyValue "size" demoShared.
Proof.
  split; [reflexivity|]. split; [reflexivity|].
  destruct (X10_updateSetting_saves_the_live_value false demoShared "size" 1%positive)
    as [_ Hkeeps]; [reflexivity|].
  apply (Hkeeps (PropertyType.mk (Some 1%positive) "fontSize" (QVariant.Int 14)
                   (QVariant.Int 14) "Size" PropertyType.OptionNone));
    reflexivity.
Defined.

(** ** [registerProperty] when the store has nothing for the key *)

Lemma registerStage_nothing_stored (QT_NO_DEBUG : bool) key object property label
    options w :
  (∀ s, Settings (d w) = Some s → QSettings.contains (stores w) s key = false) →
  registerStage QT_NO_DEBUG key object property label options w
  = Some (freshEntry object property label options (objects w), objects w).
Proof.
  intros Hnone. unfold registerStage.
  destruct (Settings (d w)) as [s|]; [|done]. by rewrite (Hnone s).
Qed.

(** X11. When no store is attached, or the attached store has no value for
    the key, a [registerProperty] that completes leaves the live value read
    at registration as both the recorded previous value and the default
    value of the key, and, with a store attached and saving on registration
    enabled, as the stored value.  Without a store the registration
    completes in every build, changes no object, and [propertyValue] is that
    same live value. *)
Theorem X11_registerProperty_without_stored_value :
  ∀ (QT_NO_DEBUG : bool) (w : World) (key : string) (object : QObject.ptr)
    (property signal label : string) (options : Z),
    (∀ s, Settings (d w) = Some s → QSettings.contains (stores w) s key = false) →
    (∀ w', registerProperty QT_NO_DEBUG key object property signal label options w
           = Some ((), w') →
           previousPropertyValue key w'
           = PropertyType.value (freshEntry object property label options (objects w))
                                (objects w)
           ∧ defaultPropertyValue key w' = previousPropertyValue key w'
           ∧ (∀ s, Settings (d w) = Some s →
                   SaveToSettingsWhenRegister (d w) = true →
                   QSettings.value (stores w') s key = previousPropertyValue key w'))
    ∧ (Settings (d w) = None →
       ∃ w', registerProperty QT_NO_DEBUG key object property signal label options w
             = Some ((), w')
             ∧ objects w' = objects w
             ∧ propertyValue key w'
               = PropertyType.value (freshEntry object property label options (objects w))
                                    (objects w)).
Proof.
  intros b w key object property signal label options Hnone.
  set (prop := freshEntry object property label options (objects w)).
  set (w1 := registeredWorld key object signal prop (objects w) w).
  assert (Properties (d w1) !! key = Some prop) as Hk1.
  { simpl. apply lookup_insert_eq. }
  rewrite registerProperty_staged, registerStage_nothing_stored by done.
  fold prop. fold w1. split.
  - intros w' Hrun.
    assert (Properties (d w') !! key = Some prop) as Hk'.
    { destruct (SaveToSettingsWhenRegister (d w)).
      - by rewrite (updateSetting_registry b key prop w1 w' Hk1 Hrun).
      - by injection Hrun as <-. }
    rewrite (previousPropertyValue_registered key prop w' Hk'),
            (defaultPropertyValue_registered key prop w' Hk').
    split; [done|]. split; [done|].
    intros s Hs Hsave. rewrite Hsave in Hrun.
    destruct (updateSetting_saves b key w1 w' s Hs Hrun) as [h' ->].
    etrans; [apply store_value_setValue|].
    by rewrite (propertyValue_registered key prop w1 Hk1).
  - intros Hs. exists w1. split.
    + destruct (SaveToSettingsWhenRegister (d w)); [|done].
      by apply updateSetting_no_store.
    + split; [done|]. by rewrite (propertyValue_registered key prop w1 Hk1).
Qed.

Lemma X11_witness :
  (∀ s, Settings (d (newWorld demoObjects ∅)) = Some s →
        QSettings.contains (stores (newWorld demoObjects ∅)) s "fontSize" = false)
  ∧ ∃ w', registerProperty false "fontSize" (Some 1%positive) "fontSize"
            "valueChanged(int)" "Font size" PropertyType.OptionNone
            (newWorld demoObjects ∅) = Some ((), w')
          ∧ objects w' = objects (newWorld demoObjects ∅)
          ∧ propertyValue "fontSize" w' = QVariant.Int 12.
Proof.
  assert (∀ s, Settings (d (newWorld demoObjects ∅)) = Some s →
               QSettings.contains (stores (newWorld demoObjects ∅)) s "fontSize" = false)
    as Hnone by (intros s Hs; discriminate Hs).
  split; [exact Hnone|].
  destruct (X11_registerProperty_without_stored_value false (newWorld demoObjects ∅)
              "fontSize" (Some 1%positive) "fontSize" "valueChanged(int)" "Font size"
              PropertyType.OptionNone Hnone) as [_ Hdetached].
  destruct (Hdetached eq_refl) as (w' & Hrun & Hobjects & Hvalue).
  exists w'. split; [exact Hrun|]. split; [exact Hobjects|]. exact Hvalue.
Defined.

(** ** [restoreDefaultSettings] *)

Lemma store_value_setValue_ne (h : QSettings.heap) s key key' v :
  key ≠ key' →
  QSettings.value (QSettings.setValue s key v h) s key' = QSettings.value h s key'.
Proof. intros Hne. unfold QSettings.value. by rewrite store_entries_setValue_ne. Qed.

(** The loop of [setSetting(key, pick(entry))] over a restorable registry. *)
Lemma setSetting_loop_restores (QT_NO_DEBUG : bool)
    (pick : PropertyType.t → QVariant.t) w s :
  Settings (d w) = Some s →
  restorable pick w →
  ∃ w', foreach (keys (Properties (d w)))
          (λ key, prop ← index key; setSetting QT_NO_DEBUG key (pick prop)) w
        = Some ((), w')
        ∧ restoring pick s w (keys (Properties (d w))) w'.
Proof.
  intros Hs [Hacc Hinj]. set (m := Properties (d w)) in *.
  apply (foreach_total (restoring pick s w)).
  - intros done x rest u Hl (Hm & Hsu & Hmeta & Hdone & Hrest & Hquiet).
    assert (x ∉ done) as Hx.
    { eapply NoDup_middle_fresh. rewrite <- Hl. apply NoDup_keys. }
    assert (is_Some (m !! x)) as [p Hp].
    { apply elem_of_keys. rewrite Hl. apply elem_of_app. right. apply list_elem_of_here. }
    eff_unfold. unfold index. rewrite Hm. fold m. rewrite Hp.
    destruct (setSetting_accepted QT_NO_DEBUG x (pick p) u s p)
      as (h' & Hset & Hval & Hmeta' & Hother); [done|by rewrite Hm| |].
    { rewrite (accepts_metaObject (objects w)); [by apply (Hacc x)|done]. }
    exists (afterSetSetting s x (pick p) h' u). split; [exact Hset|].
    unfold restoring. simpl.
    split; [rewrite Hm; by apply (touched_registered x m p)|].
    split; [done|]. split; [intros a; by rewrite Hmeta'|].
    split; [|split].
    + intros k q Hq Hin. destruct (decide (k = x)) as [->|Hne].
      * assert (q = p) as -> by (unfold m in Hp; congruence).
        split; [done|apply store_value_setValue].
      * apply elem_of_app_singleton in Hin; [|done].
        destruct (Hdone k q Hq Hin) as [Hv Hst]. split.
        -- rewrite Hother; [done|]. intros Hsame. apply Hne. by apply (Hinj k x q p).
        -- by rewrite store_value_setValue_ne.
    + intros k Hk. assert (k ≠ x) as Hne.
      { intros ->. apply Hk. apply elem_of_app. right. apply list_elem_of_here. }
      rewrite store_value_setValue_ne by done. apply Hrest.
      intros Hin. apply Hk. apply elem_of_app. by left.
    + intros Hheld. rewrite (Hquiet Hheld).
      rewrite (Hrest x Hx), (Hheld x p Hp).
      rewrite decide_False; [apply app_nil_r|]. by intros Hne.
  - unfold restoring. split; [done|]. split; [done|]. split; [done|].
    split; [|split; [done|done]].
    intros k p _ Hin. by apply not_elem_of_nil in Hin.
Qed.

(** X12. With a store attached, when every registered key tracks a property
    that accepts the default value of the key and no two keys track the same
    property, [restoreDefaultSettings()] completes; afterwards the live value
    and the stored value of every registered key are its default value, its
    recorded previous value is untouched, and [changedSettings()] lists
    exactly the registered keys whose previous value differs from their
    default. *)
Theorem X12_restoreDefaultSettings_restores_defaults :
  ∀ (QT_NO_DEBUG : bool) (w : World) (s : positive),
    Settings (d w) = Some s →
    restorable PropertyType.DefaultValue w →
    ∃ w', restoreDefaultSettings QT_NO_DEBUG w = Some ((), w')
          ∧ (∀ key p, Properties (d w) !! key = Some p →
                      propertyValue key w' = PropertyType.DefaultValue p
                      ∧ QSettings.value (stores w') s key = PropertyType.DefaultValue p
                      ∧ previousPropertyValue key w' = PropertyType.PreviousValue p
                      ∧ defaultPropertyValue key w' = PropertyType.DefaultValue p)
          ∧ (∀ key, key ∈ changedSettings w'
                    ↔ ∃ p, Properties (d w) !! key = Some p
                           ∧ PropertyType.PreviousValue p ≠ PropertyType.DefaultValue p).
Proof.
  intros b w s Hs Hok.
  destruct (setSetting_loop_restores b PropertyType.DefaultValue w s Hs Hok)
    as (w' & Hrun & Hm & _ & _ & Hdone & _).
  exists w'. split; [unfold restoreDefaultSettings; eff_unfold; exact Hrun|].
  assert (∀ key p, Properties (d w) !! key = Some p →
            PropertyType.value p (objects w') = PropertyType.DefaultValue p
            ∧ QSettings.value (stores w') s key = PropertyType.DefaultValue p) as Hall.
  { intros key p Hp. apply Hdone; [done|]. apply elem_of_keys. by exists p. }
  split.
  - intros key p Hp. destruct (Hall key p Hp) as [Hv Hst].
    rewrite (propertyValue_registered key p), (previousPropertyValue_registered key p),
            (defaultPropertyValue_registered key p) by (by rewrite Hm).
    done.
  - intros key. rewrite elem_of_changedSettings, Hm. split.
    + intros (p & Hp & Hne). exists p. split; [done|].
      by rewrite <- (proj1 (Hall key p Hp)).
    + intros (p & Hp & Hne). exists p. split; [done|].
      by rewrite (proj1 (Hall key p Hp)).
Qed.

Lemma demoTwoApplied_entry key p :
  Properties (d (appliedWorld demoTwoChanged)) !! key = Some p →
  (key = "fontSize" ∧ p = committed (objects demoTwoChanged) demoFontSize)
  ∨ (key = "paths" ∧ p = committed (objects demoTwoChanged) demoPaths).
Proof.
  change (Properties (d (appliedWorld demoTwoChanged)))
    with (committed (objects demoTwoChanged) <$> Properties (d demoTwoChanged)).
  rewrite lookup_fmap. intros Hl. apply fmap_Some in Hl as (q & Hq & ->).
  apply demoTwoChanged_entry in Hq as [[-> ->]|[-> ->]]; [by left|by right].
Qed.

Lemma demoTwoApplied_restorable :
  restorable PropertyType.DefaultValue (appliedWorld demoTwoChanged).
Proof.
  split.
  - intros key p Hp.
    apply demoTwoApplied_entry in Hp as [[-> ->]|[-> ->]]; vm_compute; reflexivity.
  - intros k1 k2 p1 p2 H1 H2 [_ Hname].
    apply demoTwoApplied_entry in H1 as [[-> ->]|[-> ->]];
      apply demoTwoApplied_entry in H2 as [[-> ->]|[-> ->]];
      first [reflexivity|discriminate Hname].
Qed.

Lemma demoTwoApplied_reached :
  applySettings demoTwoChanged = Some ((), appliedWorld demoTwoChanged).
Proof. apply applySettings_unfold. Qed.

Lemma X12_witness :
  Settings (d (appliedWorld demoTwoChanged)) = Some 1%positive
  ∧ restorable PropertyType.DefaultValue (appliedWorld demoTwoChanged)
  ∧ propertyValue "fontSize" (appliedWorld demoTwoChanged) = QVariant.Int 14
  ∧ previousPropertyValue "fontSize" (appliedWorld demoTwoChanged) = QVariant.Int 14
  ∧ changedSettings (appliedWorld demoTwoChanged) = []
  ∧ ∃ w', restoreDefaultSettings false (appliedWorld demoTwoChanged) = Some ((), w')
          ∧ propertyValue "fontSize" w' = QVariant.Int 12
          ∧ QSettings.value (stores w') 1 "fontSize" = QVariant.Int 12
          ∧ previousPropertyValue "fontSize" w' = QVariant.Int 14
          ∧ propertyValue "paths" w' = QVariant.StringList ["/usr/lib"]
          ∧ previousPropertyValue "paths" w' = QVariant.StringList ["/opt/ctk"]
          ∧ "fontSize" ∈ changedSettings w'
          ∧ "paths" ∈ changedSettings w'.
Proof.
  split; [reflexivity|]. split; [exact demoTwoApplied_restorable|].
  split; [vm_compute; reflexivity|]. split; [vm_compute; reflexivity|].
  split; [vm_compute; reflexivity|].
  destruct (X12_restoreDefaultSettings_restores_defaults false (appliedWorld demoTwoChanged)
              1%positive eq_refl demoTwoApplied_restorable) as (w' & Hrun & Hall & Hchanged).
  exists w'. split; [exact Hrun|].
  destruct (Hall "fontSize" (committed (objects demoTwoChanged) demoFontSize) eq_refl)
    as (Hf1 & Hf2 & Hf3 & _).
  destruct (Hall "paths" (committed (objects demoTwoChanged) demoPaths) eq_refl)
    as (Hp1 & _ & Hp3 & _).
  split; [exact Hf1|]. split; [exact Hf2|]. split; [exact Hf3|].
  split; [exact Hp1|]. split; [exact Hp3|]. split.
  - apply Hchanged. exists (committed (objects demoTwoChanged) demoFontSize).
    split; [reflexivity|]. vm_compute. discriminate.
  - apply Hchanged. exists (committed (objects demoTwoChanged) demoPaths).
    split; [reflexivity|]. vm_compute. discriminate.
Defined.

(** X13. Restoring the defaults a second time is silent: under the
    conditions of X12, a second [restoreDefaultSettings()] right after the
    first completes, emits no notification, and leaves the registry and the
    live and stored value of every registered key as the first call left
    them. *)
Theorem X13_restoreDefaultSettings_twice :
  ∀ (QT_NO_DEBUG : bool) (w : World) (s : positive),
    Settings (d w) = Some s →
    restorable PropertyType.DefaultValue w →
    ∃ w1 w2,
      restoreDefaultSettings QT_NO_DEBUG w = Some ((), w1)
      ∧ restoreDefaultSettings QT_NO_DEBUG w1 = Some ((), w2)
      ∧ emitted w2 = emitted w1
      ∧ Properties (d w2) = Properties (d w1)
      ∧ ∀ key, is_Some (Properties (d w) !! key) →
               propertyValue key w2 = propertyValue key w1
               ∧ QSettings.value (stores w2) s key = QSettings.value (stores w1) s key.
Proof.
  intros b w s Hs [Hacc Hinj].
  destruct (setSetting_loop_restores b PropertyType.DefaultValue w s Hs (conj Hacc Hinj))
    as (w1 & Hrun1 & Hm1 & Hs1 & Hmeta1 & Hdone1 & _).
  assert (restorable PropertyType.DefaultValue w1) as Hok1.
  { split.
    - intros key p. rewrite Hm1. intros Hp.
      rewrite (accepts_metaObject (objects w)); [by apply (Hacc key)|done].
    - intros k1 k2 p1 p2. rewrite Hm1. apply Hinj. }
  destruct (setSetting_loop_restores b PropertyType.DefaultValue w1 s Hs1 Hok1)
    as (w2 & Hrun2 & Hm2 & _ & _ & Hdone2 & _ & Hquiet2).
  exists w1, w2.
  split; [unfold restoreDefaultSettings; eff_unfold; exact Hrun1|].
  split; [unfold restoreDefaultSettings; eff_unfold; exact Hrun2|].
  assert (∀ key p, Properties (d w) !! key = Some p → key ∈ keys (Properties (d w)))
    as Hin by (intros key p Hp; apply elem_of_keys; by exists p).
  split; [|split; [done|]].
  - apply Hquiet2. intros k p. rewrite Hm1. intros Hp.
    by apply (Hdone1 k p Hp), (Hin k p).
  - intros key [p Hp].
    destruct (Hdone1 key p Hp (Hin key p Hp)) as [Hv1 Hst1].
    destruct (Hdone2 key p) as [Hv2 Hst2];
      [by rewrite Hm1|rewrite Hm1; by apply (Hin key p)|].
    rewrite (propertyValue_registered key p w2), (propertyValue_registered key p w1)
      by (by rewrite ?Hm2, Hm1).
    by rewrite Hv1, Hv2, Hst1, Hst2.
Qed.

Lemma demoTwoChanged_restorable : restorable PropertyType.DefaultValue demoTwoChanged.
Proof.
  split.
  - intros key p Hp.
    apply demoTwoChanged_entry in Hp as [[-> ->]|[-> ->]]; reflexivity.
  - exact demoTwoChanged_own_targets.
Qed.

Lemma demoTwoChanged_restored :
  ∃ u, restoreDefaultSettings false demoTwoChanged = Some ((), u)
       ∧ emitted u
         = emitted demoTwoChanged
           ++ [("fontSize", QVariant.Int 12); ("paths", QVariant.StringList ["/usr/lib"])].
Proof. eexists. split; vm_compute; reflexivity. Qed.

Lemma X13_witness :
  Settings (d demoTwoChanged) = Some 1%positive
  ∧ restorable PropertyType.DefaultValue demoTwoChanged
  ∧ propertyValue "fontSize" demoTwoChanged = QVariant.Int 14
  ∧ ∃ w1 w2,
      restoreDefaultSettings false demoTwoChanged = Some ((), w1)
      ∧ restoreDefaultSettings false w1 = Some ((), w2)
      ∧ emitted w1
        = emitted demoTwoChanged
          ++ [("fontSize", QVariant.Int 12); ("paths", QVariant.StringList ["/usr/lib"])]
      ∧ emitted w2 = emitted w1
      ∧ propertyValue "fontSize" w2 = propertyValue "fontSize" w1.
Proof.
  split; [reflexivity|]. split; [exact demoTwoChanged_restorable|].
  split; [vm_compute; reflexivity|].
  destruct (X13_restoreDefaultSettings_twice false demoTwoChanged 1%positive
              eq_refl demoTwoChanged_restorable)
    as (w1 & w2 & Hrun1 & Hrun2 & Hemit & _ & Hsame).
  exists w1, w2. split; [exact Hrun1|]. split; [exact Hrun2|]. split; [|split].
  - destruct demoTwoChanged_restored as (u & Hu & Hemitted).
    rewrite Hu in Hrun1. injection Hrun1 as <-. exact Hemitted.
  - exact Hemit.
  - apply Hsame. by exists demoFontSize.
Defined.

(** ** [applySettings] *)

Lemma committed_idempotent h p : committed h (committed h p) = committed h p.
Proof. reflexivity. Qed.

(** X14. [applySettings()] commits and does nothing else: it completes from
    every state in every build, leaves the objects, the stores, the attached
    store, what has been emitted and logged as they were, makes the recorded
    previous value of every key equal to its live value, and applying a
    second time changes nothing more. *)
Theorem X14_applySettings_commits_and_is_idempotent :
  ∀ w : World,
    ∃ w', applySettings w = Some ((), w')
          ∧ applySettings w' = Some ((), w')
          ∧ objects w' = objects w ∧ stores w' = stores w
          ∧ Settings (d w') = Settings (d w)
          ∧ emitted w' = emitted w ∧ warnings w' = warnings w
          ∧ ∀ key, previousPropertyValue key w' = propertyValue key w
                   ∧ propertyValue key w' = propertyValue key w.
Proof.
  intros w. exists (appliedWorld w). split; [apply applySettings_unfold|].
  split.
  - rewrite applySettings_unfold. f_equal. f_equal. unfold appliedWorld. simpl.
    f_equal. f_equal. rewrite <- map_fmap_compose. apply map_fmap_ext.
    intros k p _. simpl. apply committed_idempotent.
  - repeat (split; [done|]). intros key.
    rewrite previousPropertyValue_constIndex, !propertyValue_constIndex. simpl.
    unfold constIndex. rewrite lookup_fmap.
    by destruct (Properties (d w) !! key).
Qed.

(** ** Attaching a store that is complete *)

(** X22. Attaching a store that already holds a value for every registered
    key only reads from it: a [setSettings(s)] that completes leaves every
    store as it was, emits no notification and logs no warning, whatever
    the stored values are. *)
Theorem X22_setSettings_complete_store_is_only_read :
  ∀ (QT_NO_DEBUG : bool) (w w' : World) (s : positive),
    (∀ key, is_Some (Properties (d w) !! key) →
            QSettings.contains (stores w) s key = true) →
    setSettings QT_NO_DEBUG (Some s) w = Some ((), w') →
    stores w' = stores w ∧ emitted w' = emitted w ∧ warnings w' = warnings w.
Proof.
  intros b w w' s Hall. rewrite setSettings_unfold.
  destruct (decide _) as [|Hne]; [by intros [= <-]|].
  rewrite (updateProperties_attached b (setSettingsPtr (Some s) w) s) by done.
  simpl. intros Hrun.
  apply (foreach_partial
           (λ _ u, stores u = stores w ∧ emitted u = emitted w ∧ warnings u = warnings w)
           (keys (Properties (d w))) (updateOne b s))
    with (s := setSettingsPtr (Some s) w) in Hrun; [exact Hrun| |done].
  intros done x rest u u' Hl (Hst & He & Hwa). rewrite updateOne_staged, Hst.
  rewrite (Hall x).
  - destruct (PropertyType.setValue _ _ _ _) as [[r h']|]; [|done].
    by intros [= <-].
  - apply elem_of_keys. rewrite Hl. apply elem_of_app. right. apply list_elem_of_here.
Qed.

Lemma X22_witness :
  ∃ w', (∀ key, is_Some (Properties (d demoDetached) !! key) →
                QSettings.contains (stores demoDetached) 1 key = true)
        ∧ setSettings false (Some 1%positive) demoDetached = Some ((), w')
        ∧ emitted w' = emitted demoDetached.
Proof.
  assert (∀ key, is_Some (Properties (d demoDetached) !! key) →
                 QSettings.contains (stores demoDetached) 1 key = true) as Hall.
  { intros key [p Hp].
    change (Properties (d demoDetached))
      with (<["fontSize" := demoFontSize]> (∅ : gmap string PropertyType.t)) in Hp.
    apply lookup_insert_Some in Hp as [[<- _]|[_ Hempty]]; [reflexivity|].
    by rewrite lookup_empty in Hempty. }
  eexists. split; [exact Hall|]. split; [vm_compute; reflexivity|].
  match goal with
  | |- emitted ?w' = _ =>
      destruct (X22_setSettings_complete_store_is_only_read false demoDetached w'
                  1%positive Hall) as (_ & Hemitted & _);
        [vm_compute; reflexivity|exact Hemitted]
  end.
Defined.
